(** * ILI9341 display driver (ili9341.c): SPI transaction traces of the
      drawing primitives

    The driver talks to the panel through two functions, [lcd_cmd] (one command
    byte, D/C low) and [lcd_data] (a run of data bytes, D/C high).  Every
    drawing routine is embedded as a function that returns the sequence of SPI
    transactions it issues, in order; the globals it reads or writes
    ([lcd_orientation], the static [pixel] buffer of [ILI9341DrawChar]) are
    passed in and out explicitly.

    C integers are [Z].  [int] is 32 bits wide on the ESP32, so the operands
    of an expression are promoted to 32 bits and do not wrap for 16-bit
    inputs; the conversions that happen when a value is stored in a narrower
    variable, field or parameter are written out with [to_uint8], [to_uint16],
    [to_int16], [to_int32] and [to_uint32].  Loops whose number of iterations
    is not fixed in advance take an iteration budget and return [None] when it
    is used up; the lemmas [Fill_returns], [DrawLine_loop_runs],
    [DrawCircle_loop_offsets], [for_uint16_counted] and [DrawString_loop_fuel]
    show when the budget that the embedding hands out suffices. *)

From Stdlib Require Import ZArith Lia.
From stdpp Require Import base numbers list option.

Local Open Scope Z_scope.

(** ** Integer conversions *)

Definition to_uint8 (z : Z) : Z := z `mod` 2 ^ 8.
Definition to_uint16 (z : Z) : Z := z `mod` 2 ^ 16.
Definition to_uint32 (z : Z) : Z := z `mod` 2 ^ 32.
Definition to_int16 (z : Z) : Z := (z + 2 ^ 15) `mod` 2 ^ 16 - 2 ^ 15.
Definition to_int32 (z : Z) : Z := (z + 2 ^ 31) `mod` 2 ^ 32 - 2 ^ 31.

Definition is_uint16 (z : Z) : Prop := 0 <= z < 2 ^ 16.
Definition is_int16 (z : Z) : Prop := - 2 ^ 15 <= z < 2 ^ 15.

(** ** Macros *)

Definition MAX_VALUE_SIZE : Z := 256.
Definition MSK_BIT16 : Z := 0x8000.
Definition LEFT : Z := -1.
Definition RIGHT : Z := 1.
Definition DOWN : Z := 1.
Definition UP : Z := -1.

Definition SEND_PIXELS : Z := 0x00.
Definition COLUMN_ADDR_SET : Z := 0x2A.
Definition PAGE_ADDR_SET : Z := 0x2B.
Definition MEM_WRITE : Z := 0x2C.
Definition MEM_ACC_CTRL : Z := 0x36.

(** [HighByte(x)] is [x >> 8] and [LowByte(x)] is [x & 0xFF]; every use stores
    the result in a [uint8_t]. *)
Definition HighByte (x : Z) : Z := to_uint8 (Z.shiftr x 8).
Definition LowByte (x : Z) : Z := to_uint8 (Z.land x 0xFF).

(** ** The transport *)

(** One polling transmission.  [TxCommand cmd] is the 8-bit transfer of
    [lcd_cmd] (always called with [keep_cs_active] false).  [TxData len bytes]
    is a data transfer of [len * 8] bits; [bytes] are the bytes of the transmit
    buffer that the transfer covers (at most the whole buffer, none for a
    length that is not positive). *)
Inductive spi_transaction : Type :=
| TxCommand (cmd : Z)
| TxData (len : Z) (bytes : list Z).

Definition lcd_cmd (cmd : Z) : list spi_transaction := [TxCommand cmd].

Definition lcd_data (data : list Z) (len : Z) : list spi_transaction :=
  if len =? 0 then [] else [TxData len (take (Z.to_nat len) data)].

Record lcd_cmd_t : Type := mk_lcd_cmd {
  cmd : Z;          (* uint8_t *)
  databytes : Z;    (* uint32_t *)
  data : list Z     (* uint8_t * *)
}.

(** The initialiser [{c, n, buf}] converts [n] to the [uint32_t] field. *)
Definition lcd_cmd_init (c n : Z) (buf : list Z) : lcd_cmd_t :=
  mk_lcd_cmd (to_uint8 c) (to_uint32 n) buf.

(** [lcd_data] takes an [int] length: the [uint32_t] field is converted back. *)
Definition WriteLCD (d : lcd_cmd_t) : list spi_transaction :=
  (if cmd d =? 0 then [] else lcd_cmd (cmd d)) ++
  (if databytes d =? 0 then [] else lcd_data (data d) (to_int32 (databytes d))).

(** ** Window selection *)

Definition SetCursorPosition (x0 y0 x1 y1 : Z) : list spi_transaction :=
  let '(x0, x1) := if x0 >? x1 then (x1, x0) else (x0, x1) in
  let '(y0, y1) := if y0 >? y1 then (y1, y0) else (y0, y1) in
  let columns := [HighByte x0; LowByte x0; HighByte x1; LowByte x1] in
  let lcd_columns := lcd_cmd_init COLUMN_ADDR_SET 4 columns in
  let rows := [HighByte y0; LowByte y0; HighByte y1; LowByte y1] in
  let lcd_rows := lcd_cmd_init PAGE_ADDR_SET 4 rows in
  WriteLCD lcd_columns ++ WriteLCD lcd_rows.

(** ** Rectangle fill *)

(** The [for] loop of [Fill] writes the colour into all 128 pixel slots of the
    static buffer before anything is sent. *)
Definition Fill_pixel (color : Z) : list Z :=
  mjoin (replicate (Z.to_nat (MAX_VALUE_SIZE / 2)) [HighByte color; LowByte color]).

(** The [while (bytes_count - MAX_VALUE_SIZE > 0)] loop.  The result is the
    transactions sent and the value of [bytes_count] on exit; [None] when the
    iteration budget is used up before the guard fails.  [bytes_count] only
    decreases, from a value that fits in [int32_t]; the subtractions are taken
    in [Z]. *)
Fixpoint Fill_loop (fuel : nat) (pixel : list Z) (bytes_count : Z)
  : option (list spi_transaction * Z) :=
  if bytes_count - MAX_VALUE_SIZE >? 0 then
    match fuel with
    | O => None
    | S fuel' =>
        let lcd_pixel := lcd_cmd_init SEND_PIXELS MAX_VALUE_SIZE pixel in
        '(rest, bc) ← Fill_loop fuel' pixel (bytes_count - MAX_VALUE_SIZE);
        Some (WriteLCD lcd_pixel ++ rest, bc)
    end
  else Some ([], bytes_count).

Definition Fill (x0 y0 x1 y1 color : Z) : option (list spi_transaction) :=
  let x_dist := to_int16 (x1 - x0) in
  let y_dist := to_int16 (y1 - y0) in
  let x_dist := if x0 >? x1 then to_int16 (- x_dist) else x_dist in
  let y_dist := if y0 >? y1 then to_int16 (- y_dist) else y_dist in
  let bytes_count := to_int32 ((x_dist + 1) * (y_dist + 1) * 2) in
  let window := SetCursorPosition x0 y0 x1 y1 in
  let pixel := Fill_pixel color in
  let lcd_write := lcd_cmd_init MEM_WRITE 0 [] in
  '(chunks, bytes_count) ← Fill_loop (Z.to_nat (bytes_count / MAX_VALUE_SIZE)) pixel bytes_count;
  let lcd_pixel := lcd_cmd_init SEND_PIXELS bytes_count pixel in
  Some (window ++ WriteLCD lcd_write ++ chunks ++ WriteLCD lcd_pixel).

(** ** Reading a trace *)

(** The transactions that follow the first memory-write command. *)
Fixpoint pixel_stream (tr : list spi_transaction) : list spi_transaction :=
  match tr with
  | [] => []
  | TxCommand c :: rest => if c =? MEM_WRITE then rest else pixel_stream rest
  | TxData _ _ :: rest => pixel_stream rest
  end.

Definition tx_payload (t : spi_transaction) : list Z :=
  match t with
  | TxCommand _ => []
  | TxData _ bytes => bytes
  end.

Definition payload_bytes (tr : list spi_transaction) : list Z :=
  mjoin (tx_payload <$> tr).

Definition tx_len (t : spi_transaction) : Z :=
  match t with
  | TxCommand _ => 0
  | TxData len _ => len
  end.

Definition chunk_lengths (tr : list spi_transaction) : list Z := tx_len <$> tr.


(** Sum of the transfer lengths requested from the transport. *)
Definition requested_bytes (tr : list spi_transaction) : Z :=
  foldr Z.add 0 (chunk_lengths tr).

(** Big-endian encoding of a 16-bit value, high byte first. *)
Definition be16 (v : Z) : list Z := [v `div` 256; v `mod` 256].

(** The property "the pixel stream of [Fill] carries exactly
    (|x1-x0|+1) * (|y1-y0|+1) * 2 bytes". *)
Definition Fill_byte_exact (x0 y0 x1 y1 color : Z) : Prop :=
  exists tr, Fill x0 y0 x1 y1 color = Some tr /\
    Z.of_nat (length (payload_bytes (pixel_stream tr)))
    = (Z.abs (x1 - x0) + 1) * (Z.abs (y1 - y0) + 1) * 2.

(** The chunking "floor(n/256) full chunks, then one chunk of n mod 256 bytes
    that is omitted when empty" of a buffer [pixel]. *)
Definition chunked (pixel : list Z) (n : Z) : list spi_transaction :=
  replicate (Z.to_nat (n `div` MAX_VALUE_SIZE)) (TxData MAX_VALUE_SIZE pixel) ++
  (if n `mod` MAX_VALUE_SIZE =? 0 then []
   else [TxData (n `mod` MAX_VALUE_SIZE) (take (Z.to_nat (n `mod` MAX_VALUE_SIZE)) pixel)]).

Definition Fill_chunks_as_claimed (x0 y0 x1 y1 color : Z) : Prop :=
  exists tr, Fill x0 y0 x1 y1 color = Some tr /\
    pixel_stream tr
    = chunked (Fill_pixel color) ((Z.abs (x1 - x0) + 1) * (Z.abs (y1 - y0) + 1) * 2).


(** ** Orientation *)

(** Modelled from the spec: the enumeration is declared in ili9341.h, which is
    not part of the sources at hand; its four values are the orientations of
    the specification and the case labels of [ILI9341Rotate]. *)
Inductive ili9341_orientation_t : Type :=
| ILI9341_Portrait_1
| ILI9341_Portrait_2
| ILI9341_Landscape_1
| ILI9341_Landscape_2.

Record orientation_properties_t : Type := mk_orientation {
  width : Z;                          (* uint16_t *)
  height : Z;                         (* uint16_t *)
  orientation : ili9341_orientation_t
}.

(** Memory-access-control byte of the initial configuration table. *)
Definition mem_acc_ctrl : list Z := [0x48].

Section Panel.

(** The native panel dimensions come from ili9341.h, which is not part of
    the sources at hand; they are kept as parameters. *)
Variables ILI9341_WIDTH ILI9341_HEIGHT : Z.

(** Default orientation configuration. *)
Definition lcd_orientation : orientation_properties_t :=
  mk_orientation (to_uint16 ILI9341_WIDTH) (to_uint16 ILI9341_HEIGHT) ILI9341_Portrait_1.

(** The [switch] of [ILI9341Rotate]: the byte placed in [mem_acc[0]] and the
    three fields written to [lcd_orientation]. *)
Definition ILI9341Rotate_case (o : ili9341_orientation_t) : Z * orientation_properties_t :=
  match o with
  | ILI9341_Portrait_1 =>
      (0x48, mk_orientation (to_uint16 ILI9341_WIDTH) (to_uint16 ILI9341_HEIGHT) ILI9341_Portrait_1)
  | ILI9341_Portrait_2 =>
      (0x88, mk_orientation (to_uint16 ILI9341_WIDTH) (to_uint16 ILI9341_HEIGHT) ILI9341_Portrait_2)
  | ILI9341_Landscape_1 =>
      (0x28, mk_orientation (to_uint16 ILI9341_HEIGHT) (to_uint16 ILI9341_WIDTH) ILI9341_Landscape_1)
  | ILI9341_Landscape_2 =>
      (0xE8, mk_orientation (to_uint16 ILI9341_HEIGHT) (to_uint16 ILI9341_WIDTH) ILI9341_Landscape_2)
  end.

(** [ILI9341Rotate] takes the current value of the global [lcd_orientation]
    and returns its new value with the transactions sent. *)
Definition ILI9341Rotate (o : ili9341_orientation_t) (lcd : orientation_properties_t)
  : orientation_properties_t * list spi_transaction :=
  let '(mem_acc, lcd') := ILI9341Rotate_case o in
  let lcd_mem_acc := lcd_cmd_init MEM_ACC_CTRL 1 [to_uint8 mem_acc] in
  (lcd', WriteLCD lcd_mem_acc).

(** A sequence of rotations, threading the global through. *)
Definition rotate_through (tour : list ili9341_orientation_t) (lcd : orientation_properties_t)
  : orientation_properties_t :=
  foldl (fun st o => fst (ILI9341Rotate o st)) lcd tour.

End Panel.

(** ** Pixels and whole-screen fill *)

Definition ILI9341DrawPixel (x y color : Z) : list spi_transaction :=
  let pixels := [HighByte color; LowByte color] in
  let lcd_pixels := lcd_cmd_init MEM_WRITE 2 pixels in
  SetCursorPosition x y x y ++ WriteLCD lcd_pixels.

Definition ILI9341Fill (lcd : orientation_properties_t) (color : Z)
  : option (list spi_transaction) :=
  Fill 0 0 (width lcd) (height lcd) color.

(** ** Calls made by the vector primitives *)

(** Lines and circles are built from [ILI9341DrawPixel] and [Fill] alone.
    Their embeddings return the calls they make, in order, with the argument
    values as received by the callee (converted to [uint16_t]). *)
Inductive primitive_call : Type :=
| CallDrawPixel (x y color : Z)
| CallFill (x0 y0 x1 y1 color : Z).

Definition run_call (c : primitive_call) : option (list spi_transaction) :=
  match c with
  | CallDrawPixel x y color => Some (ILI9341DrawPixel x y color)
  | CallFill x0 y0 x1 y1 color => Fill x0 y0 x1 y1 color
  end.

Fixpoint run_calls (cs : list primitive_call) : option (list spi_transaction) :=
  match cs with
  | [] => Some []
  | c :: cs' => tr ← run_call c; rest ← run_calls cs'; Some (tr ++ rest)
  end.

(** Pixels addressed through [ILI9341DrawPixel]. *)
Fixpoint pixels_of (cs : list primitive_call) : list (Z * Z) :=
  match cs with
  | [] => []
  | CallDrawPixel x y _ :: cs' => (x, y) :: pixels_of cs'
  | CallFill _ _ _ _ _ :: cs' => pixels_of cs'
  end.

(** A call draws the pixel [(px, py)]. *)
Definition call_draws (px py : Z) (c : primitive_call) : Prop :=
  match c with
  | CallDrawPixel x y _ => px = x /\ py = y
  | CallFill x0 y0 x1 y1 _ =>
      Z.min x0 x1 <= px <= Z.max x0 x1 /\ Z.min y0 y1 <= py <= Z.max y0 y1
  end.

(** Every coordinate handed to the call lies on the panel. *)
Definition call_on_panel (lcd : orientation_properties_t) (c : primitive_call) : Prop :=
  match c with
  | CallDrawPixel x y _ => 0 <= x < width lcd /\ 0 <= y < height lcd
  | CallFill x0 y0 x1 y1 _ =>
      (0 <= x0 < width lcd /\ 0 <= x1 < width lcd) /\
      (0 <= y0 < height lcd /\ 0 <= y1 < height lcd)
  end.

(** ** Lines *)

(** The [while (1)] loop of [ILI9341DrawLine]; one unit of [fuel] per
    iteration, [None] when the budget runs out before the [break]. *)
Fixpoint DrawLine_loop (fuel : nat) (x0 y0 x1 y1 color : Z)
    (x_dist y_dist x_grow y_grow error : Z) : option (list primitive_call) :=
  match fuel with
  | O => None
  | S fuel' =>
      let start := CallDrawPixel x0 y0 color in
      if (x0 =? x1) || (y0 =? y1) then Some [start]
      else
        let error_2 := error in
        let '(error, x0) :=
          if error_2 >? - x_dist
          then (to_int16 (error - y_dist), to_uint16 (x0 + x_grow))
          else (error, x0) in
        let '(error, y0) :=
          if error_2 <? y_dist
          then (to_int16 (error + x_dist), to_uint16 (y0 + y_grow))
          else (error, y0) in
        rest ← DrawLine_loop fuel' x0 y0 x1 y1 color x_dist y_dist x_grow y_grow error;
        Some (start :: rest)
  end.

(** "Check for overflow": one of the four [if]s at the top of
    [ILI9341DrawLine]. *)
Definition DrawLine_clamp (dimension v : Z) : Z :=
  if v >=? dimension then to_uint16 (dimension - 1) else v.

(** The budget of the loop is one iteration per unit of |x1-x0| + |y1-y0|
    after clamping, plus one. *)
Definition ILI9341DrawLine_calls (lcd : orientation_properties_t) (x0 y0 x1 y1 color : Z)
  : option (list primitive_call) :=
  let x0 := DrawLine_clamp (width lcd) x0 in
  let x1 := DrawLine_clamp (width lcd) x1 in
  let y0 := DrawLine_clamp (height lcd) y0 in
  let y1 := DrawLine_clamp (height lcd) y1 in
  let x_dist := to_int16 (x1 - x0) in
  let y_dist := to_int16 (y1 - y0) in
  let '(x_dist, x_grow) := if x0 >? x1 then (to_int16 (- x_dist), LEFT) else (x_dist, RIGHT) in
  let '(y_dist, y_grow) := if y0 >? y1 then (to_int16 (- y_dist), UP) else (y_dist, DOWN) in
  if (x_dist =? 0) || (y_dist =? 0) then Some [CallFill x0 y0 x1 y1 color]
  else
    let error := if x_dist >? y_dist then to_int16 (x_dist `quot` 2)
                 else to_int16 (y_dist `quot` 2) in
    DrawLine_loop (S (Z.to_nat (Z.abs (x1 - x0) + Z.abs (y1 - y0))))
      x0 y0 x1 y1 color x_dist y_dist x_grow y_grow error.

Definition ILI9341DrawLine (lcd : orientation_properties_t) (x0 y0 x1 y1 color : Z)
  : option (list spi_transaction) :=
  ILI9341DrawLine_calls lcd x0 y0 x1 y1 color ≫= run_calls.

(** ** Circles *)

(** The eight pixels drawn by one iteration of the loop of
    [ILI9341DrawCircle], in source order. *)
Definition DrawCircle_octants (x0 y0 x y color : Z) : list primitive_call :=
  [CallDrawPixel (to_uint16 (x0 + x)) (to_uint16 (y0 + y)) color;
   CallDrawPixel (to_uint16 (x0 - x)) (to_uint16 (y0 + y)) color;
   CallDrawPixel (to_uint16 (x0 + x)) (to_uint16 (y0 - y)) color;
   CallDrawPixel (to_uint16 (x0 - x)) (to_uint16 (y0 - y)) color;
   CallDrawPixel (to_uint16 (x0 + y)) (to_uint16 (y0 + x)) color;
   CallDrawPixel (to_uint16 (x0 - y)) (to_uint16 (y0 + x)) color;
   CallDrawPixel (to_uint16 (x0 + y)) (to_uint16 (y0 - x)) color;
   CallDrawPixel (to_uint16 (x0 - y)) (to_uint16 (y0 - x)) color].

(** The [while (x < y)] loop; [None] when the budget runs out first. *)
Fixpoint DrawCircle_loop (fuel : nat) (x0 y0 color f ddF_x ddF_y x y : Z)
  : option (list primitive_call) :=
  if x <? y then
    match fuel with
    | O => None
    | S fuel' =>
        let '(y, ddF_y, f) :=
          if f >=? 0
          then (to_int16 (y - 1), to_int16 (ddF_y + 2), to_int16 (f + to_int16 (ddF_y + 2)))
          else (y, ddF_y, f) in
        let x := to_int16 (x + 1) in
        let ddF_x := to_int16 (ddF_x + 2) in
        let f := to_int16 (f + ddF_x) in
        rest ← DrawCircle_loop fuel' x0 y0 color f ddF_x ddF_y x y;
        Some (DrawCircle_octants x0 y0 x y color ++ rest)
    end
  else Some [].

(** [x] starts at 0 and [y] at [r]; [r] iterations are the budget. *)
Definition ILI9341DrawCircle_calls (x0 y0 r color : Z) : option (list primitive_call) :=
  let f := to_int16 (1 - r) in
  let ddF_x := 1 in
  let ddF_y := to_int16 (-2 * r) in
  let x := 0 in
  let y := r in
  rest ← DrawCircle_loop (Z.to_nat r) x0 y0 color f ddF_x ddF_y x y;
  Some ([CallDrawPixel (to_uint16 x0) (to_uint16 (y0 + r)) color;
         CallDrawPixel (to_uint16 x0) (to_uint16 (y0 - r)) color;
         CallDrawPixel (to_uint16 (x0 + r)) (to_uint16 y0) color;
         CallDrawPixel (to_uint16 (x0 - r)) (to_uint16 y0) color] ++ rest).

Definition ILI9341DrawCircle (x0 y0 r color : Z) : option (list spi_transaction) :=
  ILI9341DrawCircle_calls x0 y0 r color ≫= run_calls.

(** The eight octant reflections about a centre, on [uint16_t] pixel
    coordinates, generated by two mirrors and the diagonal swap. *)
Definition mirror_x (cx : Z) (p : Z * Z) : Z * Z := (to_uint16 (2 * cx - p.1), p.2).
Definition mirror_y (cy : Z) (p : Z * Z) : Z * Z := (p.1, to_uint16 (2 * cy - p.2)).
Definition swap_diag (cx cy : Z) (p : Z * Z) : Z * Z :=
  (to_uint16 (p.2 + (cx - cy)), to_uint16 (p.1 + (cy - cx))).

Definition octant_images (cx cy : Z) (p : Z * Z) : list (Z * Z) :=
  [p; mirror_x cx p; mirror_y cy p; mirror_x cx (mirror_y cy p);
   swap_diag cx cy p; mirror_x cx (swap_diag cx cy p);
   mirror_y cy (swap_diag cx cy p); mirror_x cx (mirror_y cy (swap_diag cx cy p))].

(** The same eight reflections on the integer plane, as the claim has them:
    the mirror images in the column and in the row of the centre and in its
    diagonal, without reduction modulo 2^16. *)
Definition reflect_x (cx : Z) (p : Z * Z) : Z * Z := (2 * cx - p.1, p.2).
Definition reflect_y (cy : Z) (p : Z * Z) : Z * Z := (p.1, 2 * cy - p.2).
Definition reflect_diag (cx cy : Z) (p : Z * Z) : Z * Z :=
  (p.2 + (cx - cy), p.1 + (cy - cx)).

Definition octant_reflections (cx cy : Z) (p : Z * Z) : list (Z * Z) :=
  [p; reflect_x cx p; reflect_y cy p; reflect_x cx (reflect_y cy p);
   reflect_diag cx cy p; reflect_x cx (reflect_diag cx cy p);
   reflect_y cy (reflect_diag cx cy p);
   reflect_x cx (reflect_y cy (reflect_diag cx cy p))].

(** "The set of drawn pixels is symmetric under the 8 octant reflections
    about the center, and the four cardinal points (x0, y0+r), (x0, y0-r),
    (x0+r, y0), (x0-r, y0) are included." *)
Definition DrawCircle_symmetric_as_claimed (x0 y0 r color : Z) : Prop :=
  exists calls,
    ILI9341DrawCircle_calls x0 y0 r color = Some calls /\
    (forall p, In p (pixels_of calls) ->
       forall q, In q (octant_reflections x0 y0 p) -> In q (pixels_of calls)) /\
    In (x0, y0 + r) (pixels_of calls) /\
    In (x0, y0 - r) (pixels_of calls) /\
    In (x0 + r, y0) (pixels_of calls) /\
    In (x0 - r, y0) (pixels_of calls).

(** A pixel call inside the bounding box of two corners. *)
Definition pixel_in_box (xa ya xb yb color : Z) (c : primitive_call) : Prop :=
  exists x y, c = CallDrawPixel x y color /\
    Z.min xa xb <= x <= Z.max xa xb /\ Z.min ya yb <= y <= Z.max ya yb.

(** The pixel at a signed offset from a centre, as [ILI9341DrawPixel] receives
    it, and the eight offsets that one offset generates. *)
Definition offset_pixel (cx cy : Z) (o : Z * Z) : Z * Z :=
  (to_uint16 (cx + o.1), to_uint16 (cy + o.2)).

Definition octant_offsets (o : Z * Z) : list (Z * Z) :=
  [(o.1, o.2); (- o.1, o.2); (o.1, - o.2); (- o.1, - o.2);
   (o.2, o.1); (- o.2, o.1); (o.2, - o.1); (- o.2, - o.1)].

(** A list of offsets that contains the octant images of its members. *)
Definition octant_closed (offs : list (Z * Z)) : Prop :=
  forall o, In o offs -> forall o', In o' (octant_offsets o) -> In o' offs.

(** ** Glyphs *)

(** Modelled from the spec: [Font_t] is declared in a header that is not part
    of the sources at hand.  The record has the three fields that the driver
    uses, the glyph width and height and the table of 16-bit glyph rows
    indexed by (character code - 32) * height + row.  [font_data i] is the
    word read by [font->data[i]]: a glyph row when [i] falls inside the table,
    whatever neighbours the table in memory otherwise. *)
Record Font_t : Type := mk_font {
  FontWidth : Z;
  FontHeight : Z;
  font_data : Z -> Z
}.

(** Index of row [i] of character [data] in the glyph table. *)
Definition DrawChar_row_index (font : Font_t) (data i : Z) : Z :=
  (data - 32) * FontHeight font + i.

(** A store to the static 256-byte buffer; [None] when the index is outside. *)
Definition pixel_store (pixel : list Z) (idx v : Z) : option (list Z) :=
  if (0 <=? idx) && (idx <? MAX_VALUE_SIZE)
  then Some (<[Z.to_nat idx := v]> pixel)
  else None.

(** The statics of [ILI9341DrawChar] that change inside its loops, with the
    transactions sent so far. *)
Record DrawChar_state : Type := mk_DrawChar_state {
  dc_k : Z;               (* uint16_t k *)
  dc_bytes_count : Z;     (* int32_t bytes_count *)
  dc_pixel : list Z;      (* uint8_t pixel[MAX_VALUE_SIZE] *)
  dc_sent : list spi_transaction
}.

(** A counted loop [for (i = start; ...; i++)] over an option-valued body. *)
Fixpoint for_loop {St : Type} (count : nat) (i : Z) (body : Z -> St -> option St) (s : St)
  : option St :=
  match count with
  | O => Some s
  | S count' => s' ← body i s; for_loop count' (i + 1) body s'
  end.

(** The loop [for (i = 0; i < bound; i++)] as [ILI9341DrawChar] has it, with a
    [uint16_t] counter tested against an [int] bound: the counter wraps at
    2^16, so that the test never fails for a bound above 65535.  [None] when
    the iteration budget is used up before the test fails. *)
Fixpoint for_uint16 {St : Type} (fuel : nat) (i bound : Z) (body : Z -> St -> option St)
    (s : St) : option St :=
  if i <? bound then
    match fuel with
    | O => None
    | S fuel' => s' ← body i s; for_uint16 fuel' (to_uint16 (i + 1)) bound body s'
    end
  else Some s.

(** Body of the inner loop: one pixel of row [i], column [j].  The buffer
    index is an [int] expression and is taken in [Z].  The mask
    [MSK_BIT16 >> j] is a shift of an [int] of 32 bits, whose result is
    undefined for a count of 32 or more: there is no result then. *)
Definition DrawChar_column (font : Font_t) (foreground background char_row i j : Z)
    (s : DrawChar_state) : option DrawChar_state :=
  let s :=
    if 2 * j + i * FontWidth font * 2 - dc_k s * MAX_VALUE_SIZE + 1 >? MAX_VALUE_SIZE
    then
      let lcd_pixels := lcd_cmd_init SEND_PIXELS MAX_VALUE_SIZE (dc_pixel s) in
      mk_DrawChar_state (to_uint16 (dc_k s + 1))
        (to_int32 (dc_bytes_count s - MAX_VALUE_SIZE))
        (dc_pixel s) (dc_sent s ++ WriteLCD lcd_pixels)
    else s in
  let idx := 2 * j + i * FontWidth font * 2 - dc_k s * MAX_VALUE_SIZE in
  color ←
    (if j <? 32
     then Some (if Z.land char_row (Z.shiftr MSK_BIT16 j) =? 0
                then background else foreground)
     else None);
  pixel ← pixel_store (dc_pixel s) idx (HighByte color);
  pixel ← pixel_store pixel (idx + 1) (LowByte color);
  Some (mk_DrawChar_state (dc_k s) (dc_bytes_count s) pixel (dc_sent s)).

(** Body of the outer loop: row [i] of the glyph.  [FontWidth] iterations are
    the budget of the loop over the columns, which is enough whenever that
    loop ends. *)
Definition DrawChar_row (font : Font_t) (data foreground background i : Z)
    (s : DrawChar_state) : option DrawChar_state :=
  let char_row := to_uint16 (font_data font (DrawChar_row_index font data i)) in
  for_uint16 (Z.to_nat (FontWidth font)) 0 (FontWidth font)
    (DrawChar_column font foreground background char_row i) s.

(** [pixel] is the content of the static buffer on entry; the result carries
    its content on exit.  [FontHeight] iterations are the budget of the loop
    over the rows. *)
Definition ILI9341DrawChar (lcd : orientation_properties_t) (x y data : Z) (font : Font_t)
    (foreground background : Z) (pixel : list Z)
  : option (list spi_transaction * list Z) :=
  let '(lcd_x, lcd_y) :=
    if x + FontWidth font >? width lcd
    then (0, to_uint16 (y + FontHeight font))
    else (x, y) in
  let window :=
    SetCursorPosition lcd_x lcd_y
      (to_uint16 (lcd_x + FontWidth font - 1)) (to_uint16 (lcd_y + FontHeight font - 1)) in
  let bytes_count := to_int32 (FontHeight font * FontWidth font * 2) in
  let lcd_write := lcd_cmd_init MEM_WRITE 0 [] in
  s ← for_uint16 (Z.to_nat (FontHeight font)) 0 (FontHeight font)
        (DrawChar_row font data foreground background)
        (mk_DrawChar_state 0 bytes_count pixel []);
  let lcd_pixels := lcd_cmd_init SEND_PIXELS (dc_bytes_count s) (dc_pixel s) in
  Some (window ++ WriteLCD lcd_write ++ dc_sent s ++ WriteLCD lcd_pixels, dc_pixel s).

(** ** Strings *)

(** How the walk over the string ended: at a terminator, by reading past the
    bytes that the model was given, or by exhausting the iteration budget. *)
Inductive walk_end : Type := AtTerminator | PastMemory | OutOfFuel.

(** The [while] loop of [ILI9341DrawString], which runs until the character
    under [str] is the terminator.  [str] is the memory from the pointer
    onwards: the character under the pointer is its head and [str + 1] its
    tail.  The result lists the arguments (lcd_x, lcd_y, character) of the
    calls to [ILI9341DrawChar], in order. *)
Fixpoint DrawString_loop (fuel : nat) (x : Z) (font : Font_t) (str : list Z)
    (lcd_x lcd_y : Z) : list (Z * Z * Z) * walk_end :=
  match fuel with
  | O => ([], OutOfFuel)
  | S fuel' =>
      match str with
      | [] => ([], PastMemory)
      | c :: _ =>
          if c =? 0 then ([], AtTerminator)
          else
            let moved :=
              if c =? 10 then
                let lcd_y := to_uint16 (lcd_y + FontHeight font + 1) in
                match drop 1 str with
                | [] => None
                | c1 :: _ =>
                    if c1 =? 13 then Some (0, lcd_y, drop 2 str)
                    else Some (x, lcd_y, drop 1 str)
                end
              else if c =? 13 then Some (lcd_x, lcd_y, drop 1 str)
              else Some (lcd_x, lcd_y, str) in
            match moved with
            | None => ([], PastMemory)
            | Some (_, _, []) => ([], PastMemory)
            | Some (lcd_x, lcd_y, ch :: str') =>
                let '(calls, how) :=
                  DrawString_loop fuel' x font str'
                    (to_uint16 (lcd_x + FontWidth font)) lcd_y in
                ((lcd_x, lcd_y, ch) :: calls, how)
            end
      end
  end.

(** Every iteration consumes at least one byte, so [length str + 1]
    iterations are enough for any memory. *)
Definition ILI9341DrawString_calls (x y : Z) (str : list Z) (font : Font_t)
  : list (Z * Z * Z) * walk_end :=
  DrawString_loop (S (length str)) x font str x y.

(** The SPI trace of a sequence of [ILI9341DrawChar] calls, the static buffer
    being handed from one call to the next. *)
Fixpoint DrawChar_each (lcd : orientation_properties_t) (font : Font_t)
    (foreground background : Z) (calls : list (Z * Z * Z)) (pixel : list Z)
  : option (list spi_transaction * list Z) :=
  match calls with
  | [] => Some ([], pixel)
  | (lcd_x, lcd_y, ch) :: calls' =>
      '(tr, pixel) ← ILI9341DrawChar lcd lcd_x lcd_y ch font foreground background pixel;
      '(rest, pixel) ← DrawChar_each lcd font foreground background calls' pixel;
      Some (tr ++ rest, pixel)
  end.

Definition ILI9341DrawString (lcd : orientation_properties_t) (x y : Z) (str : list Z)
    (font : Font_t) (foreground background : Z) (pixel : list Z)
  : option (list spi_transaction * list Z) :=
  DrawChar_each lcd font foreground background (ILI9341DrawString_calls x y str font).1 pixel.

(** "[ILI9341DrawString] calls [ILI9341DrawChar] with character code 0." *)
Definition DrawString_draws_NUL (x y : Z) (str : list Z) (font : Font_t) : Prop :=
  exists lcd_x lcd_y, In (lcd_x, lcd_y, 0) (ILI9341DrawString_calls x y str font).1.

(** The last character of the text, if there is one, is neither a line feed
    nor a carriage return. *)
Fixpoint ends_plain (text : list Z) : Prop :=
  match text with
  | [] => True
  | [b] => b <> 10 /\ b <> 13
  | _ :: rest => ends_plain rest
  end.

(** The text, read from the left as the loop reads it, ends in a line break
    with no character left behind it: a line feed with a carriage return
    right behind it, a line feed alone and a carriage return are the line
    breaks, and the character behind a line break is taken as the character
    to draw, whatever it is. *)
Fixpoint ends_in_break (text : list Z) : bool :=
  match text with
  | [] => false
  | c :: text' =>
      if c =? 10 then
        match text' with
        | [] => true
        | c1 :: text'' =>
            if c1 =? 13 then
              match text'' with
              | [] => true
              | _ :: text''' => ends_in_break text'''
              end
            else ends_in_break text''
        end
      else if c =? 13 then
        match text' with
        | [] => true
        | _ :: text'' => ends_in_break text''
        end
      else ends_in_break text'
  end.

(** A 16 x 26 font whose glyph rows alternate two patterns, for examples. *)
Definition example_font_16x26 : Font_t :=
  mk_font 16 26 (fun i => if Z.even i then 0xAAAA else 0x0FF0).

(** Number of times the full buffer has been sent when [p] pixels of a glyph
    have been placed: the buffer holds 128 pixels and is sent when the next
    pixel does not fit. *)
Definition DrawChar_flushes (p : Z) : Z := Z.max 0 ((p - 1) `div` 128).

(** A transfer of the whole 256-byte buffer. *)
Definition full_chunk (t : spi_transaction) : Prop :=
  exists bytes, t = TxData MAX_VALUE_SIZE bytes /\ length bytes = 256%nat.

(** State of the loops of [ILI9341DrawChar] once [p] pixels of a glyph of [n]
    bytes have been placed. *)
Definition DrawChar_inv (n p : Z) (s : DrawChar_state) : Prop :=
  dc_k s = DrawChar_flushes p /\
  dc_bytes_count s = n - 256 * DrawChar_flushes p /\
  length (dc_pixel s) = 256%nat /\
  Forall full_chunk (dc_sent s) /\
  length (dc_sent s) = Z.to_nat (DrawChar_flushes p).

(** * The rest of the driver *)

(** ** Rectangles *)

Definition ILI9341DrawRectangle_calls (lcd : orientation_properties_t)
    (x0 y0 x1 y1 color : Z) : option (list primitive_call) :=
  top ← ILI9341DrawLine_calls lcd x0 y0 x1 y0 color;
  right ← ILI9341DrawLine_calls lcd x1 y0 x1 y1 color;
  bottom ← ILI9341DrawLine_calls lcd x0 y1 x1 y1 color;
  left ← ILI9341DrawLine_calls lcd x0 y0 x0 y1 color;
  Some (top ++ right ++ bottom ++ left).

Definition ILI9341DrawRectangle (lcd : orientation_properties_t)
    (x0 y0 x1 y1 color : Z) : option (list spi_transaction) :=
  ILI9341DrawRectangle_calls lcd x0 y0 x1 y1 color ≫= run_calls.

Definition ILI9341DrawFilledRectangle (x0 y0 x1 y1 color : Z)
  : option (list spi_transaction) :=
  Fill x0 y0 x1 y1 color.

(** ** Reading the calls of a line *)

(** The pixels of a diagonal line as a path: every pixel but the last differs
    from the end point (x1, y1) in both coordinates and is followed by one of
    its eight neighbours, not farther from the end point in either
    coordinate; the last pixel shares its column or its row with the end
    point. *)
Fixpoint line_path (x1 y1 : Z) (cs : list primitive_call) : Prop :=
  match cs with
  | [] => False
  | CallFill _ _ _ _ _ :: _ => False
  | CallDrawPixel x y _ :: rest =>
      match rest with
      | [] => x = x1 \/ y = y1
      | CallFill _ _ _ _ _ :: _ => False
      | CallDrawPixel x' y' _ :: _ =>
          x <> x1 /\ y <> y1 /\
          Z.abs (x' - x) <= 1 /\ Z.abs (y' - y) <= 1 /\ (x' <> x \/ y' <> y) /\
          Z.abs (x1 - x') <= Z.abs (x1 - x) /\ Z.abs (y1 - y') <= Z.abs (y1 - y) /\
          line_path x1 y1 rest
      end
  end.

(** The [n + 1] pixels from (x, y) in steps of (sx, sy). *)
Fixpoint diagonal_pixels (n : nat) (x y sx sy color : Z) : list primitive_call :=
  CallDrawPixel x y color ::
  match n with
  | O => []
  | S n' => diagonal_pixels n' (x + sx) (y + sy) sx sy color
  end.

(** ** Filled circles *)

(** The four horizontal spans of one iteration of the loop of
    [ILI9341DrawFilledCircle], as calls to [ILI9341DrawLine]. *)
Definition DrawFilledCircle_spans (lcd : orientation_properties_t) (x0 y0 x y color : Z)
  : option (list primitive_call) :=
  l1 ← ILI9341DrawLine_calls lcd (to_uint16 (x0 - x)) (to_uint16 (y0 + y))
                                 (to_uint16 (x0 + x)) (to_uint16 (y0 + y)) color;
  l2 ← ILI9341DrawLine_calls lcd (to_uint16 (x0 + x)) (to_uint16 (y0 - y))
                                 (to_uint16 (x0 - x)) (to_uint16 (y0 - y)) color;
  l3 ← ILI9341DrawLine_calls lcd (to_uint16 (x0 + y)) (to_uint16 (y0 + x))
                                 (to_uint16 (x0 - y)) (to_uint16 (y0 + x)) color;
  l4 ← ILI9341DrawLine_calls lcd (to_uint16 (x0 + y)) (to_uint16 (y0 - x))
                                 (to_uint16 (x0 - y)) (to_uint16 (y0 - x)) color;
  Some (l1 ++ l2 ++ l3 ++ l4).

Fixpoint DrawFilledCircle_loop (fuel : nat) (lcd : orientation_properties_t)
    (x0 y0 color f ddF_x ddF_y x y : Z) : option (list primitive_call) :=
  if x <? y then
    match fuel with
    | O => None
    | S fuel' =>
        let '(y, ddF_y, f) :=
          if f >=? 0
          then (to_int16 (y - 1), to_int16 (ddF_y + 2), to_int16 (f + to_int16 (ddF_y + 2)))
          else (y, ddF_y, f) in
        let x := to_int16 (x + 1) in
        let ddF_x := to_int16 (ddF_x + 2) in
        let f := to_int16 (f + ddF_x) in
        spans ← DrawFilledCircle_spans lcd x0 y0 x y color;
        rest ← DrawFilledCircle_loop fuel' lcd x0 y0 color f ddF_x ddF_y x y;
        Some (spans ++ rest)
    end
  else Some [].

Definition ILI9341DrawFilledCircle_calls (lcd : orientation_properties_t)
    (x0 y0 r color : Z) : option (list primitive_call) :=
  let f := to_int16 (1 - r) in
  let ddF_x := 1 in
  let ddF_y := to_int16 (-2 * r) in
  let x := 0 in
  let y := r in
  middle ← ILI9341DrawLine_calls lcd (to_uint16 (x0 - r)) (to_uint16 y0)
                                     (to_uint16 (x0 + r)) (to_uint16 y0) color;
  rest ← DrawFilledCircle_loop (Z.to_nat r) lcd x0 y0 color f ddF_x ddF_y x y;
  Some ([CallDrawPixel (to_uint16 x0) (to_uint16 (y0 + r)) color;
         CallDrawPixel (to_uint16 x0) (to_uint16 (y0 - r)) color;
         CallDrawPixel (to_uint16 (x0 + r)) (to_uint16 y0) color;
         CallDrawPixel (to_uint16 (x0 - r)) (to_uint16 y0) color] ++ middle ++ rest).

Definition ILI9341DrawFilledCircle (lcd : orientation_properties_t)
    (x0 y0 r color : Z) : option (list spi_transaction) :=
  ILI9341DrawFilledCircle_calls lcd x0 y0 r color ≫= run_calls.

(** An offset from the centre that lies on the circle of radius [r] up to the
    rounding of the midpoint algorithm. *)
Definition on_circle (r : Z) (o : Z * Z) : Prop :=
  Z.abs (o.1 * o.1 + o.2 * o.2 - r * r) <= r.

(** A horizontal fill between two mirror-image points of the outline. *)
Definition circle_span (x0 y0 r color : Z) (c : primitive_call) : Prop :=
  exists a b, on_circle r (a, b) /\
    (c = CallFill (x0 - a) (y0 + b) (x0 + a) (y0 + b) color \/
     c = CallFill (x0 + a) (y0 + b) (x0 - a) (y0 + b) color).

(** State of the midpoint loop at the start of an iteration that is going to
    run: the decision variable and its two increments as functions of the
    point (x, y), which is on the circle of radius [r]. *)
Definition midpoint_inv (r f ddF_x ddF_y x y : Z) : Prop :=
  ddF_x = 2 * x + 1 /\ ddF_y = -2 * y /\
  f = x * x + y * y - r * r + 2 * x - y + 1 /\
  - y <= x * x + y * y - r * r <= y.

(** ** Reading the pixel stream of a glyph *)






(** ** Reading the calls of a string *)

(** A character that the loop of [ILI9341DrawString] draws where it stands. *)
Definition is_plain (c : Z) : Prop := c <> 0 /\ c <> 10 /\ c <> 13.

(** One call per character, each one glyph width to the right of the one
    before, all on the same text line. *)
Fixpoint plain_calls (font : Font_t) (text : list Z) (lcd_x lcd_y : Z) : list (Z * Z * Z) :=
  match text with
  | [] => []
  | c :: text' =>
      (lcd_x, lcd_y, c) :: plain_calls font text' (to_uint16 (lcd_x + FontWidth font)) lcd_y
  end.

(** The static [lcd_x] after [n] characters. *)
Fixpoint cursor_after (font : Font_t) (n : nat) (lcd_x : Z) : Z :=
  match n with
  | O => lcd_x
  | S n' => cursor_after font n' (to_uint16 (lcd_x + FontWidth font))
  end.

(** ** String size *)

(** The loop of [ILI9341GetStringSize] over the memory from [str] on, with the
    static [w]; [None] when the memory given holds no terminator. *)
Fixpoint GetStringSize_loop (font : Font_t) (str : list Z) (w : Z) : option Z :=
  match str with
  | [] => None
  | c :: str' =>
      if c =? 0 then Some w
      else GetStringSize_loop font str' (to_uint16 (w + FontWidth font))
  end.

(** The pair of the values stored through [width] and [height]. *)
Definition ILI9341GetStringSize (str : list Z) (font : Font_t) : option (Z * Z) :=
  w ← GetStringSize_loop font str 0;
  Some (w, to_uint16 (FontHeight font)).

(** ** Pictures *)

(** Body of the two copy loops of [ILI9341DrawPicture]:
    [pixel[i] = pic[j * MAX_VALUE_SIZE + i]].  [pic] is the array that the
    caller passes; [None] when the read or the store falls outside. *)
Definition DrawPicture_copy (pic : list Z) (j i : Z) (pixel : list Z) : option (list Z) :=
  v ← pic !! Z.to_nat (j * MAX_VALUE_SIZE + i);
  pixel_store pixel i v.

(** The [while (bytes_count - MAX_VALUE_SIZE > 0)] loop: the transactions
    sent and the values of [pixel], [bytes_count] and [j] on exit. *)
Fixpoint DrawPicture_loop (fuel : nat) (pic pixel : list Z) (bytes_count j : Z)
  : option (list spi_transaction * list Z * Z * Z) :=
  if bytes_count - MAX_VALUE_SIZE >? 0 then
    match fuel with
    | O => None
    | S fuel' =>
        pixel ← for_loop (Z.to_nat MAX_VALUE_SIZE) 0 (DrawPicture_copy pic j) pixel;
        let lcd_pixel := lcd_cmd_init SEND_PIXELS MAX_VALUE_SIZE pixel in
        '(rest, pixel', bc, j') ←
          DrawPicture_loop fuel' pic pixel (bytes_count - MAX_VALUE_SIZE) (to_uint16 (j + 1));
        Some (WriteLCD lcd_pixel ++ rest, pixel', bc, j')
    end
  else Some ([], pixel, bytes_count, j).

(** [pixel] is the content of the static buffer on entry; the result carries
    its content on exit. *)
Definition ILI9341DrawPicture (x y width height : Z) (pic pixel : list Z)
  : option (list spi_transaction * list Z) :=
  let window :=
    SetCursorPosition x y (to_uint16 (x + width - 1)) (to_uint16 (y + height - 1)) in
  let bytes_count := to_int32 (width * height * 2) in
  let lcd_write := lcd_cmd_init MEM_WRITE 0 [] in
  '(chunks, pixel, bytes_count, j) ←
    DrawPicture_loop (Z.to_nat (bytes_count / MAX_VALUE_SIZE)) pic pixel bytes_count 0;
  pixel ← for_loop (Z.to_nat bytes_count) 0 (DrawPicture_copy pic j) pixel;
  let lcd_pixel := lcd_cmd_init SEND_PIXELS bytes_count pixel in
  Some (window ++ WriteLCD lcd_write ++ chunks ++ WriteLCD lcd_pixel, pixel).

(** * The stopwatch application *)

(** ** Button events *)

Definition EV_BIT_START_STOP : Z := Z.shiftl 1 0.
Definition EV_BIT_RESET : Z := Z.shiftl 1 1.
Definition EV_BIT_FUNC_CHANGE : Z := Z.shiftl 1 2.

(** The three pin levels read in one poll, or remembered from the poll
    before: start/stop, reset, function. *)
Record button_levels := mk_levels { lvStart : Z; lvReset : Z; lvFunc : Z }.

(** One iteration of the loop of [ButtonEvents_Task]: the arguments of the
    [xEventGroupSetBits] calls it makes, in order, and the levels it keeps
    for the next iteration. *)
Definition ButtonEvents_iteration (cur prev : button_levels) : list Z * button_levels :=
  ((if (lvStart cur =? 0) && (lvStart prev =? 1) then [EV_BIT_START_STOP] else []) ++
   (if (lvReset cur =? 0) && (lvReset prev =? 1) then [EV_BIT_RESET] else []) ++
   (if (lvFunc cur =? 0) && (lvFunc prev =? 1) then [EV_BIT_FUNC_CHANGE] else []),
   cur).

(** The task over a sequence of polls, [prev] being 1, 1, 1 at the start. *)
Fixpoint ButtonEvents_polls (polls : list button_levels) (prev : button_levels) : list Z :=
  match polls with
  | [] => []
  | cur :: polls' =>
      let '(events, prev') := ButtonEvents_iteration cur prev in
      events ++ ButtonEvents_polls polls' prev'
  end.

Definition ButtonEvents_Task (polls : list button_levels) : list Z :=
  ButtonEvents_polls polls (mk_levels 1 1 1).

(** How often [bit] was set. *)
Fixpoint events_of (bit : Z) (events : list Z) : nat :=
  match events with
  | [] => 0%nat
  | e :: events' => Nat.add (if e =? bit then 1%nat else 0%nat) (events_of bit events')
  end.

(** ** Shared state and the tasks that write it *)

(** C's [!] on an [int]. *)
Definition lnot (v : Z) : Z := if v =? 0 then 1 else 0.

Record botones_state_t := mk_botones { arrancar : Z; reset : Z; congelar : Z }.

(** The globals [botonesEstado] and [decimas] with the statics of
    [toggleTask]. *)
Record app_state := mk_app {
  botonesEstado : botones_state_t;
  decimas : Z;
  PB1State : Z;
  PB2State : Z;
  PB3State : Z
}.

Definition app_start : app_state := mk_app (mk_botones 0 0 0) 0 1 1 1.

(** One iteration of the loop of [toggleTask], [bits] being the value that
    [xEventGroupWaitBits] returned. *)
Definition toggleTask_iteration (bits : Z) (s : app_state) : app_state :=
  let s :=
    if Z.land bits EV_BIT_START_STOP =? 0 then s
    else
      let PB1State := lnot (PB1State s) in
      let arrancar := lnot PB1State in
      let congelar := if arrancar =? 0 then 1 else 0 in
      mk_app (mk_botones arrancar (reset (botonesEstado s)) congelar)
        (decimas s) PB1State (PB2State s) (PB3State s) in
  let s :=
    if Z.land bits EV_BIT_RESET =? 0 then s
    else
      mk_app (mk_botones (arrancar (botonesEstado s)) (reset (botonesEstado s)) 0)
        0 (PB1State s) (lnot (PB2State s)) (PB3State s) in
  if Z.land bits EV_BIT_FUNC_CHANGE =? 0 then s
  else
    mk_app (botonesEstado s) (decimas s) (PB1State s) (PB2State s) (lnot (PB3State s)).

(** One iteration of the loop of [decimasTask]. *)
Definition decimasTask_iteration (s : app_state) : app_state :=
  let b := botonesEstado s in
  if negb (reset b =? 0) && negb (lnot (arrancar b) =? 0) then
    mk_app b 0 (PB1State s) (PB2State s) (PB3State s)
  else if negb (arrancar b =? 0) then
    mk_app b (to_uint32 (decimas s + 1)) (PB1State s) (PB2State s) (PB3State s)
  else s.

(** What the two tasks do to the shared state, one loop iteration at a time
    in any order. *)
Inductive app_step :=
| ToggleStep (bits : Z)
| DecimasStep.

Definition run_step (s : app_state) (st : app_step) : app_state :=
  match st with
  | ToggleStep bits => toggleTask_iteration bits s
  | DecimasStep => decimasTask_iteration s
  end.

Definition run_steps (steps : list app_step) (s : app_state) : app_state :=
  fold_left run_step steps s.

(** Number of iterations of [toggleTask] that saw the start/stop bit. *)
Fixpoint start_stop_events (steps : list app_step) : nat :=
  match steps with
  | [] => 0%nat
  | ToggleStep bits :: steps' =>
      Nat.add (if Z.land bits EV_BIT_START_STOP =? 0 then 0%nat else 1%nat)
        (start_stop_events steps')
  | DecimasStep :: steps' => start_stop_events steps'
  end.

(** What holds of the shared state between iterations, after [n] start/stop
    events. *)
Definition app_inv (n : nat) (s : app_state) : Prop :=
  let b := botonesEstado s in
  arrancar b = Z.of_nat n `mod` 2 /\
  PB1State s = 1 - arrancar b /\
  reset b = 0 /\
  (congelar b = 0 \/ congelar b = 1 /\ arrancar b = 0) /\
  0 <= decimas s < 2 ^ 32.

(** ** The display task *)

Definition DIGITO_APAGADO : Z := 0x1800.
Definition OFFSET_X : Z := 10.

Definition displayTask_mins (total : Z) : Z := to_uint32 (total / 6000).
Definition displayTask_secs (total : Z) : Z := to_uint32 ((total / 100) `mod` 60).
Definition displayTask_d (total : Z) : Z := to_uint32 (total `mod` 100).

(** The digit arguments of the six [DibujarDigito] calls: minutes, seconds,
    hundredths, each tens first. *)
Definition displayTask_digits (total : Z) : list Z :=
  let mins := displayTask_mins total in
  let secs := displayTask_secs total in
  let d := displayTask_d total in
  [mins / 10; mins `mod` 10; secs / 10; secs `mod` 10; d / 10; d `mod` 10].

(** [DIGITO_ENCENDIDO] is a colour of the display header. *)
Definition displayTask_circleColor (DIGITO_ENCENDIDO total : Z) : Z :=
  if displayTask_secs total `mod` 2 >? 0 then DIGITO_APAGADO else DIGITO_ENCENDIDO.

(** The conversion [%lu] of the C library: the decimal digits of [v] as
    character codes, most significant first. *)
Fixpoint print_lu (fuel : nat) (v : Z) : list Z :=
  match fuel with
  | O => []
  | S fuel' => (if v <? 10 then [] else print_lu fuel' (v / 10)) ++ [48 + v `mod` 10]
  end.

(** [%02lu]: at least two characters, padded on the left with the digit 0.
    An [unsigned long] of 32 bits has at most ten digits. *)
Definition print_02lu (v : Z) : list Z :=
  let digits := print_lu 10 v in
  replicate (2 - length digits) 48 ++ digits.

(** [buf] from its start up to the terminator after
    [snprintf(buf, sizeof(buf), "%02lu:%02lu.%02lu", pmin, psec, pde)] with
    the 16 byte buffer, for a lap time [p]: at most 15 characters. *)
Definition displayTask_buf (p : Z) : list Z :=
  let pmin := to_uint32 ((p / 6000) `mod` 100) in
  let psec := to_uint32 ((p / 100) `mod` 60) in
  let pde := to_uint32 (p `mod` 100) in
  take 15 (print_02lu pmin ++ [58] ++ print_02lu psec ++ [46] ++ print_02lu pde) ++ [0].

(** The [ILI9341DrawChar] calls that lap time number [i] leads to, [beyond]
    being the memory behind the terminator in [buf]. *)
Definition displayTask_partial_calls (p i : Z) (beyond : list Z) (font : Font_t)
  : list (Z * Z * Z) * walk_end :=
  ILI9341DrawString_calls (to_uint16 (30 + OFFSET_X)) (to_uint16 (180 + 36 * i))
    (displayTask_buf p ++ beyond) font.
(** * Proofs *)

(** ** Integer conversions *)

Lemma to_uint8_small z : 0 <= z < 256 -> to_uint8 z = z.
Proof. intros H. unfold to_uint8. apply Z.mod_small. lia. Qed.

Lemma to_uint32_small z : 0 <= z < 2 ^ 32 -> to_uint32 z = z.
Proof. intros H. unfold to_uint32. apply Z.mod_small. lia. Qed.

Lemma to_uint16_small z : is_uint16 z -> to_uint16 z = z.
Proof. intros H. unfold to_uint16. apply Z.mod_small. exact H. Qed.

Lemma to_int16_small z : is_int16 z -> to_int16 z = z.
Proof.
  unfold is_int16, to_int16. intros H.
  rewrite Z.mod_small by lia. lia.
Qed.

Lemma to_int32_small z : - 2 ^ 31 <= z < 2 ^ 31 -> to_int32 z = z.
Proof.
  unfold to_int32. intros H.
  rewrite Z.mod_small by lia. lia.
Qed.

Lemma HighByte_uint16 x : is_uint16 x -> HighByte x = x `div` 256.
Proof.
  unfold is_uint16, HighByte. intros H.
  rewrite Z.shiftr_div_pow2 by lia. change (2 ^ 8) with 256.
  apply to_uint8_small. split.
  - apply Z.div_pos; lia.
  - apply Z.div_lt_upper_bound; lia.
Qed.

Lemma LowByte_nonneg x : 0 <= x -> LowByte x = x `mod` 256.
Proof.
  unfold LowByte. intros H.
  change 255 with (Z.ones 8). rewrite Z.land_ones by lia. change (2 ^ 8) with 256.
  apply to_uint8_small. apply Z.mod_pos_bound. lia.
Qed.

Lemma HighByte_range x : 0 <= HighByte x < 256.
Proof. unfold HighByte, to_uint8. apply Z.mod_pos_bound. lia. Qed.

Lemma LowByte_range x : 0 <= LowByte x < 256.
Proof. unfold LowByte, to_uint8. apply Z.mod_pos_bound. lia. Qed.

(** ** Transport *)

Lemma WriteLCD_command_only c :
  0 < c < 256 -> WriteLCD (lcd_cmd_init c 0 []) = [TxCommand c].
Proof.
  intros H. unfold WriteLCD, lcd_cmd_init, lcd_cmd. simpl.
  rewrite to_uint8_small by lia.
  destruct (Z.eqb_spec c 0); [lia | reflexivity].
Qed.

Lemma WriteLCD_pixels n buf :
  0 < n < 2 ^ 31 ->
  WriteLCD (lcd_cmd_init SEND_PIXELS n buf) = [TxData n (take (Z.to_nat n) buf)].
Proof.
  intros H. unfold WriteLCD, lcd_cmd_init, lcd_data. simpl.
  rewrite to_uint32_small by lia. rewrite to_int32_small by lia.
  destruct (Z.eqb_spec n 0); [lia | reflexivity].
Qed.

Lemma WriteLCD_params c a b c' d :
  0 < c < 256 ->
  WriteLCD (lcd_cmd_init c 4 [a; b; c'; d]) = [TxCommand c; TxData 4 [a; b; c'; d]].
Proof.
  intros H. unfold WriteLCD, lcd_cmd_init, lcd_cmd, lcd_data. simpl.
  rewrite to_uint8_small by lia.
  destruct (Z.eqb_spec c 0); [lia | reflexivity].
Qed.

(** ** Window selection *)

Lemma SetCursorPosition_sorted x0 y0 x1 y1 :
  SetCursorPosition x0 y0 x1 y1
  = [TxCommand COLUMN_ADDR_SET;
     TxData 4 [HighByte (Z.min x0 x1); LowByte (Z.min x0 x1);
               HighByte (Z.max x0 x1); LowByte (Z.max x0 x1)];
     TxCommand PAGE_ADDR_SET;
     TxData 4 [HighByte (Z.min y0 y1); LowByte (Z.min y0 y1);
               HighByte (Z.max y0 y1); LowByte (Z.max y0 y1)]].
Proof.
  unfold SetCursorPosition.
  assert (Hx : (if x0 >? x1 then (x1, x0) else (x0, x1)) = (Z.min x0 x1, Z.max x0 x1)).
  { destruct (Z.gtb_spec x0 x1); f_equal; lia. }
  assert (Hy : (if y0 >? y1 then (y1, y0) else (y0, y1)) = (Z.min y0 y1, Z.max y0 y1)).
  { destruct (Z.gtb_spec y0 y1); f_equal; lia. }
  rewrite Hx, Hy.
  rewrite !WriteLCD_params by (unfold COLUMN_ADDR_SET, PAGE_ADDR_SET; lia).
  reflexivity.
Qed.

Lemma pixel_stream_after_window x0 y0 x1 y1 rest :
  pixel_stream (SetCursorPosition x0 y0 x1 y1 ++ TxCommand MEM_WRITE :: rest) = rest.
Proof. rewrite SetCursorPosition_sorted. reflexivity. Qed.

(** C4: whatever corner order the caller passes, [SetCursorPosition] sends the
    column-address command followed by the big-endian bytes of min(x0,x1) and
    max(x0,x1), then the row-address command followed by the big-endian bytes
    of min(y0,y1) and max(y0,y1). *)
Theorem SetCursorPosition_normalizes x0 y0 x1 y1 :
  is_uint16 x0 -> is_uint16 y0 -> is_uint16 x1 -> is_uint16 y1 ->
  SetCursorPosition x0 y0 x1 y1
  = [TxCommand COLUMN_ADDR_SET; TxData 4 (be16 (Z.min x0 x1) ++ be16 (Z.max x0 x1));
     TxCommand PAGE_ADDR_SET; TxData 4 (be16 (Z.min y0 y1) ++ be16 (Z.max y0 y1))]
  /\ SetCursorPosition x1 y1 x0 y0 = SetCursorPosition x0 y0 x1 y1.
Proof.
  unfold is_uint16. intros Hx0 Hy0 Hx1 Hy1. split.
  - rewrite SetCursorPosition_sorted. unfold be16. simpl.
    rewrite !HighByte_uint16 by (unfold is_uint16; lia).
    rewrite !LowByte_nonneg by lia.
    reflexivity.
  - rewrite !SetCursorPosition_sorted.
    rewrite (Z.min_comm x1 x0), (Z.max_comm x1 x0), (Z.min_comm y1 y0), (Z.max_comm y1 y0).
    reflexivity.
Qed.

Lemma SetCursorPosition_normalizes_witness :
  SetCursorPosition 239 7 16 300
  = [TxCommand 0x2A; TxData 4 [0; 16; 0; 239]; TxCommand 0x2B; TxData 4 [0; 7; 1; 44]].
Proof.
  refine (eq_trans (proj1 (SetCursorPosition_normalizes 239 7 16 300 _ _ _ _)) _);
    unfold is_uint16; try lia.
  reflexivity.
Defined.

(** ** Rectangle fill *)

Lemma Fill_pixel_length color : length (Fill_pixel color) = 256%nat.
Proof. reflexivity. Qed.

Lemma WriteLCD_full_chunk pixel :
  WriteLCD (lcd_cmd_init SEND_PIXELS MAX_VALUE_SIZE pixel)
  = [TxData MAX_VALUE_SIZE (take 256 pixel)].
Proof. reflexivity. Qed.

(** With a budget of at least [(bc - 1) / 256] iterations the loop runs to the
    end: it sends that many full buffers and leaves between 1 and 256 bytes. *)
Lemma Fill_loop_runs fuel pixel bc :
  0 < bc -> (bc - 1) `div` 256 <= Z.of_nat fuel ->
  Fill_loop fuel pixel bc
  = Some (replicate (Z.to_nat ((bc - 1) `div` 256)) (TxData MAX_VALUE_SIZE (take 256 pixel)),
          bc - 256 * ((bc - 1) `div` 256)).
Proof.
  revert bc. induction fuel as [|fuel IH]; intros bc Hpos Hfuel.
  - assert (Hq : (bc - 1) `div` 256 = 0).
    { assert (0 <= (bc - 1) `div` 256) by (apply Z.div_pos; lia). lia. }
    assert (bc <= 256).
    { destruct (Z_le_gt_dec bc 256) as [|Hgt]; [assumption|].
      assert (1 <= (bc - 1) `div` 256) by (apply Z.div_le_lower_bound; lia). lia. }
    simpl. unfold MAX_VALUE_SIZE at 1.
    destruct (Z.gtb_spec (bc - 256) 0); [lia|].
    rewrite Hq. simpl. do 2 f_equal. lia.
  - cbn [Fill_loop]. unfold MAX_VALUE_SIZE at 1.
    destruct (Z.gtb_spec (bc - 256) 0) as [Hgt|Hle].
    + assert (Hstep : (bc - 1) `div` 256 = (bc - 256 - 1) `div` 256 + 1).
      { replace (bc - 1) with (bc - 256 - 1 + 1 * 256) by lia.
        rewrite Z.div_add by lia. reflexivity. }
      assert (0 <= (bc - 256 - 1) `div` 256) by (apply Z.div_pos; lia).
      unfold MAX_VALUE_SIZE at 2. rewrite IH by lia.
      rewrite WriteLCD_full_chunk. simpl. rewrite Hstep.
      rewrite Z2Nat.inj_add by lia. rewrite (Nat.add_comm _ (Z.to_nat 1)). simpl.
      do 2 f_equal. lia.
    + assert (Hq : (bc - 1) `div` 256 = 0) by (apply Z.div_small; lia).
      rewrite Hq. simpl. do 2 f_equal. lia.
Qed.

(** The two distances of [Fill] when both spans fit in [int16_t]. *)
Lemma Fill_dist a b :
  Z.abs (b - a) < 2 ^ 15 ->
  (if a >? b then to_int16 (- to_int16 (b - a)) else to_int16 (b - a)) = Z.abs (b - a).
Proof.
  intros H. destruct (Z.gtb_spec a b).
  - rewrite (to_int16_small (b - a)) by (unfold is_int16; lia).
    rewrite to_int16_small by (unfold is_int16; lia). lia.
  - rewrite to_int16_small by (unfold is_int16; lia). lia.
Qed.

(** Shape of the whole trace of [Fill] for spans that fit in [int16_t]. *)
Lemma Fill_trace x0 y0 x1 y1 color :
  let n := (Z.abs (x1 - x0) + 1) * (Z.abs (y1 - y0) + 1) * 2 in
  Z.abs (x1 - x0) < 2 ^ 15 -> Z.abs (y1 - y0) < 2 ^ 15 -> n < 2 ^ 31 ->
  Fill x0 y0 x1 y1 color
  = Some (SetCursorPosition x0 y0 x1 y1 ++ TxCommand MEM_WRITE ::
          replicate (Z.to_nat ((n - 1) `div` 256)) (TxData MAX_VALUE_SIZE (Fill_pixel color)) ++
          [TxData (n - 256 * ((n - 1) `div` 256))
             (take (Z.to_nat (n - 256 * ((n - 1) `div` 256))) (Fill_pixel color))]).
Proof.
  intros n Hx Hy Hn. unfold Fill.
  rewrite (Fill_dist x0 x1 Hx), (Fill_dist y0 y1 Hy). fold n.
  assert (Hn2 : 2 <= n) by (unfold n; nia).
  rewrite (to_int32_small n) by lia.
  assert (Hq : 0 <= (n - 1) `div` 256 <= n `div` 256).
  { split; [apply Z.div_pos; lia | apply Z.div_le_mono; lia]. }
  rewrite Fill_loop_runs by (unfold MAX_VALUE_SIZE; lia).
  cbn [mbind option_bind].
  assert (Hr : 0 < n - 256 * ((n - 1) `div` 256) <= 256).
  { pose proof (Z.div_mod (n - 1) 256 ltac:(lia)).
    pose proof (Z.mod_pos_bound (n - 1) 256 ltac:(lia)). lia. }
  rewrite WriteLCD_pixels by lia.
  rewrite WriteLCD_command_only by (unfold MEM_WRITE; lia).
  rewrite (take_ge (Fill_pixel color) 256) by (rewrite Fill_pixel_length; lia).
  reflexivity.
Qed.

(** The budget handed to the loop by [Fill] is enough for every input:
    [Fill] always returns. *)
Lemma Fill_returns x0 y0 x1 y1 color : exists tr, Fill x0 y0 x1 y1 color = Some tr.
Proof.
  unfold Fill.
  set (bc := to_int32 _).
  assert (Hloop : exists r, Fill_loop (Z.to_nat (bc `div` MAX_VALUE_SIZE))
                              (Fill_pixel color) bc = Some r).
  { unfold MAX_VALUE_SIZE. destruct (Z_le_gt_dec bc 256) as [Hle|Hgt].
    - destruct (Z.to_nat (bc `div` 256)); cbn [Fill_loop]; unfold MAX_VALUE_SIZE;
        (destruct (Z.gtb_spec (bc - 256) 0); [lia | eauto]).
    - eexists. apply Fill_loop_runs; [lia|].
      assert ((bc - 1) `div` 256 <= bc `div` 256) by (apply Z.div_le_mono; lia).
      assert (0 <= bc `div` 256) by (apply Z.div_pos; lia). lia. }
  destruct Hloop as ([chunks left] & ->). cbn [mbind option_bind]. eauto.
Qed.

(** *** Contents of the stream *)

Lemma join_replicate_add {A} (a b : nat) (x : list A) :
  mjoin (replicate (a + b) x) = mjoin (replicate a x) ++ mjoin (replicate b x).
Proof. rewrite replicate_add, join_app. reflexivity. Qed.

Lemma join_replicate_mul {A} (q k : nat) (x : list A) :
  mjoin (replicate q (mjoin (replicate k x))) = mjoin (replicate (q * k) x).
Proof.
  induction q as [|q IH]; [reflexivity|].
  cbn [replicate Nat.mul]. rewrite join_replicate_add, <- IH. reflexivity.
Qed.

Lemma take_pairs {A} (m k : nat) (h l : A) :
  (m <= k)%nat ->
  take (2 * m) (mjoin (replicate k [h; l])) = mjoin (replicate m [h; l]).
Proof.
  revert k. induction m as [|m IH]; intros k Hk; [reflexivity|].
  destruct k as [|k]; [lia|].
  replace (2 * S m)%nat with (S (S (2 * m))) by lia.
  change (mjoin (replicate (S k) [h; l])) with (h :: l :: mjoin (replicate k [h; l])).
  change (mjoin (replicate (S m) [h; l])) with (h :: l :: mjoin (replicate m [h; l])).
  cbn [take]. rewrite IH by lia. reflexivity.
Qed.

Lemma length_join_pairs {A} (m : nat) (h l : A) :
  length (mjoin (replicate m [h; l])) = (2 * m)%nat.
Proof.
  induction m as [|m IH]; [reflexivity|].
  change (mjoin (replicate (S m) [h; l])) with (h :: l :: mjoin (replicate m [h; l])).
  cbn [length]. rewrite IH. lia.
Qed.

Lemma payload_bytes_app tr1 tr2 :
  payload_bytes (tr1 ++ tr2) = payload_bytes tr1 ++ payload_bytes tr2.
Proof. unfold payload_bytes. rewrite fmap_app, join_app. reflexivity. Qed.

Lemma payload_bytes_replicate q len bytes :
  payload_bytes (replicate q (TxData len bytes)) = mjoin (replicate q bytes).
Proof. unfold payload_bytes. rewrite fmap_replicate. reflexivity. Qed.

Lemma requested_bytes_app tr1 tr2 :
  requested_bytes (tr1 ++ tr2) = requested_bytes tr1 + requested_bytes tr2.
Proof.
  unfold requested_bytes, chunk_lengths. induction tr1 as [|t tr1 IH].
  - reflexivity.
  - cbn [app fmap list_fmap foldr]. rewrite IH. lia.
Qed.

Lemma requested_bytes_replicate q len bytes :
  requested_bytes (replicate q (TxData len bytes)) = Z.of_nat q * len.
Proof.
  unfold requested_bytes, chunk_lengths. induction q as [|q IH].
  - reflexivity.
  - cbn [replicate fmap list_fmap foldr tx_len]. rewrite IH. lia.
Qed.

(** The bytes carried by [q] full buffers followed by the first [r] bytes of
    the buffer, [r] even: the colour, repeated. *)
Lemma Fill_stream_bytes color (q : nat) (r : Z) :
  0 <= r <= 256 -> r `mod` 2 = 0 ->
  payload_bytes (replicate q (TxData MAX_VALUE_SIZE (Fill_pixel color)) ++
                 [TxData r (take (Z.to_nat r) (Fill_pixel color))])
  = mjoin (replicate (q * 128 + Z.to_nat (r `div` 2)) [HighByte color; LowByte color]).
Proof.
  intros Hr Heven.
  rewrite payload_bytes_app, payload_bytes_replicate.
  unfold payload_bytes. cbn [fmap list_fmap tx_payload mjoin list_join].
  rewrite app_nil_r.
  unfold Fill_pixel. change (Z.to_nat (MAX_VALUE_SIZE `div` 2)) with 128%nat.
  rewrite join_replicate_mul, join_replicate_add. f_equal.
  assert (Hm : Z.to_nat r = (2 * Z.to_nat (r `div` 2))%nat).
  { pose proof (Z.div_mod r 2 ltac:(lia)). lia. }
  rewrite Hm. apply take_pairs.
  assert (r `div` 2 <= 128) by (apply Z.div_le_upper_bound; lia). lia.
Qed.

(** C1 (amended): when both spans fit in [int16_t] and the byte count fits in
    [int32_t], the pixel stream of [Fill] carries exactly
    (|x1-x0|+1) * (|y1-y0|+1) * 2 bytes: the colour's two bytes repeated, every
    transfer being a prefix of the one buffer that was filled before the
    memory-write command. *)
Theorem Fill_total_bytes x0 y0 x1 y1 color :
  Z.abs (x1 - x0) < 2 ^ 15 -> Z.abs (y1 - y0) < 2 ^ 15 ->
  (Z.abs (x1 - x0) + 1) * (Z.abs (y1 - y0) + 1) * 2 < 2 ^ 31 ->
  Fill_byte_exact x0 y0 x1 y1 color /\
  exists tr, Fill x0 y0 x1 y1 color = Some tr /\
    requested_bytes (pixel_stream tr)
    = (Z.abs (x1 - x0) + 1) * (Z.abs (y1 - y0) + 1) * 2 /\
    payload_bytes (pixel_stream tr)
    = mjoin (replicate (Z.to_nat ((Z.abs (x1 - x0) + 1) * (Z.abs (y1 - y0) + 1)))
               [HighByte color; LowByte color]) /\
    Forall (fun t => exists len, 0 < len <= MAX_VALUE_SIZE /\
                       t = TxData len (take (Z.to_nat len) (Fill_pixel color)))
           (pixel_stream tr).
Proof.
  intros Hx Hy Hn.
  pose proof (Fill_trace x0 y0 x1 y1 color Hx Hy Hn) as Htr. cbv zeta in Htr.
  set (p := (Z.abs (x1 - x0) + 1) * (Z.abs (y1 - y0) + 1)) in *.
  set (n := p * 2) in *.
  assert (Hp : 1 <= p) by (unfold p; nia).
  set (q := (n - 1) `div` 256) in *.
  assert (Hq : 0 <= q) by (apply Z.div_pos; lia).
  assert (Hr : 0 < n - 256 * q <= 256).
  { pose proof (Z.div_mod (n - 1) 256 ltac:(lia)).
    pose proof (Z.mod_pos_bound (n - 1) 256 ltac:(lia)). unfold q. lia. }
  assert (Heven : (n - 256 * q) `mod` 2 = 0).
  { replace (n - 256 * q) with ((p - 128 * q) * 2) by (unfold n; lia).
    apply Z.mod_mul. lia. }
  assert (Hhalf : (n - 256 * q) `div` 2 = p - 128 * q).
  { replace (n - 256 * q) with ((p - 128 * q) * 2) by (unfold n; lia).
    apply Z.div_mul. lia. }
  assert (Hbytes : payload_bytes (replicate (Z.to_nat q) (TxData MAX_VALUE_SIZE (Fill_pixel color)) ++
                     [TxData (n - 256 * q) (take (Z.to_nat (n - 256 * q)) (Fill_pixel color))])
                   = mjoin (replicate (Z.to_nat p) [HighByte color; LowByte color])).
  { rewrite Fill_stream_bytes by lia. do 2 f_equal. rewrite Hhalf. lia. }
  split.
  - eexists. split; [exact Htr|].
    rewrite pixel_stream_after_window, Hbytes, length_join_pairs. lia.
  - eexists. split; [exact Htr|].
    rewrite pixel_stream_after_window. split; [|split].
    + rewrite requested_bytes_app, requested_bytes_replicate.
      unfold requested_bytes, MAX_VALUE_SIZE. simpl. lia.
    + exact Hbytes.
    + apply Forall_app. split.
      * apply Forall_replicate. exists MAX_VALUE_SIZE. split; [unfold MAX_VALUE_SIZE; lia|].
        rewrite take_ge; [reflexivity|]. rewrite Fill_pixel_length. reflexivity.
      * apply Forall_singleton. exists (n - 256 * q). unfold MAX_VALUE_SIZE. split; [lia|reflexivity].
Qed.

(** The scenario of the specification: [Fill(0,0,239,319,0xF800)] streams
    240*320*2 = 153600 bytes of alternating 0xF8, 0x00. *)
Lemma Fill_total_bytes_witness :
  Fill_byte_exact 0 0 239 319 0xF800 /\
  exists tr, Fill 0 0 239 319 0xF800 = Some tr /\
    requested_bytes (pixel_stream tr) = 153600 /\
    payload_bytes (pixel_stream tr) = mjoin (replicate (Z.to_nat 76800) [0xF8; 0x00]) /\
    Forall (fun t => exists len, 0 < len <= MAX_VALUE_SIZE /\
                       t = TxData len (take (Z.to_nat len) (Fill_pixel 0xF800)))
           (pixel_stream tr).
Proof.
  apply (Fill_total_bytes 0 0 239 319 0xF800); vm_compute; reflexivity.
Defined.

(** C1 as stated fails once a span leaves [int16_t]: for [Fill(0,0,40000,0,_)]
    the distance wraps to -25536, [bytes_count] is -51070, the loop is skipped
    and the only transfer requested has that negative length. *)
Lemma Fill_byte_exact_fails_wide_span : ~ Fill_byte_exact 0 0 40000 0 0xF800.
Proof.
  intros (tr & Htr & Hlen).
  vm_compute in Htr. injection Htr as <-.
  vm_compute in Hlen. discriminate Hlen.
Qed.

(** C2 (amended): when both spans fit in [int16_t] and the byte count [n] fits
    in [int32_t], the pixel stream of [Fill] is floor(n/256) transfers of the
    full 256-byte buffer followed by one transfer of n mod 256 bytes, which is
    absent when n is a multiple of 256; no transfer is empty. *)
Theorem Fill_chunking x0 y0 x1 y1 color :
  Z.abs (x1 - x0) < 2 ^ 15 -> Z.abs (y1 - y0) < 2 ^ 15 ->
  (Z.abs (x1 - x0) + 1) * (Z.abs (y1 - y0) + 1) * 2 < 2 ^ 31 ->
  Fill_chunks_as_claimed x0 y0 x1 y1 color /\
  exists tr, Fill x0 y0 x1 y1 color = Some tr /\
    Forall (fun t => exists len bytes, t = TxData len bytes /\ 0 < len <= MAX_VALUE_SIZE /\
                       Z.of_nat (length bytes) = len)
           (pixel_stream tr).
Proof.
  intros Hx Hy Hn.
  pose proof (Fill_trace x0 y0 x1 y1 color Hx Hy Hn) as Htr. cbv zeta in Htr.
  set (n := (Z.abs (x1 - x0) + 1) * (Z.abs (y1 - y0) + 1) * 2) in *.
  assert (Hn2 : 2 <= n) by (unfold n; nia).
  set (q := (n - 1) `div` 256) in *.
  assert (Hq : 0 <= q) by (apply Z.div_pos; lia).
  assert (Hr : 0 < n - 256 * q <= 256).
  { pose proof (Z.div_mod (n - 1) 256 ltac:(lia)).
    pose proof (Z.mod_pos_bound (n - 1) 256 ltac:(lia)). unfold q. lia. }
  split.
  - exists (SetCursorPosition x0 y0 x1 y1 ++ TxCommand MEM_WRITE ::
            replicate (Z.to_nat q) (TxData MAX_VALUE_SIZE (Fill_pixel color)) ++
            [TxData (n - 256 * q) (take (Z.to_nat (n - 256 * q)) (Fill_pixel color))]).
    split; [exact Htr|].
    rewrite pixel_stream_after_window. unfold chunked. fold n.
    unfold MAX_VALUE_SIZE.
    pose proof (Z.div_mod n 256 ltac:(lia)) as Hdm.
    pose proof (Z.mod_pos_bound n 256 ltac:(lia)) as Hmb.
    pose proof (Z.div_mod (n - 1) 256 ltac:(lia)) as Hdm1.
    pose proof (Z.mod_pos_bound (n - 1) 256 ltac:(lia)) as Hmb1.
    fold q in Hdm1.
    destruct (Z.eqb_spec (n `mod` 256) 0) as [Hz|Hnz].
    + assert (Hqq : n `div` 256 = q + 1) by lia.
      assert (Hrr : n - 256 * q = 256) by lia.
      rewrite Hqq, Hrr, app_nil_r.
      rewrite take_ge by (rewrite Fill_pixel_length; lia).
      rewrite Z2Nat.inj_add by lia. rewrite replicate_add. reflexivity.
    + assert (Hqq : n `div` 256 = q) by lia.
      assert (Hrr : n - 256 * q = n `mod` 256) by lia.
      rewrite Hqq, Hrr. reflexivity.
  - eexists. split; [exact Htr|].
    rewrite pixel_stream_after_window. apply Forall_app. split.
    + apply Forall_replicate. eexists _, _. split; [reflexivity|].
      rewrite Fill_pixel_length. unfold MAX_VALUE_SIZE. lia.
    + apply Forall_singleton. eexists _, _. split; [reflexivity|].
      unfold MAX_VALUE_SIZE. split; [lia|].
      rewrite length_take, Fill_pixel_length. lia.
Qed.

(** A 128 x 2 rectangle is 512 bytes: two full transfers and nothing after. *)
Lemma Fill_chunking_witness :
  Fill_chunks_as_claimed 10 20 137 21 0x07E0 /\
  exists tr, Fill 10 20 137 21 0x07E0 = Some tr /\
    Forall (fun t => exists len bytes, t = TxData len bytes /\ 0 < len <= MAX_VALUE_SIZE /\
                       Z.of_nat (length bytes) = len)
           (pixel_stream tr).
Proof.
  apply (Fill_chunking 10 20 137 21 0x07E0); vm_compute; reflexivity.
Defined.

(** C2 as stated fails once a span leaves [int16_t]: [Fill(0,0,0,50000,_)] is a
    1 x 50001 rectangle, yet the stream is a single request of -31070 bytes. *)
Lemma Fill_chunks_fail_tall_span : ~ Fill_chunks_as_claimed 0 0 0 50000 0xF800.
Proof.
  intros (tr & Htr & Hch).
  vm_compute in Htr. injection Htr as <-.
  vm_compute in Hch. discriminate Hch.
Qed.

(** ** Orientation *)

Lemma ILI9341Rotate_eq W H o lcd :
  ILI9341Rotate W H o lcd
  = ((ILI9341Rotate_case W H o).2,
     [TxCommand MEM_ACC_CTRL; TxData 1 [(ILI9341Rotate_case W H o).1]]).
Proof. destruct o; reflexivity. Qed.

(** C6: a rotation writes the stored width, height and orientation and sends
    a memory-access-control byte that depend on the requested orientation
    only.  Hence, from the state left by any rotation to [o] (or from the
    boot-time default, for [ILI9341_Portrait_1]), going through all four
    orientations, in fact through any sequence of them, and back to [o]
    restores width, height and the memory-access-control byte. *)
Theorem ILI9341Rotate_round_trip W H (o : ili9341_orientation_t)
    (lcd : orientation_properties_t) (tour : list ili9341_orientation_t) :
  let all_four := [ILI9341_Portrait_1; ILI9341_Portrait_2;
                   ILI9341_Landscape_1; ILI9341_Landscape_2] in
  let start := ILI9341Rotate W H o lcd in
  ILI9341Rotate W H o (rotate_through W H all_four start.1) = start /\
  ILI9341Rotate W H o (rotate_through W H tour start.1) = start /\
  (forall lcd', ILI9341Rotate W H o lcd' = start) /\
  ILI9341Rotate W H ILI9341_Portrait_1 (rotate_through W H all_four (lcd_orientation W H))
  = (lcd_orientation W H, [TxCommand MEM_ACC_CTRL; TxData 1 mem_acc_ctrl]).
Proof.
  cbv zeta. rewrite !ILI9341Rotate_eq. repeat split.
  intros lcd'. rewrite ILI9341Rotate_eq. reflexivity.
Qed.

(** ** Whole-screen fill *)

Lemma ILI9341Fill_state lcd color :
  0 <= width lcd < 2 ^ 15 - 1 -> 0 <= height lcd < 2 ^ 15 - 1 ->
  exists tr, ILI9341Fill lcd color = Some tr /\
    take 4 tr = [TxCommand COLUMN_ADDR_SET; TxData 4 (be16 0 ++ be16 (width lcd));
                 TxCommand PAGE_ADDR_SET; TxData 4 (be16 0 ++ be16 (height lcd))] /\
    Z.of_nat (length (payload_bytes (pixel_stream tr)))
    = (width lcd + 1) * (height lcd + 1) * 2.
Proof.
  intros Hw Hh. unfold ILI9341Fill.
  assert (Hx : Z.abs (width lcd - 0) < 2 ^ 15) by lia.
  assert (Hy : Z.abs (height lcd - 0) < 2 ^ 15) by lia.
  assert (Hn : (Z.abs (width lcd - 0) + 1) * (Z.abs (height lcd - 0) + 1) * 2 < 2 ^ 31) by nia.
  pose proof (Fill_trace 0 0 (width lcd) (height lcd) color Hx Hy Hn) as Htr.
  cbv zeta in Htr.
  set (n := (Z.abs (width lcd - 0) + 1) * (Z.abs (height lcd - 0) + 1) * 2) in *.
  assert (Hp : n = (width lcd + 1) * (height lcd + 1) * 2) by (unfold n; lia).
  set (q := (n - 1) `div` 256) in *.
  assert (Hq : 0 <= q) by (apply Z.div_pos; lia).
  assert (Hr : 0 < n - 256 * q <= 256).
  { pose proof (Z.div_mod (n - 1) 256 ltac:(lia)).
    pose proof (Z.mod_pos_bound (n - 1) 256 ltac:(lia)). unfold q. lia. }
  eexists. split; [exact Htr|]. split.
  - rewrite SetCursorPosition_sorted. cbn [app take be16].
    rewrite !Z.min_l, !Z.max_r by lia.
    rewrite !HighByte_uint16 by (unfold is_uint16; lia).
    rewrite !LowByte_nonneg by lia. reflexivity.
  - rewrite pixel_stream_after_window.
    rewrite Fill_stream_bytes; [rewrite length_join_pairs | lia |].
    + assert (Hhalf : (n - 256 * q) `div` 2 = (width lcd + 1) * (height lcd + 1) - 128 * q).
      { replace (n - 256 * q)
          with (((width lcd + 1) * (height lcd + 1) - 128 * q) * 2) by lia.
        apply Z.div_mul. lia. }
      rewrite Hhalf. nia.
    + replace (n - 256 * q)
        with (((width lcd + 1) * (height lcd + 1) - 128 * q) * 2) by lia.
      apply Z.mod_mul. lia.
Qed.

(** C9: in every orientation [ILI9341Fill] passes (width, height) as the
    inclusive far corner of [Fill]: the window runs from column 0 to column
    [width] and from row 0 to row [height], one past the last addressable
    column width-1 and row height-1, and (width+1)*(height+1)*2 bytes are
    streamed. *)
Theorem ILI9341Fill_one_past_the_edge W H (o : ili9341_orientation_t)
    (lcd0 : orientation_properties_t) (color : Z) :
  0 <= W < 2 ^ 15 - 1 -> 0 <= H < 2 ^ 15 - 1 ->
  let lcd := (ILI9341Rotate W H o lcd0).1 in
  ILI9341Fill lcd color = Fill 0 0 (width lcd) (height lcd) color /\
  ((width lcd = W /\ height lcd = H) \/ (width lcd = H /\ height lcd = W)) /\
  exists tr, ILI9341Fill lcd color = Some tr /\
    take 4 tr = [TxCommand COLUMN_ADDR_SET; TxData 4 (be16 0 ++ be16 (width lcd - 1 + 1));
                 TxCommand PAGE_ADDR_SET; TxData 4 (be16 0 ++ be16 (height lcd - 1 + 1))] /\
    Z.of_nat (length (payload_bytes (pixel_stream tr)))
    = (width lcd + 1) * (height lcd + 1) * 2.
Proof.
  intros HW HH lcd.
  assert (Hdim : (width lcd = W /\ height lcd = H) \/ (width lcd = H /\ height lcd = W)).
  { unfold lcd. rewrite ILI9341Rotate_eq.
    destruct o; cbn [fst snd ILI9341Rotate_case width height];
      rewrite !to_uint16_small by (unfold is_uint16; lia); auto. }
  split; [reflexivity|]. split; [exact Hdim|].
  replace (width lcd - 1 + 1) with (width lcd) by lia.
  replace (height lcd - 1 + 1) with (height lcd) by lia.
  apply ILI9341Fill_state; lia.
Qed.

Lemma ILI9341Fill_one_past_the_edge_witness :
  let lcd := (ILI9341Rotate 240 320 ILI9341_Landscape_1 (lcd_orientation 240 320)).1 in
  ILI9341Fill lcd 0 = Fill 0 0 320 240 0 /\
  ((width lcd = 240 /\ height lcd = 320) \/ (width lcd = 320 /\ height lcd = 240)) /\
  exists tr, ILI9341Fill lcd 0 = Some tr /\
    take 4 tr = [TxCommand 0x2A; TxData 4 [0; 0; 1; 64];
                 TxCommand 0x2B; TxData 4 [0; 0; 0; 240]] /\
    Z.of_nat (length (payload_bytes (pixel_stream tr))) = 321 * 241 * 2.
Proof.
  apply (ILI9341Fill_one_past_the_edge 240 320 ILI9341_Landscape_1
           (lcd_orientation 240 320) 0); lia.
Defined.

(** ** Lines *)

Lemma DrawLine_clamp_min d v :
  0 < d <= 2 ^ 16 -> DrawLine_clamp d v = Z.min v (d - 1).
Proof.
  intros Hd. unfold DrawLine_clamp. destruct (Z.geb_spec v d).
  - rewrite to_uint16_small by (unfold is_uint16; lia). lia.
  - lia.
Qed.

(** Distance and direction of one axis, as computed after the clamping. *)
Lemma DrawLine_dist a b :
  Z.abs (b - a) < 2 ^ 15 ->
  (if a >? b then (to_int16 (- to_int16 (b - a)), -1) else (to_int16 (b - a), 1))
  = (Z.abs (b - a), if a >? b then -1 else 1).
Proof.
  intros H. destruct (Z.gtb_spec a b).
  - rewrite (to_int16_small (b - a)) by (unfold is_int16; lia).
    rewrite to_int16_small by (unfold is_int16; lia). f_equal. lia.
  - rewrite to_int16_small by (unfold is_int16; lia). f_equal. lia.
Qed.

(** The Bresenham loop reaches its [break] within |x1-x0| + |y1-y0| + 1
    iterations; it starts at (x0, y0) and never leaves the bounding box. *)
Lemma DrawLine_loop_runs fuel : forall x0 y0 x1 y1 color x_dist y_dist x_grow y_grow error,
  is_uint16 x0 -> is_uint16 y0 -> is_uint16 x1 -> is_uint16 y1 ->
  0 < x_dist -> 0 < y_dist ->
  (x_grow = 1 /\ x0 <= x1) \/ (x_grow = -1 /\ x1 <= x0) ->
  (y_grow = 1 /\ y0 <= y1) \/ (y_grow = -1 /\ y1 <= y0) ->
  Z.abs (x1 - x0) + Z.abs (y1 - y0) < Z.of_nat fuel ->
  exists rest,
    DrawLine_loop fuel x0 y0 x1 y1 color x_dist y_dist x_grow y_grow error
    = Some (CallDrawPixel x0 y0 color :: rest) /\
    Forall (pixel_in_box x0 y0 x1 y1 color) (CallDrawPixel x0 y0 color :: rest).
Proof.
  induction fuel as [|fuel IH];
    intros x0 y0 x1 y1 color x_dist y_dist x_grow y_grow error
           Hx0 Hy0 Hx1 Hy1 Hxd Hyd Hxg Hyg Hfuel; [lia|].
  unfold is_uint16 in *.
  assert (Hstart : pixel_in_box x0 y0 x1 y1 color (CallDrawPixel x0 y0 color)).
  { exists x0, y0. split; [reflexivity | lia]. }
  cbn [DrawLine_loop].
  destruct ((x0 =? x1) || (y0 =? y1)) eqn:Hbreak.
  - exists []. split; [reflexivity|]. constructor; [exact Hstart | constructor].
  - apply orb_false_iff in Hbreak as [Hnx Hny].
    apply Z.eqb_neq in Hnx. apply Z.eqb_neq in Hny.
    set (x0' := if error >? - x_dist then x0 + x_grow else x0).
    set (y0' := if error <? y_dist then y0 + y_grow else y0).
    set (e1 := if error >? - x_dist then to_int16 (error - y_dist) else error).
    set (e2 := if error <? y_dist then to_int16 (e1 + x_dist) else e1).
    assert (Hx0' : Z.min x0 x1 <= x0' <= Z.max x0 x1).
    { unfold x0'. destruct (error >? - x_dist); lia. }
    assert (Hy0' : Z.min y0 y1 <= y0' <= Z.max y0 y1).
    { unfold y0'. destruct (error <? y_dist); lia. }
    assert (Hmoved : Z.abs (x1 - x0') + Z.abs (y1 - y0')
                     < Z.abs (x1 - x0) + Z.abs (y1 - y0)).
    { unfold x0', y0'.
      destruct (Z.gtb_spec error (- x_dist)), (Z.ltb_spec error y_dist); lia. }
    assert (Hstep : (let '(error0, x2) :=
                       if error >? - x_dist
                       then (to_int16 (error - y_dist), to_uint16 (x0 + x_grow))
                       else (error, x0) in
                     let '(error1, y2) :=
                       if error <? y_dist
                       then (to_int16 (error0 + x_dist), to_uint16 (y0 + y_grow))
                       else (error0, y0) in
                     rest ← DrawLine_loop fuel x2 y2 x1 y1 color x_dist y_dist
                              x_grow y_grow error1;
                     Some (CallDrawPixel x0 y0 color :: rest))
                    = (rest ← DrawLine_loop fuel x0' y0' x1 y1 color x_dist y_dist
                                x_grow y_grow e2;
                       Some (CallDrawPixel x0 y0 color :: rest))).
    { unfold x0', y0', e1, e2.
      destruct (error >? - x_dist), (error <? y_dist);
        rewrite ?to_uint16_small by (unfold is_uint16; lia); reflexivity. }
    rewrite Hstep. clear Hstep.
    destruct (IH x0' y0' x1 y1 color x_dist y_dist x_grow y_grow e2)
      as (rest & Hrest & Hbox); unfold is_uint16; try lia.
    rewrite Hrest. cbn [mbind option_bind].
    eexists. split; [reflexivity|].
    constructor; [exact Hstart|].
    eapply Forall_impl; [|exact Hbox].
    intros c (x & y & -> & Hbx & Hby). exists x, y. split; [reflexivity | lia].
Qed.

Lemma run_calls_pixels cs :
  Forall (fun c => exists x y color, c = CallDrawPixel x y color) cs ->
  exists tr, run_calls cs = Some tr.
Proof.
  induction 1 as [|c cs (x & y & color & ->) _ (tr & IH)].
  - exists []. reflexivity.
  - cbn [run_calls run_call mbind option_bind]. rewrite IH. eexists. reflexivity.
Qed.

(** C8: [ILI9341DrawLine] replaces every coordinate at or beyond the current
    width (height) by width-1 (height-1) before it rasterises, so that the
    line starts at the clamped start point and all coordinates it passes on
    lie on the panel, and it returns normally; [ILI9341DrawPixel] and
    [SetCursorPosition] send the coordinates they are given, whatever the
    panel size.  None of the three has an error result for coordinates. *)
Theorem DrawLine_clamps_pixel_and_window_do_not
    (lcd : orientation_properties_t) (x0 y0 x1 y1 color : Z) :
  is_uint16 x0 -> is_uint16 y0 -> is_uint16 x1 -> is_uint16 y1 ->
  0 < width lcd <= 2 ^ 15 -> 0 < height lcd <= 2 ^ 15 ->
  (exists first rest tr,
     ILI9341DrawLine_calls lcd x0 y0 x1 y1 color = Some (first :: rest) /\
     ILI9341DrawLine_calls lcd (Z.min x0 (width lcd - 1)) (Z.min y0 (height lcd - 1))
       (Z.min x1 (width lcd - 1)) (Z.min y1 (height lcd - 1)) color = Some (first :: rest) /\
     call_draws (Z.min x0 (width lcd - 1)) (Z.min y0 (height lcd - 1)) first /\
     Forall (call_on_panel lcd) (first :: rest) /\
     ILI9341DrawLine lcd x0 y0 x1 y1 color = Some tr) /\
  ILI9341DrawPixel x0 y0 color
  = [TxCommand COLUMN_ADDR_SET; TxData 4 (be16 x0 ++ be16 x0);
     TxCommand PAGE_ADDR_SET; TxData 4 (be16 y0 ++ be16 y0);
     TxCommand MEM_WRITE; TxData 2 [HighByte color; LowByte color]] /\
  SetCursorPosition x0 y0 x1 y1
  = [TxCommand COLUMN_ADDR_SET; TxData 4 (be16 (Z.min x0 x1) ++ be16 (Z.max x0 x1));
     TxCommand PAGE_ADDR_SET; TxData 4 (be16 (Z.min y0 y1) ++ be16 (Z.max y0 y1))].
Proof.
  unfold is_uint16. intros Hx0 Hy0 Hx1 Hy1 Hw Hh.
  assert (Hwindow : forall a b c d, 0 <= a < 2 ^ 16 -> 0 <= b < 2 ^ 16 ->
            0 <= c < 2 ^ 16 -> 0 <= d < 2 ^ 16 ->
            SetCursorPosition a b c d
            = [TxCommand COLUMN_ADDR_SET; TxData 4 (be16 (Z.min a c) ++ be16 (Z.max a c));
               TxCommand PAGE_ADDR_SET; TxData 4 (be16 (Z.min b d) ++ be16 (Z.max b d))]).
  { intros a b c d Ha Hb Hc Hd. rewrite SetCursorPosition_sorted. unfold be16. simpl.
    rewrite !HighByte_uint16 by (unfold is_uint16; lia).
    rewrite !LowByte_nonneg by lia. reflexivity. }
  split; [|split].
  2:{ unfold ILI9341DrawPixel. rewrite Hwindow by lia.
      rewrite !Z.min_id, !Z.max_id. reflexivity. }
  2:{ apply Hwindow; lia. }
  set (cx0 := Z.min x0 (width lcd - 1)). set (cy0 := Z.min y0 (height lcd - 1)).
  set (cx1 := Z.min x1 (width lcd - 1)). set (cy1 := Z.min y1 (height lcd - 1)).
  assert (Hsame : ILI9341DrawLine_calls lcd cx0 cy0 cx1 cy1 color
                  = ILI9341DrawLine_calls lcd x0 y0 x1 y1 color).
  { unfold ILI9341DrawLine_calls. rewrite !DrawLine_clamp_min by lia.
    unfold cx0, cy0, cx1, cy1. rewrite <- !Z.min_assoc, !Z.min_id. reflexivity. }
  assert (Hcalls : exists first rest,
            ILI9341DrawLine_calls lcd x0 y0 x1 y1 color = Some (first :: rest) /\
            call_draws cx0 cy0 first /\
            Forall (call_on_panel lcd) (first :: rest) /\
            exists tr, run_calls (first :: rest) = Some tr).
  { unfold ILI9341DrawLine_calls. rewrite !DrawLine_clamp_min by lia.
    fold cx0 cy0 cx1 cy1.
    assert (Hcx0 : 0 <= cx0 < width lcd) by (unfold cx0; lia).
    assert (Hcx1 : 0 <= cx1 < width lcd) by (unfold cx1; lia).
    assert (Hcy0 : 0 <= cy0 < height lcd) by (unfold cy0; lia).
    assert (Hcy1 : 0 <= cy1 < height lcd) by (unfold cy1; lia).
    unfold LEFT, RIGHT, UP, DOWN.
    rewrite (DrawLine_dist cx0 cx1), (DrawLine_dist cy0 cy1) by lia.
    destruct ((Z.abs (cx1 - cx0) =? 0) || (Z.abs (cy1 - cy0) =? 0)) eqn:Hflat.
    - exists (CallFill cx0 cy0 cx1 cy1 color), [].
      split; [reflexivity|]. split; [cbn; lia|]. split.
      + constructor; [cbn; lia | constructor].
      + cbn [run_calls run_call].
        assert (Hn : (Z.abs (cx1 - cx0) + 1) * (Z.abs (cy1 - cy0) + 1) * 2 < 2 ^ 31) by nia.
        rewrite (Fill_trace cx0 cy0 cx1 cy1 color) by lia.
        eexists. reflexivity.
    - apply orb_false_iff in Hflat as [Hdx Hdy].
      apply Z.eqb_neq in Hdx. apply Z.eqb_neq in Hdy.
      match goal with
      | |- context [DrawLine_loop ?f ?a ?b ?c ?d ?col ?xd ?yd ?xg ?yg ?e] =>
          destruct (DrawLine_loop_runs f a b c d col xd yd xg yg e)
            as (rest & Hloop & Hbox)
      end; unfold is_uint16; try lia.
      { destruct (Z.gtb_spec cx0 cx1); lia. }
      { destruct (Z.gtb_spec cy0 cy1); lia. }
      exists (CallDrawPixel cx0 cy0 color), rest.
      split; [exact Hloop|]. split; [cbn; lia|]. split.
      + eapply Forall_impl; [|exact Hbox].
        intros c (x & y & -> & Hbx & Hby). cbn. lia.
      + apply run_calls_pixels. eapply Forall_impl; [|exact Hbox].
        intros c (x & y & -> & _). eauto. }
  destruct Hcalls as (first & rest & Hc & Hstart & Hpanel & tr & Htr).
  exists first, rest, tr. split; [exact Hc|]. split; [rewrite Hsame; exact Hc|].
  split; [exact Hstart|]. split; [exact Hpanel|].
  unfold ILI9341DrawLine. rewrite Hc. exact Htr.
Qed.

Lemma DrawLine_clamps_pixel_and_window_do_not_witness :
  exists first rest,
    ILI9341DrawLine_calls (lcd_orientation 240 320) 500 900 1 2 7 = Some (first :: rest) /\
    call_draws 239 319 first /\
    Forall (call_on_panel (lcd_orientation 240 320)) (first :: rest).
Proof.
  destruct (DrawLine_clamps_pixel_and_window_do_not (lcd_orientation 240 320) 500 900 1 2 7)
    as [(first & rest & tr & Hcalls & _ & Hstart & Hpanel & _) _];
    try (unfold is_uint16; lia); try (vm_compute; intuition congruence).
  exists first, rest. split; [exact Hcalls|]. split; [exact Hstart | exact Hpanel].
Defined.

(** C3 at a failing input: the line from (0,0) to (3,1) is drawn as (0,0),
    (1,0), (2,1); the loop leaves as soon as [y0 == y1] holds and the end
    point (3,1) is never drawn. *)
Theorem ILI9341DrawLine_stops_short (lcd : orientation_properties_t) (color : Z) :
  3 < width lcd -> 1 < height lcd ->
  ILI9341DrawLine_calls lcd 0 0 3 1 color
  = Some [CallDrawPixel 0 0 color; CallDrawPixel 1 0 color; CallDrawPixel 2 1 color] /\
  ~ Exists (call_draws 3 1)
      [CallDrawPixel 0 0 color; CallDrawPixel 1 0 color; CallDrawPixel 2 1 color].
Proof.
  intros Hw Hh. split.
  - unfold ILI9341DrawLine_calls, DrawLine_clamp.
    destruct (Z.geb_spec 0 (width lcd)); [lia|].
    destruct (Z.geb_spec 3 (width lcd)); [lia|].
    destruct (Z.geb_spec 0 (height lcd)); [lia|].
    destruct (Z.geb_spec 1 (height lcd)); [lia|].
    reflexivity.
  - rewrite !Exists_cons, Exists_nil. cbn. lia.
Qed.

Lemma ILI9341DrawLine_stops_short_witness :
  ILI9341DrawLine_calls (lcd_orientation 240 320) 0 0 3 1 0xFFFF
  = Some [CallDrawPixel 0 0 0xFFFF; CallDrawPixel 1 0 0xFFFF; CallDrawPixel 2 1 0xFFFF].
Proof.
  apply (ILI9341DrawLine_stops_short (lcd_orientation 240 320) 0xFFFF); reflexivity.
Defined.

(** ** Circles *)

Lemma pixels_of_app cs1 cs2 : pixels_of (cs1 ++ cs2) = pixels_of cs1 ++ pixels_of cs2.
Proof.
  induction cs1 as [|[x y c|x0 y0 x1 y1 c] cs1 IH]; cbn [app pixels_of];
    rewrite ?IH; reflexivity.
Qed.

Lemma to_uint16_sub_l a b : to_uint16 (a - to_uint16 b) = to_uint16 (a - b).
Proof. unfold to_uint16. apply Zminus_mod_idemp_r. Qed.

Lemma to_uint16_add_l a b : to_uint16 (to_uint16 a + b) = to_uint16 (a + b).
Proof. unfold to_uint16. apply Zplus_mod_idemp_l. Qed.

Ltac uint16_eq :=
  rewrite ?to_uint16_add_l, ?to_uint16_sub_l, ?to_uint16_add_l, ?to_uint16_sub_l;
  f_equal; lia.

Lemma octant_images_offset cx cy o :
  octant_images cx cy (offset_pixel cx cy o) = offset_pixel cx cy <$> octant_offsets o.
Proof.
  destruct o as [a b].
  unfold octant_images, octant_offsets, mirror_x, mirror_y, swap_diag, offset_pixel.
  cbn [fst snd fmap list_fmap].
  repeat (f_equal; try (f_equal; uint16_eq)).
Qed.

Lemma pixels_of_octants x0 y0 x y color :
  pixels_of (DrawCircle_octants x0 y0 x y color)
  = offset_pixel x0 y0 <$> octant_offsets (x, y).
Proof.
  unfold DrawCircle_octants, octant_offsets, offset_pixel.
  cbn [pixels_of fst snd fmap list_fmap].
  repeat (f_equal; try (f_equal; uint16_eq)).
Qed.

Lemma octant_offsets_closed o : octant_closed (octant_offsets o).
Proof.
  destruct o as [a b]. intros [c d] Hin [e f] Hin'.
  unfold octant_offsets in *. cbn [fst snd In] in *.
  repeat match goal with
         | H : _ \/ _ |- _ => destruct H
         | H : (_, _) = (_, _) |- _ => injection H as ? ?; subst
         | H : False |- _ => destruct H
         end;
    rewrite ?Z.opp_involutive; tauto.
Qed.

Lemma octant_closed_app offs1 offs2 :
  octant_closed offs1 -> octant_closed offs2 -> octant_closed (offs1 ++ offs2).
Proof.
  intros H1 H2 o Hin o' Hin'. apply in_app_iff. apply in_app_iff in Hin as [Hin|Hin].
  - left. eapply H1; eassumption.
  - right. eapply H2; eassumption.
Qed.

Lemma cardinal_offsets_closed r : octant_closed [(0, r); (0, - r); (r, 0); (- r, 0)].
Proof.
  intros [c d] Hin [e f] Hin'.
  unfold octant_offsets in *. cbn [fst snd In] in *.
  repeat match goal with
         | H : _ \/ _ |- _ => destruct H
         | H : (_, _) = (_, _) |- _ => injection H as ? ?; subst
         | H : False |- _ => destruct H
         end;
    rewrite ?Z.opp_involutive; change (- 0) with 0; tauto.
Qed.

(** The eight offsets that one offset generates are no larger than it. *)
Lemma octant_offsets_bound (a b m : Z) :
  Z.abs a <= m -> Z.abs b <= m ->
  Forall (fun o => Z.abs o.1 <= m /\ Z.abs o.2 <= m) (octant_offsets (a, b)).
Proof.
  intros Ha Hb. unfold octant_offsets. cbn [fst snd].
  repeat constructor; cbn [fst snd]; lia.
Qed.

(** The loop ends within [y - x] iterations; what it draws are pixels only, at
    an octant-closed list of offsets from the centre, none of them larger
    than [y]. *)
Lemma DrawCircle_loop_offsets fuel : forall x0 y0 color f ddF_x ddF_y x y,
  0 <= x -> y < 2 ^ 15 -> y - x <= Z.of_nat fuel ->
  exists calls offs,
    DrawCircle_loop fuel x0 y0 color f ddF_x ddF_y x y = Some calls /\
    Forall (fun c => exists px py col, c = CallDrawPixel px py col) calls /\
    pixels_of calls = offset_pixel x0 y0 <$> offs /\
    octant_closed offs /\
    Forall (fun o => Z.abs o.1 <= y /\ Z.abs o.2 <= y) offs.
Proof.
  induction fuel as [|fuel IH]; intros x0 y0 color f ddF_x ddF_y x y Hx Hy Hfuel.
  - exists [], []. cbn [DrawCircle_loop].
    destruct (Z.ltb_spec x y); [lia|].
    split; [reflexivity|]. split; [constructor|]. split; [reflexivity|].
    split; [intros o [] | constructor].
  - cbn [DrawCircle_loop]. destruct (Z.ltb_spec x y) as [Hlt|Hge].
    + set (y' := if f >=? 0 then y - 1 else y).
      set (ddF_y' := if f >=? 0 then to_int16 (ddF_y + 2) else ddF_y).
      set (f' := if f >=? 0 then to_int16 (f + to_int16 (ddF_y + 2)) else f).
      assert (Hy' : x <= y' <= y) by (unfold y'; destruct (f >=? 0); lia).
      assert (Hstep : (if f >=? 0
                       then (to_int16 (y - 1), to_int16 (ddF_y + 2),
                             to_int16 (f + to_int16 (ddF_y + 2)))
                       else (y, ddF_y, f)) = (y', ddF_y', f')).
      { unfold y', ddF_y', f'. destruct (f >=? 0); [|reflexivity].
        rewrite (to_int16_small (y - 1)) by (unfold is_int16; lia). reflexivity. }
      rewrite Hstep. rewrite (to_int16_small (x + 1)) by (unfold is_int16; lia).
      destruct (IH x0 y0 color (to_int16 (f' + to_int16 (ddF_x + 2)))
                  (to_int16 (ddF_x + 2)) ddF_y' (x + 1) y')
        as (rest & offs & Hrest & Hpix & Hoffs & Hclosed & Hbound); try lia.
      rewrite Hrest. cbn [mbind option_bind].
      exists (DrawCircle_octants x0 y0 (x + 1) y' color ++ rest),
             (octant_offsets (x + 1, y') ++ offs).
      split; [reflexivity|]. split; [|split; [|split]].
      * apply Forall_app. split; [|exact Hpix].
        unfold DrawCircle_octants. repeat constructor; eauto.
      * rewrite pixels_of_app, pixels_of_octants, Hoffs, fmap_app. reflexivity.
      * apply octant_closed_app; [apply octant_offsets_closed | exact Hclosed].
      * apply Forall_app. split; [apply octant_offsets_bound; lia|].
        eapply Forall_impl; [|exact Hbound].
        intros o Ho. cbv beta in Ho. lia.
    + exists [], []. split; [reflexivity|]. split; [constructor|].
      split; [reflexivity|]. split; [intros o [] | constructor].
Qed.

(** What [ILI9341DrawCircle] draws for any radius that fits [int16_t]: pixels
    only, at offsets from the centre that are closed under the octant
    reflections, contain the four cardinal offsets and are no larger than
    the radius. *)
Lemma DrawCircle_calls_offsets (x0 y0 r color : Z) :
  is_int16 r ->
  exists calls offs tr,
    ILI9341DrawCircle_calls x0 y0 r color = Some calls /\
    ILI9341DrawCircle x0 y0 r color = Some tr /\
    pixels_of calls = offset_pixel x0 y0 <$> offs /\
    octant_closed offs /\
    Forall (fun o => Z.abs o.1 <= Z.abs r /\ Z.abs o.2 <= Z.abs r) offs /\
    In (0, r) offs /\ In (0, - r) offs /\ In (r, 0) offs /\ In (- r, 0) offs.
Proof.
  unfold is_int16. intros Hr. unfold ILI9341DrawCircle, ILI9341DrawCircle_calls.
  destruct (DrawCircle_loop_offsets (Z.to_nat r) x0 y0 color (to_int16 (1 - r)) 1
              (to_int16 (-2 * r)) 0 r)
    as (rest & offs & Hrest & Hpix & Hoffs & Hclosed & Hbound); try lia.
  rewrite Hrest. cbn [mbind option_bind].
  set (cardinals := [CallDrawPixel (to_uint16 x0) (to_uint16 (y0 + r)) color;
                     CallDrawPixel (to_uint16 x0) (to_uint16 (y0 - r)) color;
                     CallDrawPixel (to_uint16 (x0 + r)) (to_uint16 y0) color;
                     CallDrawPixel (to_uint16 (x0 - r)) (to_uint16 y0) color]).
  assert (Hall : Forall (fun c => exists px py col, c = CallDrawPixel px py col)
                   (cardinals ++ rest)).
  { apply Forall_app. split; [|exact Hpix]. unfold cardinals. repeat constructor; eauto. }
  assert (Hcard : pixels_of cardinals
                  = offset_pixel x0 y0 <$> [(0, r); (0, - r); (r, 0); (- r, 0)]).
  { unfold cardinals, offset_pixel. cbn [pixels_of fst snd fmap list_fmap].
    repeat (f_equal; try (f_equal; uint16_eq)). }
  destruct (run_calls_pixels (cardinals ++ rest)) as (tr & Htr).
  { eapply Forall_impl; [|exact Hall]. intros c (px & py & col & ->). eauto. }
  exists (cardinals ++ rest), ([(0, r); (0, - r); (r, 0); (- r, 0)] ++ offs), tr.
  split; [reflexivity|]. split; [exact Htr|]. split; [|split; [|split]].
  - rewrite pixels_of_app, Hcard, Hoffs, fmap_app. reflexivity.
  - apply octant_closed_app; [apply cardinal_offsets_closed | exact Hclosed].
  - apply Forall_app. split.
    + repeat constructor; cbn [fst snd]; lia.
    + eapply Forall_impl; [|exact Hbound]. intros o Ho. cbv beta in Ho. lia.
  - cbn [app In]. tauto.
Qed.

(** Away from the wrap of the pixel coordinates the reflections on the
    integer plane are those on [uint16_t]. *)
Lemma octant_reflections_offset (x0 y0 m : Z) (o : Z * Z) :
  m <= x0 -> x0 + m < 2 ^ 16 -> m <= y0 -> y0 + m < 2 ^ 16 ->
  Z.abs o.1 <= m -> Z.abs o.2 <= m ->
  offset_pixel x0 y0 o = (x0 + o.1, y0 + o.2) /\
  octant_reflections x0 y0 (x0 + o.1, y0 + o.2)
  = octant_images x0 y0 (offset_pixel x0 y0 o).
Proof.
  destruct o as [a b]. cbn [fst snd]. intros Hx Hx' Hy Hy' Ha Hb.
  assert (Hsmall : forall v, 0 <= v < 2 ^ 16 -> to_uint16 v = v)
    by (intros v Hv; apply to_uint16_small; exact Hv).
  unfold offset_pixel. cbn [fst snd].
  rewrite (Hsmall (x0 + a)), (Hsmall (y0 + b)) by lia.
  split; [reflexivity|].
  unfold octant_reflections, octant_images, reflect_x, reflect_y, reflect_diag,
    mirror_x, mirror_y, swap_diag.
  cbn [fst snd].
  rewrite ?(Hsmall (2 * x0 - (x0 + a))), ?(Hsmall (2 * y0 - (y0 + b))),
    ?(Hsmall (y0 + b + (x0 - y0))), ?(Hsmall (x0 + a + (y0 - x0))) by lia.
  rewrite ?(Hsmall (2 * x0 - (y0 + b + (x0 - y0)))),
    ?(Hsmall (2 * y0 - (x0 + a + (y0 - x0)))) by lia.
  reflexivity.
Qed.

(** C7 (amended): when the radius is at most x0 and at most y0 (in absolute
    value, should it be negative), so that the circle does not reach beyond
    column 0 or row 0, the pixels drawn by [ILI9341DrawCircle] are closed
    under the eight octant reflections about the centre and the four
    cardinal points (x0, y0 + r), (x0, y0 - r), (x0 + r, y0), (x0 - r, y0)
    are among them; the arguments are [int16_t] values. *)
Theorem ILI9341DrawCircle_symmetric (x0 y0 r color : Z) :
  is_int16 x0 -> is_int16 y0 -> is_int16 r ->
  Z.abs r <= x0 -> Z.abs r <= y0 ->
  DrawCircle_symmetric_as_claimed x0 y0 r color /\
  exists tr, ILI9341DrawCircle x0 y0 r color = Some tr.
Proof.
  intros Hx0 Hy0 Hr Hx Hy.
  destruct (DrawCircle_calls_offsets x0 y0 r color Hr)
    as (calls & offs & tr & Hcalls & Htr & Hoffs & Hclosed & Hbound & Hn & Hs & He & Hw).
  unfold is_int16 in *.
  assert (Hpixel : forall o, In o offs ->
            offset_pixel x0 y0 o = (x0 + o.1, y0 + o.2) /\
            octant_reflections x0 y0 (x0 + o.1, y0 + o.2)
            = octant_images x0 y0 (offset_pixel x0 y0 o)).
  { intros o Ho. rewrite Forall_forall in Hbound. destruct (Hbound o Ho) as [Ha Hb].
    apply (octant_reflections_offset x0 y0 (Z.abs r)); lia. }
  assert (Hin : forall o, In o offs -> In (x0 + o.1, y0 + o.2) (pixels_of calls)).
  { intros o Ho. rewrite Hoffs. apply in_map_iff. exists o.
    split; [apply (Hpixel o Ho) | exact Ho]. }
  split; [|exists tr; exact Htr].
  exists calls. split; [exact Hcalls|]. split.
  - intros p Hp q Hq. rewrite Hoffs in Hp. apply in_map_iff in Hp as (o & <- & Ho).
    destruct (Hpixel o Ho) as [Hplain Hrefl].
    rewrite Hplain, Hrefl, octant_images_offset in Hq.
    apply in_map_iff in Hq as (o' & <- & Ho').
    rewrite Hoffs. apply in_map_iff. exists o'. split; [reflexivity|].
    eapply Hclosed; eassumption.
  - pose proof (Hin (0, r) Hn) as Hn'. pose proof (Hin (0, - r) Hs) as Hs'.
    pose proof (Hin (r, 0) He) as He'. pose proof (Hin (- r, 0) Hw) as Hw'.
    cbn [fst snd] in Hn', Hs', He', Hw'.
    rewrite Z.add_0_r in Hn', Hs', He', Hw'.
    rewrite Z.add_opp_r in Hs', Hw'.
    repeat split; assumption.
Qed.

Lemma ILI9341DrawCircle_symmetric_witness :
  exists calls,
    ILI9341DrawCircle_calls 120 160 5 0xF800 = Some calls /\
    In (120, 165) (pixels_of calls) /\ In (120, 155) (pixels_of calls) /\
    In (125, 160) (pixels_of calls) /\ In (115, 160) (pixels_of calls).
Proof.
  destruct (ILI9341DrawCircle_symmetric 120 160 5 0xF800)
    as [(calls & Hcalls & _ & Hn & Hs & He & Hw) _];
    [unfold is_int16; lia | unfold is_int16; lia | unfold is_int16; lia | lia | lia |].
  exists calls. split; [exact Hcalls|]. repeat split; assumption.
Defined.

(** C7 as stated fails for a circle that reaches beyond column 0: of the
    circle of radius 5 about (2, 3) the cardinal point (-3, 3) is not drawn;
    the pixel coordinate is a [uint16_t] and the pixel drawn is (65533, 3). *)
Lemma DrawCircle_symmetric_fails_across_column_0 :
  ~ DrawCircle_symmetric_as_claimed 2 3 5 0xF800.
Proof.
  intros (calls & Hcalls & _ & _ & _ & _ & Hw).
  vm_compute in Hcalls. injection Hcalls as <-.
  cbn [pixels_of In] in Hw.
  repeat (destruct Hw as [Hw|Hw]; [discriminate Hw|]).
  exact Hw.
Qed.

(** The restriction is no more than is needed: the claim holds of no circle
    that reaches beyond column 0 or row 0. *)
Lemma DrawCircle_symmetric_needs_margin (x0 y0 r color : Z) :
  is_int16 r ->
  DrawCircle_symmetric_as_claimed x0 y0 r color ->
  Z.abs r <= x0 /\ Z.abs r <= y0.
Proof.
  intros Hr (calls & Hcalls & _ & Hn & Hs & He & Hw).
  destruct (DrawCircle_calls_offsets x0 y0 r color Hr)
    as (calls' & offs & _ & Hcalls' & _ & Hoffs & _).
  rewrite Hcalls in Hcalls'. injection Hcalls' as <-.
  assert (Hpos : forall p, In p (pixels_of calls) -> 0 <= p.1 /\ 0 <= p.2).
  { intros p Hp. rewrite Hoffs in Hp. apply in_map_iff in Hp as (o & <- & _).
    unfold offset_pixel, to_uint16. cbn [fst snd].
    split; apply Z.mod_pos_bound; lia. }
  pose proof (Hpos _ Hn) as [_ Hn']. pose proof (Hpos _ Hs) as [_ Hs'].
  pose proof (Hpos _ He) as [He' _]. pose proof (Hpos _ Hw) as [Hw' _].
  cbn [fst snd] in *. lia.
Qed.

(** ** Glyphs *)

Lemma DrawChar_flushes_step p :
  0 <= p ->
  (2 * p - DrawChar_flushes p * 256 + 1 > 256 ->
     DrawChar_flushes (p + 1) = DrawChar_flushes p + 1 /\
     0 <= 2 * p - (DrawChar_flushes p + 1) * 256 <= 254) /\
  (2 * p - DrawChar_flushes p * 256 + 1 <= 256 ->
     DrawChar_flushes (p + 1) = DrawChar_flushes p /\
     0 <= 2 * p - DrawChar_flushes p * 256 <= 254).
Proof.
  intros Hp. unfold DrawChar_flushes.
  replace (p + 1 - 1) with p by lia.
  pose proof (Z.div_mod p 128 ltac:(lia)).
  pose proof (Z.mod_pos_bound p 128 ltac:(lia)).
  pose proof (Z.div_mod (p - 1) 128 ltac:(lia)).
  pose proof (Z.mod_pos_bound (p - 1) 128 ltac:(lia)).
  split; intros; lia.
Qed.

Lemma DrawChar_flushes_bounds p :
  0 <= p -> 0 <= DrawChar_flushes p /\ 128 * DrawChar_flushes p <= p.
Proof.
  intros Hp. unfold DrawChar_flushes.
  pose proof (Z.div_mod (p - 1) 128 ltac:(lia)).
  pose proof (Z.mod_pos_bound (p - 1) 128 ltac:(lia)). lia.
Qed.

Lemma pixel_store_ok pixel idx v :
  0 <= idx < 256 -> length pixel = 256%nat ->
  exists pixel', pixel_store pixel idx v = Some pixel' /\ length pixel' = 256%nat.
Proof.
  intros Hidx Hlen. unfold pixel_store, MAX_VALUE_SIZE.
  destruct (Z.leb_spec 0 idx); [|lia]. destruct (Z.ltb_spec idx 256); [|lia].
  eexists. split; [reflexivity|]. rewrite length_insert. exact Hlen.
Qed.

(** Below 2^16 the counter does not wrap: the loop runs [bound] times. *)
Lemma for_uint16_counted {St : Type} (body : Z -> St -> option St) bound count :
  forall i s,
  0 <= i -> i + Z.of_nat count = bound -> bound < 2 ^ 16 ->
  for_uint16 count i bound body s = for_loop count i body s.
Proof.
  induction count as [|count IH]; intros i s Hi Hbound Hsmall.
  - cbn [for_uint16 for_loop]. destruct (Z.ltb_spec i bound); [lia | reflexivity].
  - cbn [for_uint16 for_loop]. destruct (Z.ltb_spec i bound); [|lia].
    destruct (body i s) as [s'|]; [|reflexivity]. cbn [mbind option_bind].
    rewrite (to_uint16_small (i + 1)) by (unfold is_uint16; lia).
    apply IH; lia.
Qed.

Lemma for_uint16_from_0 {St : Type} (body : Z -> St -> option St) bound s :
  bound < 2 ^ 16 ->
  for_uint16 (Z.to_nat bound) 0 bound body s = for_loop (Z.to_nat bound) 0 body s.
Proof.
  intros Hsmall. destruct (Z_le_gt_dec 0 bound) as [Hpos|Hneg].
  - apply for_uint16_counted; lia.
  - replace (Z.to_nat bound) with 0%nat by lia. cbn [for_uint16 for_loop].
    destruct (Z.ltb_spec 0 bound); [lia | reflexivity].
Qed.

(** One pixel: the invariant moves from [p] to [p + 1]. *)
Lemma DrawChar_column_inv font foreground background char_row i j n p s :
  0 <= p -> 2 * p <= n < 2 ^ 23 ->
  2 * j + i * FontWidth font * 2 = 2 * p ->
  j < 32 ->
  DrawChar_inv n p s ->
  exists s', DrawChar_column font foreground background char_row i j s = Some s' /\
             DrawChar_inv n (p + 1) s'.
Proof.
  intros Hp Hn Hidx Hj (Hk & Hbc & Hlen & Hsent & Hcount).
  pose proof (DrawChar_flushes_step p Hp) as [Hflush Hkeep].
  pose proof (DrawChar_flushes_bounds p Hp) as Hkb.
  set (color := if Z.land char_row (Z.shiftr MSK_BIT16 j) =? 0
                then background else foreground).
  assert (Hshift : (j <? 32) = true) by (apply Z.ltb_lt; exact Hj).
  destruct (Z.gtb_spec (2 * p - DrawChar_flushes p * 256 + 1) 256) as [Hgt|Hle].
  - destruct (Hflush ltac:(lia)) as [Hk' Hrange].
    assert (Hguard : (2 * j + i * FontWidth font * 2 - dc_k s * MAX_VALUE_SIZE + 1
                      >? MAX_VALUE_SIZE) = true).
    { rewrite Hidx, Hk. unfold MAX_VALUE_SIZE. apply Z.gtb_lt. lia. }
    unfold DrawChar_column. rewrite Hguard, Hshift. cbv zeta.
    cbn [dc_k dc_bytes_count dc_pixel dc_sent mbind option_bind]. fold color.
    rewrite Hk, Hbc, Hidx. change MAX_VALUE_SIZE with 256.
    rewrite (to_uint16_small (DrawChar_flushes p + 1)) by (unfold is_uint16; lia).
    rewrite to_int32_small by lia.
    change (WriteLCD (lcd_cmd_init SEND_PIXELS 256 (dc_pixel s)))
      with [TxData MAX_VALUE_SIZE (take 256 (dc_pixel s))].
    destruct (pixel_store_ok (dc_pixel s) (2 * p - (DrawChar_flushes p + 1) * 256)
                (HighByte color)) as (p1 & Hp1 & Hl1); [lia | exact Hlen |].
    destruct (pixel_store_ok p1 (2 * p - (DrawChar_flushes p + 1) * 256 + 1)
                (LowByte color)) as (p2 & Hp2 & Hl2); [lia | exact Hl1 |].
    rewrite Hp1. cbn [mbind option_bind]. rewrite Hp2. cbn [mbind option_bind].
    eexists. split; [reflexivity|].
    unfold DrawChar_inv. cbn [dc_k dc_bytes_count dc_pixel dc_sent].
    rewrite Hk'. repeat split; try lia.
    + apply Forall_app. split; [exact Hsent|].
      apply Forall_singleton.
      eexists. split; [reflexivity|]. rewrite length_take, Hlen. reflexivity.
    + rewrite length_app, Hcount. cbn [length]. lia.
  - destruct (Hkeep ltac:(lia)) as [Hk' Hrange].
    assert (Hguard : (2 * j + i * FontWidth font * 2 - dc_k s * MAX_VALUE_SIZE + 1
                      >? MAX_VALUE_SIZE) = false).
    { rewrite Hidx, Hk. unfold MAX_VALUE_SIZE.
      destruct (Z.gtb_spec (2 * p - DrawChar_flushes p * 256 + 1) 256); [lia | reflexivity]. }
    unfold DrawChar_column. rewrite Hguard, Hshift. cbv zeta.
    cbn [mbind option_bind]. fold color.
    rewrite Hk, Hidx. change MAX_VALUE_SIZE with 256.
    destruct (pixel_store_ok (dc_pixel s) (2 * p - DrawChar_flushes p * 256)
                (HighByte color)) as (p1 & Hp1 & Hl1); [lia | exact Hlen |].
    destruct (pixel_store_ok p1 (2 * p - DrawChar_flushes p * 256 + 1)
                (LowByte color)) as (p2 & Hp2 & Hl2); [lia | exact Hl1 |].
    rewrite Hp1. cbn [mbind option_bind]. rewrite Hp2. cbn [mbind option_bind].
    eexists. split; [reflexivity|].
    unfold DrawChar_inv. cbn [dc_k dc_bytes_count dc_pixel dc_sent].
    rewrite Hk'. repeat split; assumption.
Qed.

(** [count] pixels of row [i], from column [j] on. *)
Lemma DrawChar_columns_inv font foreground background char_row i n count :
  forall j p s,
  0 <= p -> 2 * (p + Z.of_nat count) <= n < 2 ^ 23 ->
  2 * j + i * FontWidth font * 2 = 2 * p ->
  j + Z.of_nat count <= 32 ->
  DrawChar_inv n p s ->
  exists s',
    for_loop count j (DrawChar_column font foreground background char_row i) s = Some s' /\
    DrawChar_inv n (p + Z.of_nat count) s'.
Proof.
  induction count as [|count IH]; intros j p s Hp Hn Hidx Hj Hinv.
  - exists s. split; [reflexivity|]. replace (p + Z.of_nat 0) with p by lia. exact Hinv.
  - cbn [for_loop].
    destruct (DrawChar_column_inv font foreground background char_row i j n p s)
      as (s1 & Hs1 & Hinv1); [lia | lia | exact Hidx | lia | exact Hinv |].
    rewrite Hs1. cbn [mbind option_bind].
    destruct (IH (j + 1) (p + 1) s1) as (s' & Hs' & Hinv');
      [lia | lia | lia | lia | exact Hinv1 |].
    exists s'. split; [exact Hs'|].
    replace (p + Z.of_nat (S count)) with (p + 1 + Z.of_nat count) by lia. exact Hinv'.
Qed.

(** One row of the glyph. *)
Lemma DrawChar_row_inv font data foreground background n i s :
  0 <= FontWidth font <= 32 -> 0 <= i ->
  2 * ((i + 1) * FontWidth font) <= n < 2 ^ 23 ->
  DrawChar_inv n (i * FontWidth font) s ->
  exists s',
    DrawChar_row font data foreground background i s = Some s' /\
    DrawChar_inv n ((i + 1) * FontWidth font) s'.
Proof.
  intros Hw Hi Hn Hinv. unfold DrawChar_row.
  rewrite for_uint16_from_0 by lia.
  destruct (DrawChar_columns_inv font foreground background
              (to_uint16 (font_data font (DrawChar_row_index font data i)))
              i n (Z.to_nat (FontWidth font)) 0 (i * FontWidth font) s)
    as (s' & Hs' & Hinv'); [nia | nia | lia | lia | exact Hinv |].
  exists s'. split; [exact Hs'|].
  replace ((i + 1) * FontWidth font)
    with (i * FontWidth font + Z.of_nat (Z.to_nat (FontWidth font))) by lia.
  exact Hinv'.
Qed.

(** [count] rows of the glyph, from row [i] on. *)
Lemma DrawChar_rows_inv font data foreground background n count :
  0 <= FontWidth font <= 32 ->
  forall i s,
  0 <= i -> 2 * ((i + Z.of_nat count) * FontWidth font) <= n < 2 ^ 23 ->
  DrawChar_inv n (i * FontWidth font) s ->
  exists s',
    for_loop count i (DrawChar_row font data foreground background) s = Some s' /\
    DrawChar_inv n ((i + Z.of_nat count) * FontWidth font) s'.
Proof.
  intros Hw. induction count as [|count IH]; intros i s Hi Hn Hinv.
  - exists s. split; [reflexivity|]. replace (i + Z.of_nat 0) with i by lia. exact Hinv.
  - cbn [for_loop].
    destruct (DrawChar_row_inv font data foreground background n i s)
      as (s1 & Hs1 & Hinv1); [lia | lia | nia | exact Hinv |].
    rewrite Hs1. cbn [mbind option_bind].
    destruct (IH (i + 1) s1) as (s' & Hs' & Hinv'); [lia | nia | exact Hinv1 |].
    exists s'. split; [exact Hs'|].
    replace (i + Z.of_nat (S count)) with (i + 1 + Z.of_nat count) by lia. exact Hinv'.
Qed.

Lemma payload_bytes_cons t tr :
  payload_bytes (t :: tr) = tx_payload t ++ payload_bytes tr.
Proof. reflexivity. Qed.

Lemma chunk_lengths_full sent :
  Forall full_chunk sent ->
  chunk_lengths sent = replicate (length sent) MAX_VALUE_SIZE /\
  length (payload_bytes sent) = (256 * length sent)%nat.
Proof.
  induction 1 as [|t sent (bytes & -> & Hlen) _ [IH1 IH2]].
  - split; reflexivity.
  - split.
    + unfold chunk_lengths in *. cbn [fmap list_fmap tx_len length replicate].
      rewrite IH1. reflexivity.
    + rewrite payload_bytes_cons, length_app, IH2. cbn [tx_payload length].
      rewrite Hlen. lia.
Qed.

(** Shape of the pixel stream of [ILI9341DrawChar] for any font of at most 32
    columns and fewer than 2^16 rows: as many full buffers as
    [DrawChar_flushes] says, then what is left of the glyph, between 2 and
    256 bytes. *)
Lemma DrawChar_stream lcd x y data font foreground background pixel :
  let n := FontHeight font * FontWidth font * 2 in
  let q := DrawChar_flushes (FontHeight font * FontWidth font) in
  0 < FontWidth font <= 32 -> 0 < FontHeight font < 2 ^ 16 ->
  length pixel = 256%nat ->
  exists tr pixel' sent,
    ILI9341DrawChar lcd x y data font foreground background pixel = Some (tr, pixel') /\
    length pixel' = 256%nat /\
    pixel_stream tr
    = sent ++ [TxData (n - 256 * q) (take (Z.to_nat (n - 256 * q)) pixel')] /\
    Forall full_chunk sent /\ length sent = Z.to_nat q /\
    0 <= q /\ 0 < n - 256 * q <= 256.
Proof.
  intros n q Hw Hh Hlen.
  assert (Hsmall : FontHeight font * FontWidth font < 2 ^ 22) by nia.
  unfold ILI9341DrawChar.
  fold n. rewrite (to_int32_small n) by (unfold n; lia).
  rewrite for_uint16_from_0 by lia.
  destruct (DrawChar_rows_inv font data foreground background n
              (Z.to_nat (FontHeight font)) ltac:(lia) 0
              (mk_DrawChar_state 0 n pixel []))
    as (s & Hs & Hk & Hbc & Hlen' & Hsent & Hcount).
  { lia. }
  { unfold n. nia. }
  { replace (0 * FontWidth font) with 0 by lia.
    unfold DrawChar_inv. change (DrawChar_flushes 0) with 0.
    cbn [dc_k dc_bytes_count dc_pixel dc_sent].
    split; [reflexivity|]. split; [lia|]. split; [exact Hlen|].
    split; [constructor | reflexivity]. }
  replace ((0 + Z.of_nat (Z.to_nat (FontHeight font))) * FontWidth font)
    with (FontHeight font * FontWidth font) in * by lia.
  fold q in Hk, Hbc, Hcount.
  assert (Hp : 1 <= FontHeight font * FontWidth font) by nia.
  assert (Hr : 0 <= q /\ 0 < n - 256 * q <= 256).
  { unfold q, n, DrawChar_flushes.
    pose proof (Z.div_mod (FontHeight font * FontWidth font - 1) 128 ltac:(lia)).
    pose proof (Z.mod_pos_bound (FontHeight font * FontWidth font - 1) 128 ltac:(lia)).
    lia. }
  destruct (if x + FontWidth font >? width lcd
            then (0, to_uint16 (y + FontHeight font)) else (x, y)) as [lcd_x lcd_y].
  rewrite Hs. cbn [mbind option_bind].
  rewrite WriteLCD_command_only by (unfold MEM_WRITE; lia).
  rewrite Hbc, WriteLCD_pixels by lia.
  eexists _, _, (dc_sent s). split; [reflexivity|]. split; [exact Hlen'|].
  cbn [app]. rewrite pixel_stream_after_window.
  split; [reflexivity|]. split; [exact Hsent|]. split; [exact Hcount | exact Hr].
Qed.

(** C5: with a 16 x 26 font every call of [ILI9341DrawChar] streams
    16*26*2 = 832 bytes after the memory-write command, as three transfers of
    the full 256-byte buffer followed by one transfer of 64 bytes. *)
Theorem ILI9341DrawChar_16x26 (lcd : orientation_properties_t) (x y data : Z)
    (font : Font_t) (foreground background : Z) (pixel : list Z) :
  FontWidth font = 16 -> FontHeight font = 26 -> length pixel = 256%nat ->
  exists tr pixel' c1 c2 c3 c4,
    ILI9341DrawChar lcd x y data font foreground background pixel = Some (tr, pixel') /\
    pixel_stream tr = [TxData 256 c1; TxData 256 c2; TxData 256 c3; TxData 64 c4] /\
    length c1 = 256%nat /\ length c2 = 256%nat /\ length c3 = 256%nat /\
    length c4 = 64%nat /\
    Z.of_nat (length (payload_bytes (pixel_stream tr))) = 16 * 26 * 2.
Proof.
  intros Hw Hh Hlen.
  destruct (DrawChar_stream lcd x y data font foreground background pixel
              ltac:(lia) ltac:(lia) Hlen)
    as (tr & pixel' & sent & Htr & Hlen' & Hstream & Hsent & Hcount & _ & _).
  rewrite Hw, Hh in Hstream, Hcount.
  change (Z.to_nat (DrawChar_flushes (26 * 16))) with 3%nat in Hcount.
  change (26 * 16 * 2 - 256 * DrawChar_flushes (26 * 16)) with 64 in Hstream.
  destruct sent as [|t1 [|t2 [|t3 [|t4 sent]]]]; try discriminate Hcount.
  apply Forall_cons_iff in Hsent as [(c1 & -> & Hc1) Hsent].
  apply Forall_cons_iff in Hsent as [(c2 & -> & Hc2) Hsent].
  apply Forall_cons_iff in Hsent as [(c3 & -> & Hc3) _].
  cbn [app] in Hstream.
  exists tr, pixel', c1, c2, c3, (take (Z.to_nat 64) pixel').
  split; [exact Htr|]. split; [exact Hstream|].
  assert (Hc4 : length (take (Z.to_nat 64) pixel') = 64%nat).
  { rewrite length_take, Hlen'. reflexivity. }
  repeat (split; [assumption|]).
  rewrite Hstream, !payload_bytes_cons. cbn [tx_payload].
  rewrite !length_app, Hc1, Hc2, Hc3, Hc4. reflexivity.
Qed.

Lemma ILI9341DrawChar_16x26_witness :
  exists tr pixel',
    ILI9341DrawChar (lcd_orientation 240 320) 10 20 65 example_font_16x26 0xF800 0x001F
      (replicate 256 0) = Some (tr, pixel') /\
    chunk_lengths (pixel_stream tr) = [256; 256; 256; 64].
Proof.
  destruct (ILI9341DrawChar_16x26 (lcd_orientation 240 320) 10 20 65 example_font_16x26
              0xF800 0x001F (replicate 256 0))
    as (tr & pixel' & c1 & c2 & c3 & c4 & Htr & Hstream & _); try reflexivity.
  exists tr, pixel'. split; [exact Htr|]. rewrite Hstream. reflexivity.
Defined.

(** ** Strings *)

Lemma ends_plain_tail a text : ends_plain (a :: text) -> ends_plain text.
Proof. destruct text; [intros _; exact I | intros H; exact H]. Qed.

Lemma ends_plain_control a text :
  ends_plain (a :: text) -> a = 10 \/ a = 13 -> exists b text', text = b :: text'.
Proof.
  destruct text as [|b text']; [cbn; lia | eauto].
Qed.

(** The budget of [ILI9341DrawString_calls] is never the reason why a walk
    ends. *)
Lemma DrawString_loop_fuel fuel : forall x font str lcd_x lcd_y,
  (length str < fuel)%nat ->
  (DrawString_loop fuel x font str lcd_x lcd_y).2 <> OutOfFuel.
Proof.
  induction fuel as [|fuel IH]; intros x font str lcd_x lcd_y Hfuel; [lia|].
  assert (Hnext : forall lx ly ch tail, (length tail < fuel)%nat ->
            (let '(calls, how) :=
               DrawString_loop fuel x font tail (to_uint16 (lx + FontWidth font)) ly in
             ((lx, ly, ch) :: calls, how)).2 <> OutOfFuel).
  { intros lx ly ch tail Htail.
    specialize (IH x font tail (to_uint16 (lx + FontWidth font)) ly Htail).
    destruct (DrawString_loop fuel x font tail _ ly). exact IH. }
  destruct str as [|c str]; [discriminate|].
  cbn [DrawString_loop length] in *.
  destruct (c =? 0); [discriminate|].
  destruct (c =? 10).
  - destruct str as [|c1 str]; [discriminate|]. cbn [drop length] in *.
    destruct (c1 =? 13).
    + destruct str as [|c2 str]; [discriminate|]. cbn [length] in *. apply Hnext. lia.
    + apply Hnext. lia.
  - destruct (c =? 13).
    + destruct str as [|c1 str]; [discriminate|]. cbn [drop length] in *. apply Hnext. lia.
    + apply Hnext. lia.
Qed.

(** What the walk does with the rest of a text depends on how the text reads:
    when it ends in a line break the terminator is drawn, otherwise every
    character drawn is one of the text. *)
Lemma DrawString_loop_break fuel : forall text rest x font lcd_x lcd_y,
  Forall (fun b => b <> 0) text -> (length text < fuel)%nat ->
  (ends_in_break text = true ->
     exists lx ly,
       In (lx, ly, 0) (DrawString_loop fuel x font (text ++ 0 :: rest) lcd_x lcd_y).1) /\
  (ends_in_break text = false ->
     Forall (fun call => call.2 <> 0)
       (DrawString_loop fuel x font (text ++ 0 :: rest) lcd_x lcd_y).1).
Proof.
  induction fuel as [|fuel IH]; intros text rest x font lcd_x lcd_y Hnz Hfuel; [lia|].
  assert (Hnext : forall t lx ly ch,
            Forall (fun b => b <> 0) t -> (length t < fuel)%nat -> ch <> 0 ->
            (ends_in_break t = true ->
               exists a b,
                 In (a, b, 0)
                   (let '(calls, how) :=
                      DrawString_loop fuel x font (t ++ 0 :: rest)
                        (to_uint16 (lx + FontWidth font)) ly in
                    ((lx, ly, ch) :: calls, how)).1) /\
            (ends_in_break t = false ->
               Forall (fun call => call.2 <> 0)
                 (let '(calls, how) :=
                    DrawString_loop fuel x font (t ++ 0 :: rest)
                      (to_uint16 (lx + FontWidth font)) ly in
                  ((lx, ly, ch) :: calls, how)).1)).
  { intros t lx ly ch Ht Hlen Hch.
    destruct (IH t rest x font (to_uint16 (lx + FontWidth font)) ly Ht Hlen) as [Hyes Hno].
    destruct (DrawString_loop fuel x font (t ++ 0 :: rest) _ ly) as [calls how].
    cbn [fst] in *. split; intros E.
    - destruct (Hyes E) as (a & b & Hin). exists a, b. right. exact Hin.
    - constructor; [exact Hch | exact (Hno E)]. }
  assert (Hhere : forall lx ly tail how,
            exists a b : Z, In (a, b, 0) (((lx, ly, 0) :: tail, how) : list (Z * Z * Z) * walk_end).1).
  { intros lx ly tail how. exists lx, ly. left. reflexivity. }
  destruct text as [|a text].
  - cbn [app DrawString_loop ends_in_break]. rewrite Z.eqb_refl. cbn [fst].
    split; [discriminate | intros _; constructor].
  - apply Forall_cons_iff in Hnz as [Ha Hnz]. cbn [length] in Hfuel.
    cbn [app DrawString_loop ends_in_break].
    destruct (Z.eqb_spec a 0) as [|_]; [contradiction|].
    destruct (Z.eqb_spec a 10) as [->|Ha10].
    + destruct text as [|b text].
      * cbn [app drop]. change (0 =? 13) with false. cbv iota.
        split; [intros _ | discriminate].
        match goal with
        | |- context [DrawString_loop ?f ?x ?fo ?s ?p ?q] =>
            destruct (DrawString_loop f x fo s p q) as [calls how]
        end.
        apply Hhere.
      * apply Forall_cons_iff in Hnz as [Hb Hnz]. cbn [length] in Hfuel.
        cbn [app drop]. destruct (Z.eqb_spec b 13) as [->|Hb13].
        -- destruct text as [|d text].
           ++ cbn [app drop]. split; [intros _ | discriminate].
              match goal with
              | |- context [DrawString_loop ?f ?x ?fo ?s ?p ?q] =>
                  destruct (DrawString_loop f x fo s p q) as [calls how]
              end.
              apply Hhere.
           ++ apply Forall_cons_iff in Hnz as [Hd Hnz]. cbn [length] in Hfuel.
              cbn [app drop]. apply Hnext; [exact Hnz | lia | exact Hd].
        -- apply Hnext; [exact Hnz | lia | exact Hb].
    + destruct (Z.eqb_spec a 13) as [->|Ha13].
      * destruct text as [|b text].
        -- cbn [app drop]. split; [intros _ | discriminate].
           match goal with
           | |- context [DrawString_loop ?f ?x ?fo ?s ?p ?q] =>
               destruct (DrawString_loop f x fo s p q) as [calls how]
           end.
           apply Hhere.
        -- apply Forall_cons_iff in Hnz as [Hb Hnz]. cbn [length] in Hfuel.
           cbn [app drop]. apply Hnext; [exact Hnz | lia | exact Hb].
      * apply Hnext; [exact Hnz | lia | exact Ha].
Qed.

(** Behind a character that is neither line feed nor carriage return the
    reading starts afresh. *)
Lemma ends_in_break_after_plain n : forall text tail,
  (length text <= n)%nat -> ends_plain text ->
  ends_in_break (text ++ tail) = ends_in_break tail.
Proof.
  induction n as [|n IH]; intros text tail Hlen Hplain.
  - destruct text; [reflexivity | cbn [length] in Hlen; lia].
  - destruct text as [|a text]; [reflexivity|]. cbn [length] in Hlen.
    cbn [app ends_in_break].
    destruct (Z.eqb_spec a 10) as [->|Ha10].
    + destruct (ends_plain_control _ _ Hplain ltac:(auto)) as (b & text' & ->).
      apply ends_plain_tail in Hplain. cbn [app length] in *.
      destruct (Z.eqb_spec b 13) as [->|Hb13].
      * destruct (ends_plain_control _ _ Hplain ltac:(auto)) as (d & text'' & ->).
        do 2 apply ends_plain_tail in Hplain. cbn [app length] in *.
        apply IH; [lia | exact Hplain].
      * apply ends_plain_tail in Hplain. apply IH; [lia | exact Hplain].
    + destruct (Z.eqb_spec a 13) as [->|Ha13].
      * destruct (ends_plain_control _ _ Hplain ltac:(auto)) as (b & text' & ->).
        do 2 apply ends_plain_tail in Hplain. cbn [app length] in *.
        apply IH; [lia | exact Hplain].
      * apply ends_plain_tail in Hplain. apply IH; [lia | exact Hplain].
Qed.

(** C10 (amended): [ILI9341DrawString] calls [ILI9341DrawChar] with
    character code 0 exactly for the strings that, read from the left as the
    loop reads them, end in a line break (a line feed with a carriage return
    behind it, a line feed alone, or a carriage return) that is not itself
    the character drawn behind an earlier line break.  This is so whenever
    the final line feed or carriage return, or the final pair of line feed
    and carriage return, stands at the start of the string or behind a
    character that is neither of the two.  The rows of character 0 are read
    from the glyph table at the negative indices (0 - 32) * FontHeight + i,
    before the start of the table. *)
Theorem DrawString_draws_terminator (x y : Z) (font : Font_t) (text rest : list Z) :
  Forall (fun b => b <> 0) text ->
  (DrawString_draws_NUL x y (text ++ 0 :: rest) font <-> ends_in_break text = true) /\
  (forall before c, text = before ++ [c] -> c = 10 \/ c = 13 -> ends_plain before ->
     ends_in_break text = true) /\
  (forall before, text = before ++ [10; 13] -> ends_plain before ->
     ends_in_break text = true) /\
  (forall i, 0 <= i < FontHeight font ->
     DrawChar_row_index font 0 i = (0 - 32) * FontHeight font + i /\
     DrawChar_row_index font 0 i < 0) /\
  (forall foreground background i s,
     DrawChar_row font 0 foreground background i s
     = for_uint16 (Z.to_nat (FontWidth font)) 0 (FontWidth font)
         (DrawChar_column font foreground background
            (to_uint16 (font_data font ((0 - 32) * FontHeight font + i))) i) s).
Proof.
  intros Hnz. split; [|split; [|split; [|split]]].
  - destruct (DrawString_loop_break (S (length (text ++ 0 :: rest))) text rest x font x y Hnz)
      as [Hyes Hno].
    { rewrite length_app. cbn [length]. lia. }
    unfold DrawString_draws_NUL, ILI9341DrawString_calls. split.
    + intros (lx & ly & Hin). destruct (ends_in_break text) eqn:E; [reflexivity|].
      specialize (Hno eq_refl). rewrite Forall_forall in Hno.
      specialize (Hno _ Hin). cbn [snd] in Hno. contradiction.
    + exact Hyes.
  - intros before c -> Hc Hplain.
    rewrite (ends_in_break_after_plain (length before)) by (try exact Hplain; lia).
    destruct Hc as [-> | ->]; reflexivity.
  - intros before -> Hplain.
    rewrite (ends_in_break_after_plain (length before)) by (try exact Hplain; lia).
    reflexivity.
  - intros i Hi. unfold DrawChar_row_index. split; [reflexivity | lia].
  - reflexivity.
Qed.

(** "A\n\r": the line feed and the carriage return are stepped over together
    and the terminator is drawn at the left edge of the next text line. *)
Lemma DrawString_draws_terminator_witness :
  DrawString_draws_NUL 5 7 [65; 10; 13; 0] example_font_16x26 /\
  DrawChar_row_index example_font_16x26 0 0 = -832.
Proof.
  destruct (DrawString_draws_terminator 5 7 example_font_16x26 [65; 10; 13] [])
    as (Hnul & _ & _ & Hidx & _).
  - repeat constructor; discriminate.
  - split; [apply Hnul; reflexivity|]. apply (Hidx 0). cbn. lia.
Defined.

(** C10 as stated fails for a string that ends in CR LF: in "A\r\n" the
    carriage return makes the loop step to the line feed and draw it as a
    character; the loop test then finds the terminator, which is not drawn. *)
Lemma DrawString_CRLF_skips_terminator :
  ~ DrawString_draws_NUL 0 0 [65; 13; 10; 0] example_font_16x26.
Proof.
  intros (lx & ly & Hin). vm_compute in Hin.
  destruct Hin as [Hin|[Hin|[]]]; discriminate Hin.
Qed.

(** * The rest of the driver *)

(** ** More on [Fill] *)

Lemma to_int16_congr a b k : a = b + k * 2 ^ 16 -> to_int16 a = to_int16 b.
Proof.
  intros ->. unfold to_int16.
  replace (b + k * 2 ^ 16 + 2 ^ 15) with (b + 2 ^ 15 + k * 2 ^ 16) by lia.
  rewrite Z_mod_plus_full. reflexivity.
Qed.

Lemma to_int16_opp_idem z : to_int16 (- to_int16 z) = to_int16 (- z).
Proof.
  apply (to_int16_congr _ _ ((z + 2 ^ 15) `div` 2 ^ 16)).
  unfold to_int16. pose proof (Z.div_mod (z + 2 ^ 15) (2 ^ 16) ltac:(lia)). lia.
Qed.

(** The distance that [Fill] computes for one axis does not depend on which
    of the two coordinates comes first. *)
Lemma Fill_dist_sym a b :
  (if a >? b then to_int16 (- to_int16 (b - a)) else to_int16 (b - a))
  = (if b >? a then to_int16 (- to_int16 (a - b)) else to_int16 (a - b)).
Proof.
  destruct (Z.gtb_spec a b), (Z.gtb_spec b a); try lia.
  - rewrite to_int16_opp_idem. f_equal. lia.
  - rewrite to_int16_opp_idem. f_equal. lia.
  - f_equal. lia.
Qed.

(** X1: [Fill] sends the same transactions whichever of the two opposite
    corners is passed first, for all arguments. *)
Theorem Fill_corner_order (x0 y0 x1 y1 color : Z) :
  Fill x1 y1 x0 y0 color = Fill x0 y0 x1 y1 color /\
  Fill x1 y0 x0 y1 color = Fill x0 y0 x1 y1 color /\
  Fill x0 y1 x1 y0 color = Fill x0 y0 x1 y1 color.
Proof.
  assert (Hw : forall a b c d, SetCursorPosition c d a b = SetCursorPosition a b c d).
  { intros a b c d. rewrite !SetCursorPosition_sorted.
    rewrite (Z.min_comm c a), (Z.max_comm c a), (Z.min_comm d b), (Z.max_comm d b).
    reflexivity. }
  assert (Hwx : forall a b c d, SetCursorPosition c b a d = SetCursorPosition a b c d).
  { intros a b c d. rewrite !SetCursorPosition_sorted.
    rewrite (Z.min_comm c a), (Z.max_comm c a). reflexivity. }
  assert (Hwy : forall a b c d, SetCursorPosition a d c b = SetCursorPosition a b c d).
  { intros a b c d. rewrite !SetCursorPosition_sorted.
    rewrite (Z.min_comm d b), (Z.max_comm d b). reflexivity. }
  unfold Fill. repeat split.
  - rewrite (Fill_dist_sym x1 x0), (Fill_dist_sym y1 y0), Hw. reflexivity.
  - rewrite (Fill_dist_sym x1 x0), Hwx. reflexivity.
  - rewrite (Fill_dist_sym y1 y0), Hwy. reflexivity.
Qed.

(** X2: filling the rectangle whose two corners coincide is the same as
    drawing that pixel: [Fill(x,y,x,y,color)] and [ILI9341DrawPixel(x,y,color)]
    send identical transactions. *)
Theorem Fill_one_pixel (x y color : Z) :
  Fill x y x y color = Some (ILI9341DrawPixel x y color).
Proof.
  unfold Fill, ILI9341DrawPixel. rewrite !Z.sub_diag.
  destruct (Z.gtb_spec x x); [lia|]. destruct (Z.gtb_spec y y); [lia|].
  reflexivity.
Qed.

Lemma Fill_payload_length x0 y0 x1 y1 color :
  Z.abs (x1 - x0) < 2 ^ 15 -> Z.abs (y1 - y0) < 2 ^ 15 ->
  (Z.abs (x1 - x0) + 1) * (Z.abs (y1 - y0) + 1) * 2 < 2 ^ 31 ->
  exists tr, Fill x0 y0 x1 y1 color = Some tr /\
    Z.of_nat (length (payload_bytes (pixel_stream tr)))
    = (Z.abs (x1 - x0) + 1) * (Z.abs (y1 - y0) + 1) * 2.
Proof.
  intros Hx Hy Hn.
  pose proof (Fill_trace x0 y0 x1 y1 color Hx Hy Hn) as Htr. cbv zeta in Htr.
  set (p := (Z.abs (x1 - x0) + 1) * (Z.abs (y1 - y0) + 1)) in *.
  assert (Hp : 1 <= p) by (unfold p; nia).
  set (q := (p * 2 - 1) `div` 256) in *.
  assert (Hq : 0 <= q) by (apply Z.div_pos; lia).
  assert (Hr : 0 < p * 2 - 256 * q <= 256).
  { pose proof (Z.div_mod (p * 2 - 1) 256 ltac:(lia)).
    pose proof (Z.mod_pos_bound (p * 2 - 1) 256 ltac:(lia)). unfold q. lia. }
  eexists. split; [exact Htr|].
  rewrite pixel_stream_after_window.
  replace (p * 2 - 256 * q) with ((p - 128 * q) * 2) in * by lia.
  rewrite Fill_stream_bytes; [| lia | apply Z.mod_mul; lia].
  rewrite length_join_pairs, Z.div_mul by lia. lia.
Qed.

(** ** More on lines *)

Lemma DrawLine_clamp_inside d v : v < d -> DrawLine_clamp d v = v.
Proof. intros H. unfold DrawLine_clamp. destruct (Z.geb_spec v d); [lia | reflexivity]. Qed.

Lemma DrawLine_calls_axis lcd x0 y0 x1 y1 color :
  x0 < width lcd -> x1 < width lcd -> y0 < height lcd -> y1 < height lcd ->
  x0 = x1 \/ y0 = y1 ->
  ILI9341DrawLine_calls lcd x0 y0 x1 y1 color = Some [CallFill x0 y0 x1 y1 color].
Proof.
  intros Hx0 Hx1 Hy0 Hy1 Haxis. unfold ILI9341DrawLine_calls.
  rewrite !DrawLine_clamp_inside by assumption.
  destruct Haxis as [<- | <-].
  - rewrite Z.sub_diag. destruct (Z.gtb_spec x0 x0); [lia|].
    change (to_int16 0) with 0.
    destruct (if y0 >? y1 then (to_int16 (- to_int16 (y1 - y0)), UP)
              else (to_int16 (y1 - y0), DOWN)) as [y_dist y_grow].
    reflexivity.
  - rewrite Z.sub_diag. destruct (Z.gtb_spec y0 y0); [lia|].
    change (to_int16 0) with 0.
    destruct (if x0 >? x1 then (to_int16 (- to_int16 (x1 - x0)), LEFT)
              else (to_int16 (x1 - x0), RIGHT)) as [x_dist x_grow].
    rewrite orb_true_r. reflexivity.
Qed.

Lemma run_calls_one_fill x0 y0 x1 y1 color :
  run_calls [CallFill x0 y0 x1 y1 color] = Fill x0 y0 x1 y1 color.
Proof.
  cbn [run_calls run_call]. destruct (Fill x0 y0 x1 y1 color) as [tr|]; [|reflexivity].
  cbn [mbind option_bind]. rewrite app_nil_r. reflexivity.
Qed.

(** X3: a horizontal or vertical line whose end points are on the panel is not
    rasterised: [ILI9341DrawLine] sends exactly the transactions of [Fill] on
    the same corners, a strip one pixel thick of 2 * (length in pixels) bytes
    (for a panel of at most 2^15 columns and rows). *)
Theorem ILI9341DrawLine_axis_aligned (lcd : orientation_properties_t)
    (x0 y0 x1 y1 color : Z) :
  0 <= x0 < width lcd -> 0 <= x1 < width lcd ->
  0 <= y0 < height lcd -> 0 <= y1 < height lcd ->
  width lcd <= 2 ^ 15 -> height lcd <= 2 ^ 15 ->
  x0 = x1 \/ y0 = y1 ->
  ILI9341DrawLine lcd x0 y0 x1 y1 color = Fill x0 y0 x1 y1 color /\
  exists tr, ILI9341DrawLine lcd x0 y0 x1 y1 color = Some tr /\
    Z.of_nat (length (payload_bytes (pixel_stream tr)))
    = 2 * (Z.abs (x1 - x0) + Z.abs (y1 - y0) + 1).
Proof.
  intros Hx0 Hx1 Hy0 Hy1 Hw Hh Haxis.
  assert (Heq : ILI9341DrawLine lcd x0 y0 x1 y1 color = Fill x0 y0 x1 y1 color).
  { unfold ILI9341DrawLine. rewrite DrawLine_calls_axis by lia.
    cbn [mbind option_bind]. apply run_calls_one_fill. }
  split; [exact Heq|]. rewrite Heq.
  destruct (Fill_payload_length x0 y0 x1 y1 color) as (tr & Htr & Hlen);
    [lia | lia | destruct Haxis as [<- | <-]; rewrite Z.sub_diag; cbn [Z.abs]; lia |].
  exists tr. split; [exact Htr|]. rewrite Hlen.
  destruct Haxis as [<- | <-]; rewrite Z.sub_diag; cbn [Z.abs]; lia.
Qed.

(** A vertical line of seven pixels on the portrait panel. *)
Lemma ILI9341DrawLine_axis_aligned_witness :
  ILI9341DrawLine (lcd_orientation 240 320) 3 3 3 9 7 = Fill 3 3 3 9 7 /\
  exists tr, ILI9341DrawLine (lcd_orientation 240 320) 3 3 3 9 7 = Some tr /\
    Z.of_nat (length (payload_bytes (pixel_stream tr))) = 2 * (Z.abs (3 - 3) + Z.abs (9 - 3) + 1).
Proof.
  apply (ILI9341DrawLine_axis_aligned (lcd_orientation 240 320) 3 3 3 9 7);
    first [left; reflexivity | vm_compute; intuition congruence].
Defined.

Lemma DrawLine_loop_step fuel x0 y0 x1 y1 color x_dist y_dist x_grow y_grow error :
  x0 <> x1 -> y0 <> y1 ->
  is_uint16 (x0 + x_grow) -> is_uint16 (y0 + y_grow) ->
  DrawLine_loop (S fuel) x0 y0 x1 y1 color x_dist y_dist x_grow y_grow error
  = (rest ← DrawLine_loop fuel
              (if error >? - x_dist then x0 + x_grow else x0)
              (if error <? y_dist then y0 + y_grow else y0)
              x1 y1 color x_dist y_dist x_grow y_grow
              (if error <? y_dist
               then to_int16 ((if error >? - x_dist then to_int16 (error - y_dist) else error)
                              + x_dist)
               else (if error >? - x_dist then to_int16 (error - y_dist) else error));
     Some (CallDrawPixel x0 y0 color :: rest)).
Proof.
  intros Hx Hy Hxr Hyr. cbn [DrawLine_loop].
  destruct (Z.eqb_spec x0 x1); [contradiction|].
  destruct (Z.eqb_spec y0 y1); [contradiction|]. cbn [orb].
  destruct (error >? - x_dist), (error <? y_dist);
    rewrite ?to_uint16_small by assumption; reflexivity.
Qed.

(** The pixels of the Bresenham loop form a path in the sense of
    [line_path]. *)
Lemma DrawLine_loop_path fuel : forall x0 y0 x1 y1 color x_dist y_dist x_grow y_grow error,
  is_uint16 x0 -> is_uint16 y0 -> is_uint16 x1 -> is_uint16 y1 ->
  0 < x_dist -> 0 < y_dist ->
  (x_grow = 1 /\ x0 <= x1) \/ (x_grow = -1 /\ x1 <= x0) ->
  (y_grow = 1 /\ y0 <= y1) \/ (y_grow = -1 /\ y1 <= y0) ->
  Z.abs (x1 - x0) + Z.abs (y1 - y0) < Z.of_nat fuel ->
  exists rest,
    DrawLine_loop fuel x0 y0 x1 y1 color x_dist y_dist x_grow y_grow error
    = Some (CallDrawPixel x0 y0 color :: rest) /\
    line_path x1 y1 (CallDrawPixel x0 y0 color :: rest).
Proof.
  induction fuel as [|fuel IH];
    intros x0 y0 x1 y1 color x_dist y_dist x_grow y_grow error
           Hx0 Hy0 Hx1 Hy1 Hxd Hyd Hxg Hyg Hfuel; [lia|].
  unfold is_uint16 in *.
  destruct (Z.eq_dec x0 x1) as [Hex|Hnx].
  { exists []. cbn [DrawLine_loop line_path]. subst x1. rewrite Z.eqb_refl.
    split; [reflexivity | left; reflexivity]. }
  destruct (Z.eq_dec y0 y1) as [Hey|Hny].
  { exists []. cbn [DrawLine_loop line_path]. subst y1. rewrite Z.eqb_refl, orb_true_r.
    split; [reflexivity | right; reflexivity]. }
  rewrite DrawLine_loop_step by (unfold is_uint16; lia).
  set (x0' := if error >? - x_dist then x0 + x_grow else x0).
  set (y0' := if error <? y_dist then y0 + y_grow else y0).
  set (e' := if error <? y_dist then _ else _).
  assert (Hmove : (Z.abs (x0' - x0) <= 1 /\ Z.abs (y0' - y0) <= 1 /\
                   (x0' <> x0 \/ y0' <> y0)) /\
                  (Z.abs (x1 - x0') <= Z.abs (x1 - x0) /\
                   Z.abs (y1 - y0') <= Z.abs (y1 - y0)) /\
                  Z.abs (x1 - x0') + Z.abs (y1 - y0') < Z.abs (x1 - x0) + Z.abs (y1 - y0) /\
                  ((x_grow = 1 /\ x0' <= x1) \/ (x_grow = -1 /\ x1 <= x0')) /\
                  ((y_grow = 1 /\ y0' <= y1) \/ (y_grow = -1 /\ y1 <= y0'))).
  { unfold x0', y0'.
    destruct (Z.gtb_spec error (- x_dist)), (Z.ltb_spec error y_dist); lia. }
  destruct Hmove as (Hadj & Htoward & Hless & Hxg' & Hyg').
  destruct (IH x0' y0' x1 y1 color x_dist y_dist x_grow y_grow e')
    as (rest & Hrest & Hpath); unfold is_uint16; try lia; try assumption.
  rewrite Hrest. cbn [mbind option_bind].
  eexists. split; [reflexivity|].
  cbn [line_path]. cbn [line_path] in Hpath.
  repeat split; first [lia | tauto | exact Hpath].
Qed.

(** X4: a line that is neither horizontal nor vertical, between two points of
    the panel, is drawn pixel by pixel from its start point as an 8-connected
    path that never moves away from the end point; the path stops at the
    first pixel that lies in the column or in the row of the end point, and
    no earlier pixel does. *)
Theorem ILI9341DrawLine_path (lcd : orientation_properties_t) (x0 y0 x1 y1 color : Z) :
  0 <= x0 < width lcd -> 0 <= x1 < width lcd ->
  0 <= y0 < height lcd -> 0 <= y1 < height lcd ->
  width lcd <= 2 ^ 15 -> height lcd <= 2 ^ 15 ->
  x0 <> x1 -> y0 <> y1 ->
  exists rest,
    ILI9341DrawLine_calls lcd x0 y0 x1 y1 color = Some (CallDrawPixel x0 y0 color :: rest) /\
    line_path x1 y1 (CallDrawPixel x0 y0 color :: rest).
Proof.
  intros Hx0 Hx1 Hy0 Hy1 Hw Hh Hnx Hny. unfold ILI9341DrawLine_calls.
  rewrite !DrawLine_clamp_inside by lia.
  unfold LEFT, RIGHT, UP, DOWN.
  rewrite (DrawLine_dist x0 x1), (DrawLine_dist y0 y1) by lia.
  destruct (Z.eqb_spec (Z.abs (x1 - x0)) 0); [lia|].
  destruct (Z.eqb_spec (Z.abs (y1 - y0)) 0); [lia|]. cbn [orb].
  apply DrawLine_loop_path; unfold is_uint16; try lia.
  - destruct (Z.gtb_spec x0 x1); lia.
  - destruct (Z.gtb_spec y0 y1); lia.
Qed.

Lemma ILI9341DrawLine_path_witness :
  exists rest,
    ILI9341DrawLine_calls (lcd_orientation 240 320) 5 9 1 2 7
    = Some (CallDrawPixel 5 9 7 :: rest) /\
    line_path 1 2 (CallDrawPixel 5 9 7 :: rest).
Proof.
  apply (ILI9341DrawLine_path (lcd_orientation 240 320) 5 9 1 2 7);
    cbn [lcd_orientation width height]; vm_compute; intuition congruence.
Defined.

(** The loop on a line of slope 1 or -1: both coordinates move in every
    iteration and the error term keeps its value. *)
Lemma DrawLine_loop_diagonal n : forall fuel x0 y0 color d sx sy error,
  (sx = 1 \/ sx = -1) -> (sy = 1 \/ sy = -1) ->
  0 <= error < d -> d < 2 ^ 15 ->
  0 <= x0 -> 0 <= x0 + sx * Z.of_nat n -> x0 < 2 ^ 16 -> x0 + sx * Z.of_nat n < 2 ^ 16 ->
  0 <= y0 -> 0 <= y0 + sy * Z.of_nat n -> y0 < 2 ^ 16 -> y0 + sy * Z.of_nat n < 2 ^ 16 ->
  (n < fuel)%nat ->
  DrawLine_loop fuel x0 y0 (x0 + sx * Z.of_nat n) (y0 + sy * Z.of_nat n) color d d sx sy error
  = Some (diagonal_pixels n x0 y0 sx sy color).
Proof.
  induction n as [|n IH];
    intros fuel x0 y0 color d sx sy error Hsx Hsy He Hd Hxa Hxb Hxc Hxd Hya Hyb Hyc Hyd Hfuel;
    (destruct fuel as [|fuel]; [lia|]).
  - cbn [DrawLine_loop diagonal_pixels].
    replace (x0 + sx * Z.of_nat 0) with x0 by lia. rewrite Z.eqb_refl. reflexivity.
  - rewrite DrawLine_loop_step by (unfold is_uint16; lia).
    destruct (Z.gtb_spec error (- d)); [|lia]. destruct (Z.ltb_spec error d); [|lia].
    rewrite (to_int16_small (error - d)) by (unfold is_int16; lia).
    replace (error - d + d) with error by lia.
    rewrite (to_int16_small error) by (unfold is_int16; lia).
    replace (x0 + sx * Z.of_nat (S n)) with (x0 + sx + sx * Z.of_nat n) by lia.
    replace (y0 + sy * Z.of_nat (S n)) with (y0 + sy + sy * Z.of_nat n) by lia.
    rewrite IH by lia. reflexivity.
Qed.

Lemma diagonal_pixels_last n : forall x y sx sy color,
  In (CallDrawPixel (x + sx * Z.of_nat n) (y + sy * Z.of_nat n) color)
     (diagonal_pixels n x y sx sy color) /\
  length (diagonal_pixels n x y sx sy color) = S n.
Proof.
  induction n as [|n IH]; intros x y sx sy color.
  - cbn. split; [left; f_equal; lia | reflexivity].
  - cbn [diagonal_pixels length]. destruct (IH (x + sx) (y + sy) sx sy color) as [Hin Hlen].
    split; [right|rewrite Hlen; reflexivity].
    replace (x + sx * Z.of_nat (S n)) with (x + sx + sx * Z.of_nat n) by lia.
    replace (y + sy * Z.of_nat (S n)) with (y + sy + sy * Z.of_nat n) by lia.
    exact Hin.
Qed.

(** X5: a line at 45 degrees between two points of the panel is drawn in
    full: with d = |x1-x0| = |y1-y0| > 0 the calls are the d + 1 pixels
    (x0 + i*sx, y0 + i*sy), i = 0..d, where sx and sy are the signs of x1-x0
    and y1-y0; the end point is the last of them. *)
Theorem ILI9341DrawLine_diagonal (lcd : orientation_properties_t) (x0 y0 x1 y1 color : Z) :
  0 <= x0 < width lcd -> 0 <= x1 < width lcd ->
  0 <= y0 < height lcd -> 0 <= y1 < height lcd ->
  width lcd <= 2 ^ 15 -> height lcd <= 2 ^ 15 ->
  x0 <> x1 -> Z.abs (x1 - x0) = Z.abs (y1 - y0) ->
  ILI9341DrawLine_calls lcd x0 y0 x1 y1 color
  = Some (diagonal_pixels (Z.to_nat (Z.abs (x1 - x0))) x0 y0
            (Z.sgn (x1 - x0)) (Z.sgn (y1 - y0)) color) /\
  In (CallDrawPixel x1 y1 color)
     (diagonal_pixels (Z.to_nat (Z.abs (x1 - x0))) x0 y0
        (Z.sgn (x1 - x0)) (Z.sgn (y1 - y0)) color) /\
  Z.of_nat (length (diagonal_pixels (Z.to_nat (Z.abs (x1 - x0))) x0 y0
                      (Z.sgn (x1 - x0)) (Z.sgn (y1 - y0)) color))
  = Z.abs (x1 - x0) + 1.
Proof.
  intros Hx0 Hx1 Hy0 Hy1 Hw Hh Hnx Hdiag.
  set (d := Z.abs (x1 - x0)) in *.
  set (sx := Z.sgn (x1 - x0)). set (sy := Z.sgn (y1 - y0)).
  assert (Hd : 0 < d) by (unfold d; lia).
  assert (Hex : x1 = x0 + sx * Z.of_nat (Z.to_nat d)) by (unfold sx, d; lia).
  assert (Hey : y1 = y0 + sy * Z.of_nat (Z.to_nat d)) by (unfold sy; lia).
  destruct (diagonal_pixels_last (Z.to_nat d) x0 y0 sx sy color) as [Hin Hlen].
  rewrite <- Hex, <- Hey in Hin.
  split; [|split; [exact Hin | rewrite Hlen; lia]].
  unfold ILI9341DrawLine_calls.
  rewrite !DrawLine_clamp_inside by lia.
  unfold LEFT, RIGHT, UP, DOWN.
  rewrite (DrawLine_dist x0 x1), (DrawLine_dist y0 y1) by lia.
  fold d. rewrite <- Hdiag.
  destruct (Z.eqb_spec d 0); [lia|]. cbn [orb].
  destruct (Z.gtb_spec d d); [lia|].
  assert (Hq : 0 <= d `quot` 2 < d).
  { split; [apply Z.quot_pos; lia | apply Z.quot_lt; lia]. }
  rewrite (to_int16_small (d `quot` 2)) by (unfold is_int16; lia).
  replace (if x0 >? x1 then -1 else 1) with sx
    by (unfold sx; destruct (Z.gtb_spec x0 x1); lia).
  replace (if y0 >? y1 then -1 else 1) with sy
    by (unfold sy; destruct (Z.gtb_spec y0 y1); lia).
  rewrite Hex at 1. rewrite Hey at 1.
  apply DrawLine_loop_diagonal; unfold sx, sy; lia.
Qed.

Lemma ILI9341DrawLine_diagonal_witness :
  ILI9341DrawLine_calls (lcd_orientation 240 320) 10 7 7 10 0xF800
  = Some [CallDrawPixel 10 7 0xF800; CallDrawPixel 9 8 0xF800;
          CallDrawPixel 8 9 0xF800; CallDrawPixel 7 10 0xF800].
Proof.
  apply (ILI9341DrawLine_diagonal (lcd_orientation 240 320) 10 7 7 10 0xF800);
    cbn [lcd_orientation width height]; vm_compute; intuition congruence.
Defined.

(** ** Rectangles *)

(** X6: the outline of a rectangle whose corners are on the panel is drawn as
    four fills, top, right, bottom and left edge in this order, each a strip
    one pixel thick between two of the corners; no pixel is drawn
    individually. *)
Theorem ILI9341DrawRectangle_four_fills (lcd : orientation_properties_t)
    (x0 y0 x1 y1 color : Z) :
  x0 < width lcd -> x1 < width lcd -> y0 < height lcd -> y1 < height lcd ->
  ILI9341DrawRectangle_calls lcd x0 y0 x1 y1 color
  = Some [CallFill x0 y0 x1 y0 color; CallFill x1 y0 x1 y1 color;
          CallFill x0 y1 x1 y1 color; CallFill x0 y0 x0 y1 color] /\
  exists top right bottom left,
    Fill x0 y0 x1 y0 color = Some top /\ Fill x1 y0 x1 y1 color = Some right /\
    Fill x0 y1 x1 y1 color = Some bottom /\ Fill x0 y0 x0 y1 color = Some left /\
    ILI9341DrawRectangle lcd x0 y0 x1 y1 color = Some (top ++ right ++ bottom ++ left).
Proof.
  intros Hx0 Hx1 Hy0 Hy1.
  assert (Hcalls : ILI9341DrawRectangle_calls lcd x0 y0 x1 y1 color
                   = Some [CallFill x0 y0 x1 y0 color; CallFill x1 y0 x1 y1 color;
                           CallFill x0 y1 x1 y1 color; CallFill x0 y0 x0 y1 color]).
  { unfold ILI9341DrawRectangle_calls.
    rewrite !DrawLine_calls_axis by auto. reflexivity. }
  split; [exact Hcalls|].
  destruct (Fill_returns x0 y0 x1 y0 color) as (top & Htop).
  destruct (Fill_returns x1 y0 x1 y1 color) as (right & Hright).
  destruct (Fill_returns x0 y1 x1 y1 color) as (bottom & Hbottom).
  destruct (Fill_returns x0 y0 x0 y1 color) as (left & Hleft).
  exists top, right, bottom, left. repeat (split; [assumption|]).
  unfold ILI9341DrawRectangle. rewrite Hcalls.
  cbn [mbind option_bind run_calls run_call].
  rewrite Htop, Hright, Hbottom, Hleft. cbn [mbind option_bind].
  rewrite app_nil_r. reflexivity.
Qed.

Lemma ILI9341DrawRectangle_four_fills_witness :
  ILI9341DrawRectangle_calls (lcd_orientation 240 320) 10 20 50 40 0x07E0
  = Some [CallFill 10 20 50 20 0x07E0; CallFill 50 20 50 40 0x07E0;
          CallFill 10 40 50 40 0x07E0; CallFill 10 20 10 40 0x07E0].
Proof.
  apply (ILI9341DrawRectangle_four_fills (lcd_orientation 240 320) 10 20 50 40 0x07E0);
    reflexivity.
Defined.

(** ** More on circles *)

(** One iteration of the midpoint loop: the statics after the update, for a
    radius small enough that nothing wraps in [int16_t]. *)
Lemma midpoint_step r f ddF_x ddF_y x y :
  0 <= r < 2 ^ 12 -> 0 <= x -> x < y -> y <= r ->
  midpoint_inv r f ddF_x ddF_y x y ->
  let y' := if f >=? 0 then y - 1 else y in
  (if f >=? 0
   then (to_int16 (y - 1), to_int16 (ddF_y + 2), to_int16 (f + to_int16 (ddF_y + 2)))
   else (y, ddF_y, f))
  = (y', -2 * y', if f >=? 0 then f - 2 * y + 2 else f) /\
  to_int16 (x + 1) = x + 1 /\
  to_int16 (ddF_x + 2) = 2 * (x + 1) + 1 /\
  to_int16 ((if f >=? 0 then f - 2 * y + 2 else f) + (2 * (x + 1) + 1))
  = (if f >=? 0 then f - 2 * y + 2 else f) + (2 * (x + 1) + 1) /\
  x <= y' <= y /\
  on_circle r (x + 1, y') /\
  (x + 1 < y' ->
   midpoint_inv r ((if f >=? 0 then f - 2 * y + 2 else f) + (2 * (x + 1) + 1))
     (2 * (x + 1) + 1) (-2 * y') (x + 1) y').
Proof.
  intros Hr Hx Hlt Hy (Hdx & Hdy & Hf & Hd). cbv zeta.
  set (D := x * x + y * y - r * r) in *.
  assert (Hfr : f = D + 2 * x - y + 1) by lia.
  unfold on_circle, midpoint_inv. cbn [fst snd].
  destruct (Z.geb_spec f 0) as [Hge|Hneg].
  - assert (HD' : (x + 1) * (x + 1) + (y - 1) * (y - 1) - r * r = D + 2 * x - 2 * y + 2)
      by (unfold D; ring).
    rewrite HD'.
    rewrite (to_int16_small (y - 1)) by (unfold is_int16; lia).
    rewrite Hdy, Hdx.
    rewrite (to_int16_small (-2 * y + 2)) by (unfold is_int16; lia).
    rewrite (to_int16_small (f + (-2 * y + 2))) by (unfold is_int16; lia).
    rewrite (to_int16_small (x + 1)) by (unfold is_int16; lia).
    rewrite (to_int16_small (2 * x + 1 + 2)) by (unfold is_int16; lia).
    rewrite (to_int16_small (f - 2 * y + 2 + (2 * (x + 1) + 1))) by (unfold is_int16; lia).
    repeat split; try lia.
    f_equal; [f_equal|]; lia.
  - assert (HD' : (x + 1) * (x + 1) + y * y - r * r = D + 2 * x + 1)
      by (unfold D; ring).
    rewrite HD'.
    rewrite Hdy, Hdx.
    rewrite (to_int16_small (x + 1)) by (unfold is_int16; lia).
    rewrite (to_int16_small (2 * x + 1 + 2)) by (unfold is_int16; lia).
    rewrite (to_int16_small (f + (2 * (x + 1) + 1))) by (unfold is_int16; lia).
    repeat split; lia.
Qed.

Lemma on_circle_octants r x y :
  on_circle r (x, y) -> Forall (on_circle r) (octant_offsets (x, y)).
Proof.
  unfold on_circle, octant_offsets. cbn [fst snd]. intros H.
  repeat constructor; cbn [fst snd];
    match goal with
    | |- Z.abs ?e <= r => replace e with (x * x + y * y - r * r) by ring; exact H
    end.
Qed.

Lemma on_circle_bound r a b : 0 <= r -> on_circle r (a, b) -> - r <= a <= r /\ - r <= b <= r.
Proof. unfold on_circle. cbn [fst snd]. intros Hr H. nia. Qed.

(** The outline loop draws pixels only, at offsets that are on the circle. *)
Lemma DrawCircle_loop_on_circle fuel : forall x0 y0 color r f ddF_x ddF_y x y,
  0 <= r < 2 ^ 12 -> 0 <= x -> y <= r ->
  (x < y -> midpoint_inv r f ddF_x ddF_y x y) ->
  y - x <= Z.of_nat fuel ->
  exists calls offs,
    DrawCircle_loop fuel x0 y0 color f ddF_x ddF_y x y = Some calls /\
    pixels_of calls = offset_pixel x0 y0 <$> offs /\
    Forall (on_circle r) offs.
Proof.
  induction fuel as [|fuel IH]; intros x0 y0 color r f ddF_x ddF_y x y Hr Hx Hy Hinv Hfuel.
  - exists [], []. cbn [DrawCircle_loop]. destruct (Z.ltb_spec x y); [lia|].
    split; [reflexivity|]. split; [reflexivity | constructor].
  - cbn [DrawCircle_loop]. destruct (Z.ltb_spec x y) as [Hlt|Hge].
    + destruct (midpoint_step r f ddF_x ddF_y x y Hr Hx Hlt Hy (Hinv Hlt))
        as (Hupd & Hx' & Hdx' & Hf' & Hy' & Hon & Hnext).
      rewrite Hupd, Hx', Hdx', Hf'.
      set (y' := if f >=? 0 then y - 1 else y) in *.
      destruct (IH x0 y0 color r
                  ((if f >=? 0 then f - 2 * y + 2 else f) + (2 * (x + 1) + 1))
                  (2 * (x + 1) + 1) (-2 * y') (x + 1) y')
        as (rest & offs & Hrest & Hpix & Hoffs); try lia; [exact Hnext|].
      rewrite Hrest. cbn [mbind option_bind].
      exists (DrawCircle_octants x0 y0 (x + 1) y' color ++ rest),
             (octant_offsets (x + 1, y') ++ offs).
      split; [reflexivity|]. split.
      * rewrite pixels_of_app, pixels_of_octants, Hpix, fmap_app. reflexivity.
      * apply Forall_app. split; [apply on_circle_octants; exact Hon | exact Hoffs].
    + exists [], []. split; [reflexivity|]. split; [reflexivity | constructor].
Qed.

Lemma midpoint_inv_start r : 0 <= r -> midpoint_inv r (1 - r) 1 (-2 * r) 0 r.
Proof. intros Hr. unfold midpoint_inv. repeat split; lia. Qed.

(** X7: the outline of a circle of radius 0 <= r < 4096 that fits in the
    coordinate range is drawn on the circle: every pixel (px, py) that
    [ILI9341DrawCircle] draws satisfies |(px-x0)^2 + (py-y0)^2 - r^2| <= r,
    and therefore lies in the square of side 2r + 1 around the centre. *)
Theorem ILI9341DrawCircle_on_circle (x0 y0 r color : Z) :
  0 <= r < 2 ^ 12 ->
  r <= x0 -> x0 + r < 2 ^ 16 -> r <= y0 -> y0 + r < 2 ^ 16 ->
  exists calls,
    ILI9341DrawCircle_calls x0 y0 r color = Some calls /\
    forall px py, In (px, py) (pixels_of calls) ->
      Z.abs ((px - x0) * (px - x0) + (py - y0) * (py - y0) - r * r) <= r /\
      x0 - r <= px <= x0 + r /\ y0 - r <= py <= y0 + r.
Proof.
  intros Hr Hxa Hxb Hya Hyb. unfold ILI9341DrawCircle_calls.
  rewrite (to_int16_small (1 - r)) by (unfold is_int16; lia).
  rewrite (to_int16_small (-2 * r)) by (unfold is_int16; lia).
  destruct (DrawCircle_loop_on_circle (Z.to_nat r) x0 y0 color r (1 - r) 1 (-2 * r) 0 r)
    as (rest & offs & Hrest & Hpix & Hoffs); try lia.
  { intros _. apply midpoint_inv_start. lia. }
  rewrite Hrest. cbn [mbind option_bind]. eexists. split; [reflexivity|].
  intros px py Hin.
  assert (Hoff : exists o, on_circle r o /\ (px, py) = offset_pixel x0 y0 o).
  { rewrite pixels_of_app in Hin. apply in_app_iff in Hin as [Hin|Hin].
    - cbn [pixels_of In] in Hin.
      destruct Hin as [Hin|[Hin|[Hin|[Hin|[]]]]]; rewrite <- Hin;
        [exists (0, r) | exists (0, - r) | exists (r, 0) | exists (- r, 0)];
        (split; [unfold on_circle; cbn [fst snd]; nia
                | unfold offset_pixel; cbn [fst snd]; f_equal; f_equal; lia]).
    - rewrite Hpix in Hin. apply in_map_iff in Hin as (o & Heq & Ho).
      exists o. split; [|symmetry; exact Heq].
      rewrite Forall_forall in Hoffs. apply Hoffs. exact Ho. }
  destruct Hoff as ([a b] & Hon & Heq).
  destruct (on_circle_bound r a b ltac:(lia) Hon) as [Ha Hb].
  unfold offset_pixel in Heq. cbn [fst snd] in Heq.
  rewrite !to_uint16_small in Heq by (unfold is_uint16; lia).
  injection Heq as -> ->.
  unfold on_circle in Hon. cbn [fst snd] in Hon.
  replace (x0 + a - x0) with a by lia. replace (y0 + b - y0) with b by lia.
  split; [exact Hon | lia].
Qed.

Lemma ILI9341DrawCircle_on_circle_witness :
  exists calls,
    ILI9341DrawCircle_calls 170 110 5 0xF800 = Some calls /\
    forall px py, In (px, py) (pixels_of calls) ->
      Z.abs ((px - 170) * (px - 170) + (py - 110) * (py - 110) - 5 * 5) <= 5 /\
      170 - 5 <= px <= 170 + 5 /\ 110 - 5 <= py <= 110 + 5.
Proof.
  apply (ILI9341DrawCircle_on_circle 170 110 5 0xF800); lia.
Defined.

(** ** Filled circles *)

Lemma run_calls_returns cs : exists tr, run_calls cs = Some tr.
Proof.
  induction cs as [|c cs (rest & IH)]; [exists []; reflexivity|].
  cbn [run_calls]. rewrite IH.
  destruct c as [x y color|x0 y0 x1 y1 color]; cbn [run_call mbind option_bind].
  - eexists. reflexivity.
  - destruct (Fill_returns x0 y0 x1 y1 color) as (tr & ->). cbn [mbind option_bind].
    eexists. reflexivity.
Qed.

(** The four spans of one iteration, for a point of the circle and a circle
    that lies on the panel: four fills, no rasterised line. *)
Lemma DrawFilledCircle_spans_on_panel lcd x0 y0 r x y color :
  0 <= r -> r <= x0 -> x0 + r < width lcd -> r <= y0 -> y0 + r < height lcd ->
  width lcd <= 2 ^ 16 -> height lcd <= 2 ^ 16 ->
  0 <= x <= r -> 0 <= y <= r ->
  DrawFilledCircle_spans lcd x0 y0 x y color
  = Some [CallFill (x0 - x) (y0 + y) (x0 + x) (y0 + y) color;
          CallFill (x0 + x) (y0 - y) (x0 - x) (y0 - y) color;
          CallFill (x0 + y) (y0 + x) (x0 - y) (y0 + x) color;
          CallFill (x0 + y) (y0 - x) (x0 - y) (y0 - x) color].
Proof.
  intros Hr Hxa Hxb Hya Hyb Hw Hh Hx Hy. unfold DrawFilledCircle_spans.
  rewrite !to_uint16_small by (unfold is_uint16; lia).
  rewrite !DrawLine_calls_axis by (auto; lia). reflexivity.
Qed.

Lemma pixels_of_octants_on_panel x0 y0 r x y color :
  r <= x0 -> x0 + r < 2 ^ 16 -> r <= y0 -> y0 + r < 2 ^ 16 ->
  0 <= x <= r -> 0 <= y <= r ->
  pixels_of (DrawCircle_octants x0 y0 x y color)
  = [(x0 + x, y0 + y); (x0 - x, y0 + y); (x0 + x, y0 - y); (x0 - x, y0 - y);
     (x0 + y, y0 + x); (x0 - y, y0 + x); (x0 + y, y0 - x); (x0 - y, y0 - x)].
Proof.
  intros Hxa Hxb Hya Hyb Hx Hy. unfold DrawCircle_octants. cbn [pixels_of].
  rewrite !to_uint16_small by (unfold is_uint16; lia). reflexivity.
Qed.

Lemma circle_span_iteration x0 y0 r x y color :
  on_circle r (x, y) ->
  Forall (circle_span x0 y0 r color)
    [CallFill (x0 - x) (y0 + y) (x0 + x) (y0 + y) color;
     CallFill (x0 + x) (y0 - y) (x0 - x) (y0 - y) color;
     CallFill (x0 + y) (y0 + x) (x0 - y) (y0 + x) color;
     CallFill (x0 + y) (y0 - x) (x0 - y) (y0 - x) color].
Proof.
  intros Hon. pose proof (on_circle_octants r x y Hon) as Hoct.
  unfold octant_offsets in Hoct. cbn [fst snd] in Hoct.
  rewrite Forall_forall in Hoct.
  repeat constructor.
  - exists x, y. split; [apply Hoct; cbn; tauto | left; reflexivity].
  - exists x, (- y). split; [apply Hoct; cbn; tauto | right; f_equal; lia].
  - exists y, x. split; [apply Hoct; cbn; tauto | right; reflexivity].
  - exists y, (- x). split; [apply Hoct; cbn; tauto | right; f_equal; lia].
Qed.

(** The outline loop and the filled loop, run from the same state, for a
    circle on the panel: the filled loop issues fills between mirror-image
    outline points only, and these cover every pixel of the outline loop. *)
Lemma DrawFilledCircle_loop_spans fuel : forall lcd x0 y0 color r f ddF_x ddF_y x y,
  0 <= r < 2 ^ 12 ->
  r <= x0 -> x0 + r < width lcd -> r <= y0 -> y0 + r < height lcd ->
  width lcd <= 2 ^ 16 -> height lcd <= 2 ^ 16 ->
  0 <= x -> y <= r ->
  (x < y -> midpoint_inv r f ddF_x ddF_y x y) ->
  y - x <= Z.of_nat fuel ->
  exists outline filled,
    DrawCircle_loop fuel x0 y0 color f ddF_x ddF_y x y = Some outline /\
    DrawFilledCircle_loop fuel lcd x0 y0 color f ddF_x ddF_y x y = Some filled /\
    Forall (circle_span x0 y0 r color) filled /\
    (forall px py, In (px, py) (pixels_of outline) -> Exists (call_draws px py) filled).
Proof.
  induction fuel as [|fuel IH];
    intros lcd x0 y0 color r f ddF_x ddF_y x y Hr Hxa Hxb Hya Hyb Hw Hh Hx Hy Hinv Hfuel.
  - exists [], []. cbn [DrawCircle_loop DrawFilledCircle_loop].
    destruct (Z.ltb_spec x y); [lia|].
    repeat split; try constructor. intros px py [].
  - cbn [DrawCircle_loop DrawFilledCircle_loop]. destruct (Z.ltb_spec x y) as [Hlt|Hge].
    + destruct (midpoint_step r f ddF_x ddF_y x y Hr Hx Hlt Hy (Hinv Hlt))
        as (Hupd & Hx' & Hdx' & Hf' & Hy' & Hon & Hnext).
      rewrite Hupd, Hx', Hdx', Hf'.
      set (y' := if f >=? 0 then y - 1 else y) in *.
      destruct (IH lcd x0 y0 color r
                  ((if f >=? 0 then f - 2 * y + 2 else f) + (2 * (x + 1) + 1))
                  (2 * (x + 1) + 1) (-2 * y') (x + 1) y')
        as (outline & filled & Houtline & Hfilled & Hspans & Hcover); try lia;
        [exact Hnext|].
      rewrite Houtline, Hfilled.
      rewrite (DrawFilledCircle_spans_on_panel lcd x0 y0 r (x + 1) y' color) by lia.
      cbn [mbind option_bind].
      eexists _, _. split; [reflexivity|]. split; [reflexivity|]. split.
      * apply Forall_app. split; [apply circle_span_iteration; exact Hon | exact Hspans].
      * intros px py Hin. rewrite pixels_of_app in Hin.
        apply Exists_app. apply in_app_iff in Hin as [Hin|Hin].
        -- left. rewrite (pixels_of_octants_on_panel x0 y0 r) in Hin by lia.
           cbn [In] in Hin.
           repeat (destruct Hin as [Hin|Hin];
                   [injection Hin as <- <-;
                    rewrite !Exists_cons; cbn [call_draws]; lia|]).
           destruct Hin.
        -- right. apply Hcover. exact Hin.
    + exists [], []. repeat split; try constructor. intros px py [].
Qed.

(** Both circle routines on a circle that lies on the panel. *)
Lemma DrawFilledCircle_calls_on_panel lcd x0 y0 r color :
  0 <= r < 2 ^ 12 ->
  r <= x0 -> x0 + r < width lcd -> r <= y0 -> y0 + r < height lcd ->
  width lcd <= 2 ^ 16 -> height lcd <= 2 ^ 16 ->
  exists outline spans,
    ILI9341DrawCircle_calls x0 y0 r color = Some outline /\
    ILI9341DrawFilledCircle_calls lcd x0 y0 r color
    = Some ([CallDrawPixel x0 (y0 + r) color; CallDrawPixel x0 (y0 - r) color;
             CallDrawPixel (x0 + r) y0 color; CallDrawPixel (x0 - r) y0 color] ++
            CallFill (x0 - r) y0 (x0 + r) y0 color :: spans) /\
    Forall (circle_span x0 y0 r color) spans /\
    (forall px py, In (px, py) (pixels_of outline) ->
       Exists (call_draws px py)
         ([CallDrawPixel x0 (y0 + r) color; CallDrawPixel x0 (y0 - r) color;
           CallDrawPixel (x0 + r) y0 color; CallDrawPixel (x0 - r) y0 color] ++
          CallFill (x0 - r) y0 (x0 + r) y0 color :: spans)).
Proof.
  intros Hr Hxa Hxb Hya Hyb Hw Hh.
  unfold ILI9341DrawCircle_calls, ILI9341DrawFilledCircle_calls.
  rewrite (to_int16_small (1 - r)) by (unfold is_int16; lia).
  rewrite (to_int16_small (-2 * r)) by (unfold is_int16; lia).
  destruct (DrawFilledCircle_loop_spans (Z.to_nat r) lcd x0 y0 color r (1 - r) 1 (-2 * r) 0 r)
    as (outline & filled & Houtline & Hfilled & Hspans & Hcover); try lia.
  { intros _. apply midpoint_inv_start. lia. }
  rewrite Houtline, Hfilled.
  rewrite !to_uint16_small by (unfold is_uint16; lia).
  rewrite DrawLine_calls_axis by (auto; lia).
  cbn [mbind option_bind].
  eexists _, filled. split; [reflexivity|]. split; [reflexivity|]. split; [exact Hspans|].
  intros px py Hin. rewrite pixels_of_app in Hin.
  apply in_app_iff in Hin as [Hin|Hin].
  - cbn [pixels_of In] in Hin. apply Exists_app. left.
    repeat (destruct Hin as [Hin|Hin];
            [injection Hin as <- <-; rewrite !Exists_cons; cbn [call_draws]; tauto|]).
    destruct Hin.
  - apply Exists_app. right. apply Exists_cons. right. apply Hcover. exact Hin.
Qed.

(** X8: for a circle of radius 0 <= r < 4096 that lies on the panel,
    [ILI9341DrawFilledCircle] draws the four cardinal pixels, fills the
    diameter row, and then only fills horizontal spans between two
    mirror-image points of the outline; every coordinate it passes on is on
    the panel, the routine returns, and no pixel it paints is farther from
    the centre than r^2 + r in squared distance. *)
Theorem ILI9341DrawFilledCircle_inside (lcd : orientation_properties_t)
    (x0 y0 r color : Z) :
  0 <= r < 2 ^ 12 ->
  r <= x0 -> x0 + r < width lcd -> r <= y0 -> y0 + r < height lcd ->
  width lcd <= 2 ^ 16 -> height lcd <= 2 ^ 16 ->
  exists spans tr,
    ILI9341DrawFilledCircle_calls lcd x0 y0 r color
    = Some ([CallDrawPixel x0 (y0 + r) color; CallDrawPixel x0 (y0 - r) color;
             CallDrawPixel (x0 + r) y0 color; CallDrawPixel (x0 - r) y0 color] ++
            CallFill (x0 - r) y0 (x0 + r) y0 color :: spans) /\
    ILI9341DrawFilledCircle lcd x0 y0 r color = Some tr /\
    Forall (circle_span x0 y0 r color) spans /\
    Forall (call_on_panel lcd)
      ([CallDrawPixel x0 (y0 + r) color; CallDrawPixel x0 (y0 - r) color;
        CallDrawPixel (x0 + r) y0 color; CallDrawPixel (x0 - r) y0 color] ++
       CallFill (x0 - r) y0 (x0 + r) y0 color :: spans) /\
    forall px py,
      Exists (call_draws px py)
        ([CallDrawPixel x0 (y0 + r) color; CallDrawPixel x0 (y0 - r) color;
          CallDrawPixel (x0 + r) y0 color; CallDrawPixel (x0 - r) y0 color] ++
         CallFill (x0 - r) y0 (x0 + r) y0 color :: spans) ->
      (px - x0) * (px - x0) + (py - y0) * (py - y0) <= r * r + r.
Proof.
  intros Hr Hxa Hxb Hya Hyb Hw Hh.
  destruct (DrawFilledCircle_calls_on_panel lcd x0 y0 r color Hr Hxa Hxb Hya Hyb Hw Hh)
    as (outline & spans & _ & Hfilled & Hspans & _).
  destruct (run_calls_returns
              ([CallDrawPixel x0 (y0 + r) color; CallDrawPixel x0 (y0 - r) color;
                CallDrawPixel (x0 + r) y0 color; CallDrawPixel (x0 - r) y0 color] ++
               CallFill (x0 - r) y0 (x0 + r) y0 color :: spans)) as (tr & Htr).
  exists spans, tr. split; [exact Hfilled|]. split.
  { unfold ILI9341DrawFilledCircle. rewrite Hfilled. exact Htr. }
  split; [exact Hspans|].
  assert (Hspan_facts : forall c, circle_span x0 y0 r color c ->
            call_on_panel lcd c /\
            forall px py, call_draws px py c ->
              (px - x0) * (px - x0) + (py - y0) * (py - y0) <= r * r + r).
  { intros c (a & b & Hon & Hc).
    destruct (on_circle_bound r a b ltac:(lia) Hon) as [Ha Hb].
    unfold on_circle in Hon. cbn [fst snd] in Hon.
    destruct Hc as [-> | ->]; cbn [call_on_panel call_draws]; (split; [lia|]);
      intros px py [Hpx Hpy];
      (assert (Hsq : (px - x0) * (px - x0) <= a * a) by nia);
      (replace (py - y0) with b by lia); lia. }
  split.
  - apply Forall_app. split.
    + repeat constructor; cbn [call_on_panel]; lia.
    + constructor; [cbn [call_on_panel]; lia|].
      eapply Forall_impl; [|exact Hspans]. intros c Hc. apply Hspan_facts. exact Hc.
  - intros px py Hex. apply Exists_app in Hex as [Hex|Hex].
    + rewrite !Exists_cons, Exists_nil in Hex. cbn [call_draws] in Hex.
      destruct Hex as [[-> ->]|[[-> ->]|[[-> ->]|[[-> ->]|[]]]]]; nia.
    + apply Exists_cons in Hex as [Hex|Hex].
      * cbn [call_draws] in Hex. destruct Hex as [Hpx Hpy].
        assert (Hsq : (px - x0) * (px - x0) <= r * r) by nia.
        replace (py - y0) with 0 by lia. lia.
      * apply Exists_exists in Hex as (c & Hc & Hdraw).
        rewrite Forall_forall in Hspans.
        apply (Hspan_facts c (Hspans c Hc)). exact Hdraw.
Qed.

Lemma ILI9341DrawFilledCircle_inside_witness :
  exists spans,
    ILI9341DrawFilledCircle_calls (ILI9341Rotate 240 320 ILI9341_Landscape_1
                                     (lcd_orientation 240 320)).1 170 110 5 0xF800
    = Some ([CallDrawPixel 170 115 0xF800; CallDrawPixel 170 105 0xF800;
             CallDrawPixel 175 110 0xF800; CallDrawPixel 165 110 0xF800] ++
            CallFill 165 110 175 110 0xF800 :: spans) /\
    Forall (circle_span 170 110 5 0xF800) spans.
Proof.
  destruct (ILI9341DrawFilledCircle_inside
              (ILI9341Rotate 240 320 ILI9341_Landscape_1 (lcd_orientation 240 320)).1
              170 110 5 0xF800)
    as (spans & tr & Hcalls & _ & Hspans & _);
    try (cbn [ILI9341Rotate ILI9341Rotate_case fst width height]; vm_compute;
         intuition congruence).
  exists spans. split; [exact Hcalls | exact Hspans].
Defined.

(** X9: on a circle of radius 0 <= r < 4096 that lies on the panel, every
    pixel that [ILI9341DrawCircle] draws is also painted by
    [ILI9341DrawFilledCircle] with the same centre and radius. *)
Theorem ILI9341DrawFilledCircle_covers_outline (lcd : orientation_properties_t)
    (x0 y0 r color : Z) :
  0 <= r < 2 ^ 12 ->
  r <= x0 -> x0 + r < width lcd -> r <= y0 -> y0 + r < height lcd ->
  width lcd <= 2 ^ 16 -> height lcd <= 2 ^ 16 ->
  exists outline filled,
    ILI9341DrawCircle_calls x0 y0 r color = Some outline /\
    ILI9341DrawFilledCircle_calls lcd x0 y0 r color = Some filled /\
    forall px py, In (px, py) (pixels_of outline) -> Exists (call_draws px py) filled.
Proof.
  intros Hr Hxa Hxb Hya Hyb Hw Hh.
  destruct (DrawFilledCircle_calls_on_panel lcd x0 y0 r color Hr Hxa Hxb Hya Hyb Hw Hh)
    as (outline & spans & Houtline & Hfilled & _ & Hcover).
  eexists outline, _. split; [exact Houtline|]. split; [exact Hfilled | exact Hcover].
Qed.

Lemma ILI9341DrawFilledCircle_covers_outline_witness :
  exists outline filled,
    ILI9341DrawCircle_calls 120 160 7 0x001F = Some outline /\
    ILI9341DrawFilledCircle_calls (lcd_orientation 240 320) 120 160 7 0x001F = Some filled /\
    forall px py, In (px, py) (pixels_of outline) -> Exists (call_draws px py) filled.
Proof.
  apply (ILI9341DrawFilledCircle_covers_outline (lcd_orientation 240 320) 120 160 7 0x001F);
    cbn [lcd_orientation width height]; vm_compute; intuition congruence.
Defined.

(** ** More on glyphs *)

Lemma pixel_store_eq pixel idx v :
  0 <= idx < 256 -> pixel_store pixel idx v = Some (<[Z.to_nat idx := v]> pixel).
Proof.
  intros H. unfold pixel_store, MAX_VALUE_SIZE.
  destruct (Z.leb_spec 0 idx); [|lia]. destruct (Z.ltb_spec idx 256); [|lia]. reflexivity.
Qed.











(** X11: for every font at most 32 pixels wide and fewer than 2^16 pixels
    high the pixel stream of [ILI9341DrawChar] consists of full 256-byte
    transfers followed by one last transfer of 2 to 256 bytes,
    FontWidth * FontHeight * 2 bytes in all; the number of full transfers is
    floor((pixels - 1) / 128), and no store leaves the 256-byte buffer. *)
Theorem ILI9341DrawChar_chunks (lcd : orientation_properties_t) (x y data : Z)
    (font : Font_t) (foreground background : Z) (pixel : list Z) :
  0 < FontWidth font <= 32 -> 0 < FontHeight font < 2 ^ 16 ->
  length pixel = 256%nat ->
  let pixels := FontHeight font * FontWidth font in
  exists tr pixel' last,
    ILI9341DrawChar lcd x y data font foreground background pixel = Some (tr, pixel') /\
    length pixel' = 256%nat /\
    chunk_lengths (pixel_stream tr)
    = replicate (Z.to_nat ((pixels - 1) `div` 128)) 256 ++ [last] /\
    2 <= last <= 256 /\
    256 * ((pixels - 1) `div` 128) + last = pixels * 2 /\
    requested_bytes (pixel_stream tr) = pixels * 2.
Proof.
  intros Hw Hh Hlen pixels.
  destruct (DrawChar_stream lcd x y data font foreground background pixel Hw Hh Hlen)
    as (tr & pixel' & sent & Htr & Hlen' & Hstream & Hsent & Hcount & Hq & Hr).
  fold pixels in Hstream, Hcount, Hq, Hr.
  assert (Hfl : DrawChar_flushes pixels = (pixels - 1) `div` 128).
  { unfold DrawChar_flushes. assert (0 <= (pixels - 1) `div` 128)
      by (apply Z.div_pos; unfold pixels; nia). lia. }
  rewrite Hfl in *.
  destruct (chunk_lengths_full _ Hsent) as [Hcl _].
  exists tr, pixel', (pixels * 2 - 256 * ((pixels - 1) `div` 128)).
  split; [exact Htr|]. split; [exact Hlen'|].
  assert (Hchunks : chunk_lengths (pixel_stream tr)
                    = replicate (Z.to_nat ((pixels - 1) `div` 128)) 256 ++
                      [pixels * 2 - 256 * ((pixels - 1) `div` 128)]).
  { rewrite Hstream. unfold chunk_lengths in *. rewrite fmap_app, Hcl, Hcount. reflexivity. }
  split; [exact Hchunks|]. split; [lia|]. split; [lia|].
  rewrite Hstream, requested_bytes_app.
  unfold requested_bytes at 2. cbn [chunk_lengths fmap list_fmap tx_len foldr].
  assert (Hsum : requested_bytes sent = 256 * Z.of_nat (length sent)).
  { unfold requested_bytes. rewrite Hcl. clear. induction (length sent) as [|m IH]; [reflexivity|].
    cbn [replicate foldr]. rewrite IH. unfold MAX_VALUE_SIZE. lia. }
  rewrite Hsum, Hcount. lia.
Qed.

Lemma ILI9341DrawChar_chunks_witness :
  exists tr pixel',
    ILI9341DrawChar (lcd_orientation 240 320) 0 0 48 (mk_font 11 18 (fun _ => 0x5540))
      0xFFFF 0 (replicate 256 0) = Some (tr, pixel') /\
    chunk_lengths (pixel_stream tr) = [256; 140].
Proof.
  destruct (ILI9341DrawChar_chunks (lcd_orientation 240 320) 0 0 48
              (mk_font 11 18 (fun _ => 0x5540)) 0xFFFF 0 (replicate 256 0))
    as (tr & pixel' & last & Htr & _ & Hchunks & _ & Hsum & _);
    [cbn [FontWidth]; lia | cbn [FontHeight]; lia | reflexivity |].
  exists tr, pixel'. split; [exact Htr|].
  assert (Hlast : last = 140).
  { cbn [FontHeight FontWidth] in Hsum.
    change ((18 * 11 - 1) `div` 128) with 1 in Hsum. lia. }
  rewrite Hchunks, Hlast. reflexivity.
Defined.

(** ** More on strings *)

Lemma DrawString_loop_plain_prefix text : forall fuel x font tail lcd_x lcd_y,
  Forall is_plain text ->
  DrawString_loop (length text + fuel) x font (text ++ tail) lcd_x lcd_y
  = (let '(calls, how) :=
       DrawString_loop fuel x font tail (cursor_after font (length text) lcd_x) lcd_y in
     (plain_calls font text lcd_x lcd_y ++ calls, how)).
Proof.
  induction text as [|c text IH]; intros fuel x font tail lcd_x lcd_y Hplain.
  - cbn [length plain_calls cursor_after app Nat.add].
    destruct (DrawString_loop fuel x font tail lcd_x lcd_y). reflexivity.
  - apply Forall_cons_iff in Hplain as [(Hc0 & Hc10 & Hc13) Hplain].
    cbn [length Nat.add app DrawString_loop plain_calls cursor_after].
    destruct (Z.eqb_spec c 0); [contradiction|].
    destruct (Z.eqb_spec c 10); [contradiction|].
    destruct (Z.eqb_spec c 13); [contradiction|].
    rewrite IH by exact Hplain.
    destruct (DrawString_loop fuel x font tail _ lcd_y). reflexivity.
Qed.

Lemma plain_calls_length font text : forall lcd_x lcd_y,
  length (plain_calls font text lcd_x lcd_y) = length text.
Proof.
  induction text as [|c text IH]; intros lcd_x lcd_y; [reflexivity|].
  cbn [plain_calls length]. rewrite IH. reflexivity.
Qed.

Lemma plain_calls_lookup font (text : list Z) : forall (i : nat) c lcd_x lcd_y,
  is_uint16 lcd_x -> text !! i = Some c ->
  plain_calls font text lcd_x lcd_y !! i
  = Some (to_uint16 (lcd_x + Z.of_nat i * FontWidth font), lcd_y, c).
Proof.
  induction text as [|c0 text IH]; intros i c lcd_x lcd_y Hx Hi; [discriminate|].
  destruct i as [|i].
  - injection Hi as ->. cbn [plain_calls lookup list_lookup].
    replace (lcd_x + Z.of_nat 0 * FontWidth font) with lcd_x by lia.
    rewrite to_uint16_small by exact Hx. reflexivity.
  - cbn [plain_calls]. cbn [lookup list_lookup] in *.
    rewrite (IH i c) by (try exact Hi; unfold is_uint16, to_uint16; apply Z.mod_pos_bound; lia).
    rewrite to_uint16_add_l.
    replace (lcd_x + FontWidth font + Z.of_nat i * FontWidth font)
      with (lcd_x + Z.of_nat (S i) * FontWidth font) by lia.
    reflexivity.
Qed.

(** X12: a text without line feed and carriage return is drawn one character
    per call, left to right on one line: character number i at
    (x + i * FontWidth) mod 2^16, y.  The walk stops at the terminator and
    the bytes behind it play no part. *)
Theorem ILI9341DrawString_plain_text (x y : Z) (font : Font_t) (text rest : list Z) :
  is_uint16 x -> Forall is_plain text ->
  ILI9341DrawString_calls x y (text ++ 0 :: rest) font
  = (plain_calls font text x y, AtTerminator) /\
  length (plain_calls font text x y) = length text /\
  forall (i : nat) c, text !! i = Some c ->
    plain_calls font text x y !! i
    = Some (to_uint16 (x + Z.of_nat i * FontWidth font), y, c).
Proof.
  intros Hx Hplain. split; [|split].
  - unfold ILI9341DrawString_calls. rewrite length_app. cbn [length].
    replace (S (length text + S (length rest)))
      with (length text + S (S (length rest)))%nat by lia.
    rewrite DrawString_loop_plain_prefix by exact Hplain.
    cbn [DrawString_loop]. rewrite Z.eqb_refl, app_nil_r. reflexivity.
  - apply plain_calls_length.
  - intros i c Hi. apply plain_calls_lookup; assumption.
Qed.

(** "12:34.56" drawn at (40, 180) with a 16 pixel wide font. *)
Lemma ILI9341DrawString_plain_text_witness :
  ILI9341DrawString_calls 40 180 [49; 50; 58; 51; 52; 46; 53; 54; 0] example_font_16x26
  = ([(40, 180, 49); (56, 180, 50); (72, 180, 58); (88, 180, 51);
      (104, 180, 52); (120, 180, 46); (136, 180, 53); (152, 180, 54)], AtTerminator).
Proof.
  refine (proj1 (ILI9341DrawString_plain_text 40 180 example_font_16x26
                   [49; 50; 58; 51; 52; 46; 53; 54] [] _ _)).
  - unfold is_uint16. lia.
  - repeat constructor; discriminate.
Defined.

(** X13: behind a text that ends in a line feed or carriage return the walk
    does not stop at the terminator: it draws the terminator as a character
    and goes on with the bytes that follow it in memory, drawing them like
    text up to the next zero byte. *)
Theorem ILI9341DrawString_reads_past_terminator (x y : Z) (font : Font_t)
    (text : list Z) (c : Z) (beyond rest : list Z) :
  Forall is_plain text -> c = 10 \/ c = 13 -> Forall is_plain beyond ->
  let lcd_x := if c =? 10 then x else cursor_after font (length text) x in
  let lcd_y := if c =? 10 then to_uint16 (y + FontHeight font + 1) else y in
  ILI9341DrawString_calls x y (text ++ c :: 0 :: beyond ++ 0 :: rest) font
  = (plain_calls font text x y ++
     (lcd_x, lcd_y, 0) ::
     plain_calls font beyond (to_uint16 (lcd_x + FontWidth font)) lcd_y,
     AtTerminator).
Proof.
  intros Hplain Hc Hbeyond lcd_x lcd_y. unfold ILI9341DrawString_calls.
  rewrite !length_app. cbn [length]. rewrite length_app. cbn [length].
  replace (S (length text + S (S (length beyond + S (length rest)))))
    with (length text + S (length beyond + S (S (S (length rest)))))%nat by lia.
  rewrite DrawString_loop_plain_prefix by exact Hplain.
  assert (Hstep : DrawString_loop (S (length beyond + S (S (S (length rest))))) x font
                    (c :: 0 :: beyond ++ 0 :: rest)
                    (cursor_after font (length text) x) y
                  = ((lcd_x, lcd_y, 0) ::
                     plain_calls font beyond (to_uint16 (lcd_x + FontWidth font)) lcd_y,
                     AtTerminator)).
  { cbn [DrawString_loop drop].
    assert (Htail : forall lx ly,
              DrawString_loop (length beyond + S (S (S (length rest)))) x font
                (beyond ++ 0 :: rest) lx ly
              = (plain_calls font beyond lx ly, AtTerminator)).
    { intros lx ly. rewrite DrawString_loop_plain_prefix by exact Hbeyond.
      cbn [DrawString_loop]. rewrite Z.eqb_refl, app_nil_r. reflexivity. }
    unfold lcd_x, lcd_y.
    destruct Hc as [-> | ->]; cbn [Z.eqb Pos.eqb]; rewrite Htail; reflexivity. }
  rewrite Hstep. reflexivity.
Qed.

(** "Hi\n" followed in memory by the bytes of "OK". *)
Lemma ILI9341DrawString_reads_past_terminator_witness :
  ILI9341DrawString_calls 5 7 [72; 105; 10; 0; 79; 75; 0] example_font_16x26
  = ([(5, 7, 72); (21, 7, 105); (5, 34, 0); (21, 34, 79); (37, 34, 75)], AtTerminator).
Proof.
  refine (ILI9341DrawString_reads_past_terminator 5 7 example_font_16x26
            [72; 105] 10 [79; 75] [] _ _ _).
  - repeat constructor; discriminate.
  - left. reflexivity.
  - repeat constructor; discriminate.
Defined.

(** ** String size *)

Lemma GetStringSize_loop_length font text : forall rest w,
  Forall (fun c => c <> 0) text ->
  GetStringSize_loop font (text ++ 0 :: rest) w
  = Some (if decide (text = []) then w
          else to_uint16 (w + Z.of_nat (length text) * FontWidth font)).
Proof.
  induction text as [|c text IH]; intros rest w Hnz; [reflexivity|].
  apply Forall_cons_iff in Hnz as [Hc Hnz].
  cbn [app GetStringSize_loop]. destruct (Z.eqb_spec c 0); [contradiction|].
  rewrite IH by exact Hnz. destruct (decide (c :: text = [])); [discriminate|].
  destruct (decide (text = [])) as [->|_].
  - cbn [length]. do 2 f_equal. lia.
  - rewrite to_uint16_add_l. cbn [length]. do 2 f_equal. lia.
Qed.

(** X14: [ILI9341GetStringSize] returns the glyph height and, as width, the
    number of characters before the terminator times the glyph width, reduced
    modulo 2^16; which characters they are makes no difference, so that line
    feeds and carriage returns count like letters.  Without a terminator in
    the memory given there is no result. *)
Theorem ILI9341GetStringSize_counts_characters (font : Font_t) (text rest : list Z) :
  Forall (fun c => c <> 0) text ->
  ILI9341GetStringSize (text ++ 0 :: rest) font
  = Some (to_uint16 (Z.of_nat (length text) * FontWidth font), to_uint16 (FontHeight font)) /\
  ILI9341GetStringSize text font = None.
Proof.
  intros Hnz. unfold ILI9341GetStringSize. split.
  - rewrite GetStringSize_loop_length by exact Hnz. cbn [mbind option_bind].
    destruct (decide (text = [])) as [->|_]; reflexivity.
  - assert (Hnone : forall w, GetStringSize_loop font text w = None).
    { induction text as [|c text IH]; intros w; [reflexivity|].
      apply Forall_cons_iff in Hnz as [Hc Hnz]. cbn [GetStringSize_loop].
      destruct (Z.eqb_spec c 0); [contradiction|]. apply IH. exact Hnz. }
    rewrite Hnone. reflexivity.
Qed.

(** "A\nB": three characters of width 16, one line of height 26. *)
Lemma ILI9341GetStringSize_counts_characters_witness :
  ILI9341GetStringSize [65; 10; 66; 0] example_font_16x26 = Some (48, 26).
Proof.
  refine (proj1 (ILI9341GetStringSize_counts_characters example_font_16x26
                   [65; 10; 66] [] _)).
  repeat constructor; discriminate.
Defined.

(** ** Pictures *)

(** [count] bytes copied into the buffer from index [i] on. *)
Lemma DrawPicture_copy_run (pic : list Z) j count : forall (i : nat) (pixel : list Z),
  0 <= j -> length pixel = 256%nat -> (i + count <= 256)%nat ->
  (Z.to_nat (j * 256) + i + count <= length pic)%nat ->
  exists pixel',
    for_loop count (Z.of_nat i) (DrawPicture_copy pic j) pixel = Some pixel' /\
    length pixel' = 256%nat /\
    take (i + count) pixel' = take i pixel ++ take count (drop (Z.to_nat (j * 256) + i) pic).
Proof.
  induction count as [|count IH]; intros i pixel Hj Hlen Hfit Hpic.
  - exists pixel. split; [reflexivity|]. split; [exact Hlen|].
    rewrite Nat.add_0_r, take_0, app_nil_r. reflexivity.
  - destruct (lookup_lt_is_Some_2 pic (Z.to_nat (j * 256) + i) ltac:(lia)) as (v & Hv).
    assert (Hstep : DrawPicture_copy pic j (Z.of_nat i) pixel
                    = Some (<[Z.to_nat (Z.of_nat i) := v]> pixel)).
    { unfold DrawPicture_copy. change MAX_VALUE_SIZE with 256.
      replace (Z.to_nat (j * 256 + Z.of_nat i)) with (Z.to_nat (j * 256) + i)%nat by lia.
      rewrite Hv. cbn [mbind option_bind]. apply pixel_store_eq; lia. }
    cbn [for_loop]. rewrite Hstep. cbn [mbind option_bind].
    replace (Z.of_nat i + 1) with (Z.of_nat (S i)) by lia.
    destruct (IH (S i) (<[Z.to_nat (Z.of_nat i) := v]> pixel) Hj)
      as (pixel' & Hrun & Hlen' & Htake);
      [rewrite length_insert; exact Hlen | lia | lia |].
    exists pixel'. split; [exact Hrun|]. split; [exact Hlen'|].
    replace (i + S count)%nat with (S i + count)%nat by lia.
    rewrite Htake, Nat2Z.id.
    rewrite (take_S_r _ i v) by (apply list_lookup_insert_eq; lia).
    rewrite take_insert_ge by lia.
    rewrite (drop_S pic v (Z.to_nat (j * 256) + i)) by exact Hv.
    cbn [take]. rewrite <- app_assoc.
    replace (Z.to_nat (j * 256) + S i)%nat with (S (Z.to_nat (j * 256) + i)) by lia.
    reflexivity.
Qed.

(** The loop sends [(bc - 1) / 256] buffers, each filled with the next 256
    bytes of the picture. *)
Lemma DrawPicture_loop_runs (pic : list Z) fuel : forall pixel bc j,
  0 < bc -> 0 <= j -> j + (bc - 1) `div` 256 < 2 ^ 16 ->
  j * 256 + bc <= Z.of_nat (length pic) ->
  length pixel = 256%nat ->
  (bc - 1) `div` 256 <= Z.of_nat fuel ->
  exists chunks pixel',
    DrawPicture_loop fuel pic pixel bc j
    = Some (chunks, pixel', bc - 256 * ((bc - 1) `div` 256), j + (bc - 1) `div` 256) /\
    length pixel' = 256%nat /\
    Forall full_chunk chunks /\
    length chunks = Z.to_nat ((bc - 1) `div` 256) /\
    payload_bytes chunks
    = take (Z.to_nat (256 * ((bc - 1) `div` 256))) (drop (Z.to_nat (j * 256)) pic).
Proof.
  induction fuel as [|fuel IH]; intros pixel bc j Hbc Hj Hjq Hpic Hlen Hfuel.
  - assert (Hq : (bc - 1) `div` 256 = 0).
    { assert (0 <= (bc - 1) `div` 256) by (apply Z.div_pos; lia). lia. }
    assert (bc <= 256).
    { destruct (Z_le_gt_dec bc 256) as [|Hgt]; [assumption|].
      assert (1 <= (bc - 1) `div` 256) by (apply Z.div_le_lower_bound; lia). lia. }
    cbn [DrawPicture_loop]. change MAX_VALUE_SIZE with 256.
    destruct (Z.gtb_spec (bc - 256) 0); [lia|].
    exists [], pixel. rewrite Hq.
    replace (bc - 256 * 0) with bc by lia. replace (j + 0) with j by lia.
    repeat split; try assumption; constructor.
  - cbn [DrawPicture_loop]. change MAX_VALUE_SIZE with 256.
    destruct (Z.gtb_spec (bc - 256) 0) as [Hgt|Hle].
    + assert (Hstep : (bc - 1) `div` 256 = (bc - 256 - 1) `div` 256 + 1).
      { replace (bc - 1) with (bc - 256 - 1 + 1 * 256) by lia.
        rewrite Z.div_add by lia. reflexivity. }
      assert (Hq0 : 0 <= (bc - 256 - 1) `div` 256) by (apply Z.div_pos; lia).
      destruct (DrawPicture_copy_run pic j 256 0 pixel Hj Hlen ltac:(lia) ltac:(lia))
        as (pixel1 & Hcopy & Hlen1 & Htake1).
      change (Z.to_nat 256) with 256%nat. change (Z.of_nat 0) with 0 in Hcopy.
      rewrite Hcopy. cbn [mbind option_bind].
      rewrite (to_uint16_small (j + 1)) by (unfold is_uint16; lia).
      destruct (IH pixel1 (bc - 256) (j + 1)) as (rest & pixel' & Hrest & Hlen' & Hfull & Hcount & Hpay);
        try lia.
      rewrite Hrest. cbn [mbind option_bind].
      change (WriteLCD (lcd_cmd_init SEND_PIXELS 256 pixel1))
        with [TxData MAX_VALUE_SIZE (take 256 pixel1)].
      exists (TxData MAX_VALUE_SIZE (take 256 pixel1) :: rest), pixel'.
      split; [cbn [app]; do 2 f_equal; [f_equal|]; lia|].
      split; [exact Hlen'|]. split.
      { constructor; [|exact Hfull]. eexists. split; [reflexivity|].
        rewrite length_take, Hlen1. reflexivity. }
      split; [cbn [length]; rewrite Hcount; lia|].
      rewrite payload_bytes_cons, Hpay. cbn [tx_payload].
      change (take 256 pixel1) with (take (0 + 256) pixel1).
      rewrite Htake1, take_0, Nat.add_0_r. cbn [app].
      replace (Z.to_nat ((j + 1) * 256)) with (Z.to_nat (j * 256) + 256)%nat by lia.
      rewrite <- drop_drop, take_take_drop. f_equal. lia.
    + assert (Hq : (bc - 1) `div` 256 = 0) by (apply Z.div_small; lia).
      exists [], pixel. rewrite Hq.
      replace (bc - 256 * 0) with bc by lia. replace (j + 0) with j by lia.
      repeat split; try assumption; constructor.
Qed.

(** X15: [ILI9341DrawPicture] streams the first width * height * 2 bytes of
    the picture, in order and unchanged, in transfers of at most 256 bytes,
    provided the picture array is that long (fewer than 2^24 bytes); for a
    picture without pixels nothing follows the memory-write command. *)
Theorem ILI9341DrawPicture_streams_picture (x y width height : Z) (pic pixel : list Z) :
  0 <= width -> 0 <= height -> width * height * 2 < 2 ^ 24 ->
  width * height * 2 <= Z.of_nat (length pic) ->
  length pixel = 256%nat ->
  exists tr pixel',
    ILI9341DrawPicture x y width height pic pixel = Some (tr, pixel') /\
    payload_bytes (pixel_stream tr) = take (Z.to_nat (width * height * 2)) pic /\
    Forall (fun t => exists len bytes, t = TxData len bytes /\ 0 < len <= MAX_VALUE_SIZE /\
                       Z.of_nat (length bytes) = len)
      (pixel_stream tr) /\
    (width * height = 0 -> pixel_stream tr = []).
Proof.
  intros Hw Hh Hn Hpic Hlen. unfold ILI9341DrawPicture.
  set (n := width * height * 2) in *.
  assert (Hn0 : 0 <= n) by (unfold n; nia).
  rewrite (to_int32_small n) by lia.
  rewrite WriteLCD_command_only by (unfold MEM_WRITE; lia).
  destruct (Z.eq_dec n 0) as [Hz|Hnz].
  - rewrite Hz. cbn [Z.div Z.to_nat DrawPicture_loop mbind option_bind for_loop].
    change (0 - MAX_VALUE_SIZE >? 0) with false. cbn [mbind option_bind for_loop].
    eexists _, _. split; [reflexivity|].
    cbn [app]. rewrite pixel_stream_after_window.
    change (WriteLCD (lcd_cmd_init SEND_PIXELS 0 pixel)) with (@nil spi_transaction).
    split; [reflexivity|]. split; [constructor | reflexivity].
  - set (q := (n - 1) `div` 256).
    assert (Hq : 0 <= q <= n `div` 256).
    { split; [apply Z.div_pos; lia | apply Z.div_le_mono; lia]. }
    assert (Hr : 0 < n - 256 * q <= 256).
    { pose proof (Z.div_mod (n - 1) 256 ltac:(lia)).
      pose proof (Z.mod_pos_bound (n - 1) 256 ltac:(lia)). unfold q. lia. }
    assert (Hqs : q < 2 ^ 16).
    { unfold q. apply Z.div_lt_upper_bound; lia. }
    destruct (DrawPicture_loop_runs pic (Z.to_nat (n `div` MAX_VALUE_SIZE)) pixel n 0)
      as (chunks & pixel1 & Hloop & Hlen1 & Hfull & Hcount & Hpay);
      try (change MAX_VALUE_SIZE with 256; fold q; lia).
    fold q in Hloop, Hcount, Hpay. rewrite Hloop. cbn [mbind option_bind].
    replace (0 + q) with q by lia.
    destruct (DrawPicture_copy_run pic q (Z.to_nat (n - 256 * q)) 0 pixel1)
      as (pixel2 & Hcopy & Hlen2 & Htake2); try lia.
    change (Z.of_nat 0) with 0 in Hcopy. rewrite Hcopy. cbn [mbind option_bind].
    rewrite WriteLCD_pixels by lia.
    eexists _, _. split; [reflexivity|].
    cbn [app]. rewrite pixel_stream_after_window.
    split; [|split; [|unfold n in *; lia]].
    + rewrite payload_bytes_app, Hpay, payload_bytes_cons.
      cbn [tx_payload payload_bytes fmap list_fmap mjoin list_join]. rewrite app_nil_r.
      change (0 * 256) with 0. cbn [Z.to_nat drop].
      change (take (Z.to_nat (n - 256 * q)) pixel2)
        with (take (0 + Z.to_nat (n - 256 * q)) pixel2).
      rewrite Htake2, take_0, Nat.add_0_r. cbn [app].
      replace (Z.to_nat (q * 256)) with (Z.to_nat (256 * q)) by lia.
      rewrite take_take_drop. f_equal. lia.
    + apply Forall_app. split.
      * eapply Forall_impl; [|exact Hfull].
        intros t (bytes & -> & Hb). exists MAX_VALUE_SIZE, bytes.
        split; [reflexivity|]. rewrite Hb. unfold MAX_VALUE_SIZE. lia.
      * apply Forall_singleton. eexists _, _. split; [reflexivity|].
        unfold MAX_VALUE_SIZE. split; [lia|]. rewrite length_take, Hlen2. lia.
Qed.

(** A 3 x 2 picture: twelve bytes, one transfer. *)
Lemma ILI9341DrawPicture_streams_picture_witness :
  exists tr pixel',
    ILI9341DrawPicture 10 20 3 2 [1; 2; 3; 4; 5; 6; 7; 8; 9; 10; 11; 12; 13]
      (replicate 256 0) = Some (tr, pixel') /\
    payload_bytes (pixel_stream tr) = [1; 2; 3; 4; 5; 6; 7; 8; 9; 10; 11; 12].
Proof.
  destruct (ILI9341DrawPicture_streams_picture 10 20 3 2
              [1; 2; 3; 4; 5; 6; 7; 8; 9; 10; 11; 12; 13] (replicate 256 0))
    as (tr & pixel' & Htr & Hbytes & _);
    [lia | lia | reflexivity | cbn; lia | reflexivity |].
  exists tr, pixel'. split; [exact Htr | exact Hbytes].
Defined.

(** * The stopwatch application *)

(** ** Button events *)

Lemma events_of_app bit (l1 l2 : list Z) :
  events_of bit (l1 ++ l2) = (events_of bit l1 + events_of bit l2)%nat.
Proof.
  induction l1 as [|e l1 IH]; [reflexivity|].
  cbn [app events_of]. rewrite IH. apply Nat.add_assoc.
Qed.

(** Only a falling edge of the start/stop pin sets the start/stop bit. *)
Lemma events_of_iteration cur prev :
  events_of EV_BIT_START_STOP (ButtonEvents_iteration cur prev).1
  = if (lvStart cur =? 0) && (lvStart prev =? 1) then 1%nat else 0%nat.
Proof.
  unfold ButtonEvents_iteration. cbn [fst].
  destruct ((lvStart cur =? 0) && (lvStart prev =? 1)),
    ((lvReset cur =? 0) && (lvReset prev =? 1)),
    ((lvFunc cur =? 0) && (lvFunc prev =? 1)); reflexivity.
Qed.

Lemma last_default {A} (a : list A) : forall c d d' : A,
  List.last (c :: a) d = List.last (c :: a) d'.
Proof.
  induction a as [|c' a IH]; intros c d d'; [reflexivity|].
  change (List.last (c :: c' :: a) d) with (List.last (c' :: a) d).
  change (List.last (c :: c' :: a) d') with (List.last (c' :: a) d').
  apply IH.
Qed.

Lemma ButtonEvents_polls_app (a b : list button_levels) : forall prev,
  ButtonEvents_polls (a ++ b) prev
  = ButtonEvents_polls a prev ++ ButtonEvents_polls b (List.last a prev).
Proof.
  induction a as [|cur a IH]; intros prev; [reflexivity|].
  cbn [app ButtonEvents_polls].
  destruct (ButtonEvents_iteration cur prev) as [events prev'] eqn:Heq.
  assert (Hprev' : prev' = cur) by (unfold ButtonEvents_iteration in Heq; congruence).
  subst prev'. rewrite IH, <- (app_assoc events). do 3 f_equal.
  destruct a as [|c a]; [reflexivity|].
  change (List.last (cur :: c :: a) prev) with (List.last (c :: a) prev).
  apply last_default.
Qed.

Lemma last_level (v : Z) (polls : list button_levels) : forall prev,
  Forall (fun c => lvStart c = v) polls -> lvStart prev = v ->
  lvStart (List.last polls prev) = v.
Proof.
  induction polls as [|cur polls IH]; intros prev Hall Hprev; [exact Hprev|].
  apply Forall_cons_iff in Hall as [Hcur Hall].
  destruct polls as [|c polls]; [exact Hcur|].
  change (List.last (cur :: c :: polls) prev) with (List.last (c :: polls) prev).
  apply IH; [exact Hall | exact Hprev].
Qed.

(** With the pin high throughout, no start/stop event. *)
Lemma ButtonEvents_polls_released (polls : list button_levels) : forall prev,
  Forall (fun c => lvStart c = 1) polls ->
  events_of EV_BIT_START_STOP (ButtonEvents_polls polls prev) = 0%nat.
Proof.
  induction polls as [|cur polls IH]; intros prev Hall; [reflexivity|].
  apply Forall_cons_iff in Hall as [Hcur Hall].
  cbn [ButtonEvents_polls].
  pose proof (events_of_iteration cur prev) as Hit.
  destruct (ButtonEvents_iteration cur prev) as [events prev'] eqn:Heq.
  cbn [fst] in Hit. rewrite events_of_app, Hit, IH by exact Hall.
  rewrite Hcur. reflexivity.
Qed.

(** With the pin low throughout, an event in the first poll only, and only
    if the pin was high before. *)
Lemma ButtonEvents_polls_held (polls : list button_levels) : forall prev,
  Forall (fun c => lvStart c = 0) polls ->
  events_of EV_BIT_START_STOP (ButtonEvents_polls polls prev)
  = match polls with
    | [] => 0%nat
    | _ :: _ => if lvStart prev =? 1 then 1%nat else 0%nat
    end.
Proof.
  induction polls as [|cur polls IH]; intros prev Hall; [reflexivity|].
  apply Forall_cons_iff in Hall as [Hcur Hall].
  cbn [ButtonEvents_polls].
  pose proof (events_of_iteration cur prev) as Hit.
  destruct (ButtonEvents_iteration cur prev) as [events prev'] eqn:Heq.
  assert (Hprev' : prev' = cur) by (unfold ButtonEvents_iteration in Heq; congruence).
  cbn [fst] in Hit. rewrite events_of_app, Hit, IH by exact Hall.
  rewrite Hprev', Hcur. cbn [Z.eqb andb].
  destruct polls; destruct (lvStart prev =? 1); reflexivity.
Qed.

(** X19: one press of the start/stop button gives exactly one start/stop
    event, however many polls it is held and whatever the other two buttons
    do: the pin high during [idle], low during [held] (at least one poll),
    high again during [released]. *)
Theorem ButtonEvents_Task_one_event_per_press (idle held released : list button_levels) :
  Forall (fun c => lvStart c = 1) idle ->
  Forall (fun c => lvStart c = 0) held ->
  Forall (fun c => lvStart c = 1) released ->
  held <> [] ->
  events_of EV_BIT_START_STOP (ButtonEvents_Task (idle ++ held ++ released)) = 1%nat /\
  events_of EV_BIT_START_STOP (ButtonEvents_Task idle) = 0%nat /\
  events_of EV_BIT_START_STOP (ButtonEvents_Task (idle ++ take 1 held)) = 1%nat.
Proof.
  intros Hidle Hheld Hrel Hne. unfold ButtonEvents_Task.
  assert (Hlast : lvStart (List.last idle (mk_levels 1 1 1)) = 1)
    by (apply last_level; [exact Hidle | reflexivity]).
  split; [|split].
  - rewrite !ButtonEvents_polls_app, !events_of_app.
    rewrite ButtonEvents_polls_released by exact Hidle.
    rewrite ButtonEvents_polls_held by exact Hheld.
    rewrite ButtonEvents_polls_released by exact Hrel.
    rewrite Hlast. destruct held; [contradiction | reflexivity].
  - apply ButtonEvents_polls_released. exact Hidle.
  - rewrite ButtonEvents_polls_app, events_of_app.
    rewrite ButtonEvents_polls_released by exact Hidle.
    destruct held as [|c held]; [contradiction|].
    apply Forall_cons_iff in Hheld as [Hc _].
    rewrite ButtonEvents_polls_held by (cbn [take]; constructor; [exact Hc | constructor]).
    cbn [take]. rewrite Hlast. reflexivity.
Qed.

(** Start/stop held for three polls while reset is pressed and released. *)
Lemma ButtonEvents_Task_one_event_per_press_witness :
  events_of EV_BIT_START_STOP
    (ButtonEvents_Task ([mk_levels 1 1 1; mk_levels 1 0 1]
                        ++ [mk_levels 0 0 1; mk_levels 0 1 1; mk_levels 0 1 1]
                        ++ [mk_levels 1 1 1])) = 1%nat.
Proof.
  refine (proj1 (ButtonEvents_Task_one_event_per_press
                   [mk_levels 1 1 1; mk_levels 1 0 1]
                   [mk_levels 0 0 1; mk_levels 0 1 1; mk_levels 0 1 1]
                   [mk_levels 1 1 1] _ _ _ _)).
  - repeat constructor.
  - repeat constructor.
  - repeat constructor.
  - discriminate.
Defined.

(** ** Shared state *)

Lemma app_inv_start : app_inv 0 app_start.
Proof.
  unfold app_inv, app_start. cbn [botonesEstado arrancar reset congelar decimas PB1State].
  repeat split; first [reflexivity | lia | (left; reflexivity)].
Qed.

Lemma toggleTask_iteration_inv bits n s :
  app_inv n s ->
  app_inv (Nat.add (if Z.land bits EV_BIT_START_STOP =? 0 then 0%nat else 1%nat) n)
    (toggleTask_iteration bits s).
Proof.
  destruct s as [[a r c] d p1 p2 p3]. unfold app_inv. cbn [botonesEstado arrancar reset congelar
    decimas PB1State]. intros (Ha & Hp & Hr & Hc & Hd).
  pose proof (Z.mod_pos_bound (Z.of_nat n) 2 ltac:(lia)) as Hm.
  unfold toggleTask_iteration.
  cbn [botonesEstado arrancar reset congelar decimas PB1State PB2State PB3State].
  destruct (Z.land bits EV_BIT_START_STOP =? 0);
    destruct (Z.land bits EV_BIT_RESET =? 0);
    destruct (Z.land bits EV_BIT_FUNC_CHANGE =? 0);
    cbn [botonesEstado arrancar reset congelar decimas PB1State PB2State PB3State Nat.add];
    try (repeat split; first [assumption | lia | (left; reflexivity)]).
  all: assert (Hn : Z.of_nat (S n) `mod` 2 = 1 - Z.of_nat n `mod` 2)
         by (rewrite Nat2Z.inj_succ; unfold Z.succ;
             rewrite Z.add_mod by lia; 
             assert (Z.of_nat n `mod` 2 = 0 \/ Z.of_nat n `mod` 2 = 1) as [-> | ->] by lia;
             reflexivity).
  all: rewrite Hn; unfold lnot.
  all: assert (a = 0 \/ a = 1) as [-> | ->] by lia.
  all: assert (p1 = 1 \/ p1 = 0) as [-> | ->] by lia.
  all: try lia.
  all: cbn; lia.
Qed.

Lemma decimasTask_iteration_inv n s :
  app_inv n s -> app_inv n (decimasTask_iteration s).
Proof.
  destruct s as [[a r c] d p1 p2 p3]. unfold app_inv.
  cbn [botonesEstado arrancar reset congelar decimas PB1State]. intros (Ha & Hp & Hr & Hc & Hd).
  unfold decimasTask_iteration.
  cbn [botonesEstado arrancar reset congelar decimas PB1State PB2State PB3State].
  subst r. cbn [Z.eqb negb andb].
  destruct (a =? 0); cbn [negb];
    cbn [botonesEstado arrancar reset congelar decimas PB1State PB2State PB3State];
    repeat split; try assumption; try lia;
    unfold to_uint32; apply Z.mod_pos_bound; lia.
Qed.

Lemma run_steps_inv steps : forall n s,
  app_inv n s -> app_inv (Nat.add (start_stop_events steps) n) (run_steps steps s).
Proof.
  induction steps as [|st steps IH]; intros n s Hinv; [exact Hinv|].
  unfold run_steps. cbn [fold_left]. fold (run_steps steps (run_step s st)).
  destruct st as [bits|]; cbn [start_stop_events run_step].
  - match goal with
    | |- app_inv (Nat.add (Nat.add ?e _) _) _ =>
        replace (Nat.add (Nat.add e (start_stop_events steps)) n)
          with (Nat.add (start_stop_events steps) (Nat.add e n)) by lia
    end.
    apply IH. apply toggleTask_iteration_inv. exact Hinv.
  - apply IH. apply decimasTask_iteration_inv. exact Hinv.
Qed.

(** X17: after any sequence of iterations of [toggleTask] and [decimasTask]
    from the initial state, the stopwatch runs ([arrancar] is 1) exactly when
    an odd number of start/stop events has been handled and is stopped
    ([arrancar] is 0) otherwise; [congelar] is 0 or 1 and it is 1 only while
    the stopwatch is stopped, and [PB1State] is the negation of [arrancar]. *)
Theorem toggleTask_runs_on_odd_presses (steps : list app_step) :
  let s := run_steps steps app_start in
  let b := botonesEstado s in
  arrancar b = (if Nat.odd (start_stop_events steps) then 1 else 0) /\
  PB1State s = lnot (arrancar b) /\
  (congelar b = 0 \/ congelar b = 1 /\ arrancar b = 0) /\
  0 <= decimas s < 2 ^ 32.
Proof.
  intros s b.
  pose proof (run_steps_inv steps 0 app_start app_inv_start) as Hinv.
  rewrite Nat.add_0_r in Hinv. fold s in Hinv.
  destruct Hinv as (Ha & Hp & _ & Hc & Hd). fold b in Ha, Hp, Hc.
  assert (Hodd : Z.of_nat (start_stop_events steps) `mod` 2
                 = if Nat.odd (start_stop_events steps) then 1 else 0).
  { generalize (start_stop_events steps) as n. intros n.
    pose proof (Nat.div2_odd n) as Hn.
    destruct (Nat.odd n); cbn [Nat.b2n] in Hn; cbv iota;
      rewrite Hn, Nat2Z.inj_add, Nat2Z.inj_mul, Z.add_comm, Z.mul_comm, Z.mod_add by lia;
      reflexivity. }
  rewrite Hodd in Ha.
  split; [exact Ha|]. split.
  - rewrite Hp, Ha. destruct (Nat.odd (start_stop_events steps)); reflexivity.
  - split; [exact Hc | exact Hd].
Qed.

(** X18: [botonesEstado.reset] is 0 in every state the two tasks reach, so
    [decimasTask] never takes its branch that clears the count: one of its
    iterations adds 1 to [decimas] (modulo 2^32) when the stopwatch runs and
    changes nothing when it is stopped. *)
Theorem decimasTask_never_resets (steps : list app_step) :
  let s := run_steps steps app_start in
  reset (botonesEstado s) = 0 /\
  decimasTask_iteration s
  = if arrancar (botonesEstado s) =? 1
    then mk_app (botonesEstado s) (to_uint32 (decimas s + 1))
           (PB1State s) (PB2State s) (PB3State s)
    else s.
Proof.
  intros s.
  pose proof (run_steps_inv steps 0 app_start app_inv_start) as Hinv.
  fold s in Hinv. destruct Hinv as (Ha & _ & Hr & _ & _).
  split; [exact Hr|].
  pose proof (Z.mod_pos_bound (Z.of_nat (start_stop_events steps + 0)) 2 ltac:(lia)) as Hm.
  unfold decimasTask_iteration. rewrite Hr. cbn [Z.eqb negb andb].
  assert (arrancar (botonesEstado s) = 0 \/ arrancar (botonesEstado s) = 1) as [-> | ->] by lia;
    reflexivity.
Qed.

(** ** The display task *)

(** X16: the six digits that [displayTask] hands to [DibujarDigito] lose
    nothing of the count: it is 6000 * minutes + 100 * seconds + hundredths of
    the digit pairs.  The seconds and hundredths digits and the units of the
    minutes are decimal digits, the seconds below 60; the tens of the minutes
    are a decimal digit only below 100 minutes (600000 hundredths). *)
Theorem displayTask_digits_exact (total : Z) :
  0 <= total < 2 ^ 32 ->
  exists m1 m0 s1 s0 d1 d0,
    displayTask_digits total = [m1; m0; s1; s0; d1; d0] /\
    total = 6000 * (10 * m1 + m0) + 100 * (10 * s1 + s0) + (10 * d1 + d0) /\
    0 <= m0 <= 9 /\ 0 <= s1 <= 5 /\ 0 <= s0 <= 9 /\ 0 <= d1 <= 9 /\ 0 <= d0 <= 9 /\
    0 <= m1 /\ (m1 <= 9 <-> total < 600000).
Proof.
  intros Ht. unfold displayTask_digits, displayTask_mins, displayTask_secs, displayTask_d.
  assert (Hmins : 0 <= total / 6000 < 2 ^ 32).
  { split; [apply Z.div_pos; lia | apply Z.div_lt_upper_bound; lia]. }
  pose proof (Z.mod_pos_bound (total / 100) 60 ltac:(lia)) as Hsecs.
  pose proof (Z.mod_pos_bound total 100 ltac:(lia)) as Hd.
  rewrite !to_uint32_small by lia.
  eexists _, _, _, _, _, _. split; [reflexivity|].
  pose proof (Z.div_mod total 100 ltac:(lia)) as E1.
  pose proof (Z.div_mod (total / 100) 60 ltac:(lia)) as E2.
  assert (E3 : total / 100 / 60 = total / 6000) by (rewrite Z.div_div by lia; reflexivity).
  rewrite E3 in E2.
  set (mins := total / 6000) in *.
  set (secs := (total / 100) `mod` 60) in *.
  set (d := total `mod` 100) in *.
  set (hundreds := total / 100) in *.
  pose proof (Z.div_mod mins 10 ltac:(lia)) as E4.
  pose proof (Z.div_mod secs 10 ltac:(lia)) as E5.
  pose proof (Z.div_mod d 10 ltac:(lia)) as E6.
  pose proof (Z.mod_pos_bound mins 10 ltac:(lia)) as B4.
  pose proof (Z.mod_pos_bound secs 10 ltac:(lia)) as B5.
  pose proof (Z.mod_pos_bound d 10 ltac:(lia)) as B6.
  set (m1 := mins / 10) in *. set (m0 := mins `mod` 10) in *.
  set (s1 := secs / 10) in *. set (s0 := secs `mod` 10) in *.
  set (d1 := d / 10) in *. set (d0 := d `mod` 10) in *.
  clearbody m1 m0 s1 s0 d1 d0 mins secs d hundreds.
  repeat split; lia.
Qed.

Lemma displayTask_digits_exact_witness :
  exists m1 m0 s1 s0 d1 d0,
    displayTask_digits 754321 = [m1; m0; s1; s0; d1; d0] /\
    754321 = 6000 * (10 * m1 + m0) + 100 * (10 * s1 + s0) + (10 * d1 + d0).
Proof.
  destruct (displayTask_digits_exact 754321 ltac:(lia))
    as (m1 & m0 & s1 & s0 & d1 & d0 & Hdigits & Htotal & _).
  exists m1, m0, s1, s0, d1, d0. split; [exact Hdigits | exact Htotal].
Defined.

(** [%02lu] of a value below 100 is its two decimal digits. *)
Lemma print_02lu_small v :
  0 <= v < 100 -> print_02lu v = [48 + v / 10; 48 + v `mod` 10].
Proof.
  intros Hv. unfold print_02lu.
  change (print_lu 10 v)
    with ((if v <? 10 then [] else print_lu 9 (v / 10)) ++ [48 + v `mod` 10]).
  destruct (Z.ltb_spec v 10) as [Hlt | Hge].
  - rewrite Z.div_small by lia. reflexivity.
  - change (print_lu 9 (v / 10))
      with ((if v / 10 <? 10 then [] else print_lu 8 (v / 10 / 10)) ++ [48 + (v / 10) `mod` 10]).
    assert (Hq : 1 <= v / 10 < 10).
    { split; [apply Z.div_le_lower_bound; lia | apply Z.div_lt_upper_bound; lia]. }
    destruct (Z.ltb_spec (v / 10) 10); [|lia].
    rewrite (Z.mod_small (v / 10)) by lia. reflexivity.
Qed.

(** X20: every lap time is written as eight characters, two digits, a colon,
    two digits, a full stop and two digits, whatever the count; drawn with a
    font 16 pixels wide these are eight [ILI9341DrawChar] calls at columns
    40, 56, ..., 152 of one text line, and the walk stops at the terminator
    without looking at what follows it. *)
Theorem displayTask_partial_eight_characters (p i : Z) (beyond : list Z) (font : Font_t) :
  0 <= p < 2 ^ 32 -> 0 <= i < 3 -> FontWidth font = 16 ->
  let pmin := (p / 6000) `mod` 100 in
  let psec := (p / 100) `mod` 60 in
  let pde := p `mod` 100 in
  let y := 180 + 36 * i in
  displayTask_buf p
  = [48 + pmin / 10; 48 + pmin `mod` 10; 58; 48 + psec / 10; 48 + psec `mod` 10; 46;
     48 + pde / 10; 48 + pde `mod` 10; 0] /\
  Forall (fun v => 0 <= v <= 9)
    [pmin / 10; pmin `mod` 10; psec / 10; psec `mod` 10; pde / 10; pde `mod` 10] /\
  displayTask_partial_calls p i beyond font
  = ([(40, y, 48 + pmin / 10); (56, y, 48 + pmin `mod` 10); (72, y, 58);
      (88, y, 48 + psec / 10); (104, y, 48 + psec `mod` 10); (120, y, 46);
      (136, y, 48 + pde / 10); (152, y, 48 + pde `mod` 10)], AtTerminator).
Proof.
  intros Hp Hi Hfw pmin psec pde y.
  pose proof (Z.mod_pos_bound (p / 6000) 100 ltac:(lia)) as Hmin. fold pmin in Hmin.
  pose proof (Z.mod_pos_bound (p / 100) 60 ltac:(lia)) as Hsec. fold psec in Hsec.
  pose proof (Z.mod_pos_bound p 100 ltac:(lia)) as Hde. fold pde in Hde.
  assert (Hdigit : forall v, 0 <= v < 100 -> 0 <= v / 10 <= 9 /\ 0 <= v `mod` 10 <= 9).
  { intros v Hv. pose proof (Z.mod_pos_bound v 10 ltac:(lia)).
    assert (0 <= v / 10) by (apply Z.div_pos; lia).
    assert (v / 10 < 10) by (apply Z.div_lt_upper_bound; lia). lia. }
  destruct (Hdigit pmin ltac:(lia)) as [Hm1 Hm0].
  destruct (Hdigit psec ltac:(lia)) as [Hs1 Hs0].
  destruct (Hdigit pde ltac:(lia)) as [Hd1 Hd0].
  assert (Hbuf : displayTask_buf p
    = [48 + pmin / 10; 48 + pmin `mod` 10; 58; 48 + psec / 10; 48 + psec `mod` 10; 46;
       48 + pde / 10; 48 + pde `mod` 10] ++ [0]).
  { unfold displayTask_buf. fold pmin psec pde.
    rewrite !to_uint32_small by lia.
    rewrite !print_02lu_small by lia. reflexivity. }
  split; [exact Hbuf|]. split; [repeat constructor; lia|].
  unfold displayTask_partial_calls, ILI9341DrawString_calls.
  rewrite Hbuf, <- app_assoc. cbn [app length].
  change (to_uint16 (30 + OFFSET_X)) with 40.
  rewrite (to_uint16_small (180 + 36 * i)) by (unfold is_uint16; lia). fold y.
  set (text := [48 + pmin / 10; 48 + pmin `mod` 10; 58; 48 + psec / 10;
                48 + psec `mod` 10; 46; 48 + pde / 10; 48 + pde `mod` 10]).
  change (48 + pmin / 10 :: 48 + pmin `mod` 10 :: 58 :: 48 + psec / 10
          :: 48 + psec `mod` 10 :: 46 :: 48 + pde / 10 :: 48 + pde `mod` 10 :: 0 :: beyond)
    with (text ++ 0 :: beyond).
  change (S (S (S (S (S (S (S (S (S (length beyond))))))))))
    with (length text + S (length beyond))%nat.
  replace (S (length text + S (length beyond)))
    with (length text + S (S (length beyond)))%nat by lia.
  rewrite DrawString_loop_plain_prefix
    by (unfold text, is_plain; repeat constructor; lia).
  cbn [DrawString_loop]. rewrite Z.eqb_refl, app_nil_r.
  unfold text. cbn [plain_calls]. rewrite Hfw. reflexivity.
Qed.

(** The lap time 12:34.56 on the first of the three lines. *)
Lemma displayTask_partial_eight_characters_witness :
  displayTask_buf 75456 = [49; 50; 58; 51; 52; 46; 53; 54; 0].
Proof.
  refine (proj1 (displayTask_partial_eight_characters 75456 0 [] example_font_16x26 _ _ _));
    [lia | lia | reflexivity].
Defined.
